(** * Reversible blocks and custom gradients of [tefla.core.special_fn]

    A shallow embedding of the custom-gradient core of
    [tefla/core/special_fn.py]: [_fn_with_custom_grad], [variable_ref],
    [_acc_grads], [_rev_layer_forward], [_rev_layer_backward],
    [_rev_block_forward], [LAYER_RE], [rev_block] with its
    [custom_grad_fn], [_recompute_grad] and the two decorators, and of the
    left padding of [format_input_left_padding], [conv2d_v2] and [pool2d].

    The TensorFlow graph engine is not part of the repository.  Its
    operations are the fields of the class [Engine] (of the class [Layers]
    for the padding); the Python functions are defined once, over any
    engine.  Small symbolic engines, [sym] and [img], instantiate the
    classes so that every definition can be run.

    The definitions come first: the code, the symbolic engine, then the
    vocabulary of the statements.  The properties follow. *)

From Stdlib Require Import Ascii String ZArith Lia.

From stdpp Require Import base option list strings pretty functions gmap.

Set Default Proof Using "Type".

Local Open Scope string_scope.

Local Open Scope list_scope.

(** ** Python exceptions and results *)

(** The exceptions the modelled code can raise, with their messages. *)
Inductive PyExn : Type :=
| AssertionError
| AttributeError (msg : string)
| ValueError (msg : string)
| IndexError (msg : string)
| TypeError (msg : string).

(** A computation that either raises or returns. *)
Definition Res (A : Type) : Type := PyExn + A.

Definition raise {A : Type} (e : PyExn) : Res A := inl e.

Definition ok {A : Type} (x : A) : Res A := inr x.

#[export] Instance Res_ret : MRet Res := λ A x, inr x.

#[export] Instance Res_bind : MBind Res := λ A B k m,
  match m with
  | inl e => inl e
  | inr x => k x
  end.

Definition raised {A : Type} (r : Res A) : Prop :=
  match r with inl _ => True | inr _ => False end.

(** [assert cond] *)
Definition py_assert (cond : bool) : Res unit :=
  if cond then ok tt else raise AssertionError.

(** [l[i]] on a Python list. *)
Definition py_index {A : Type} (l : list A) (i : nat) : Res A :=
  match l !! i with
  | Some x => ok x
  | None => raise (IndexError "list index out of range")
  end.

(** [a, b = l] *)
Definition unpack2 {A : Type} (l : list A) : Res (A * A) :=
  match l with
  | [a; b] => ok (a, b)
  | _ :: _ :: _ :: _ => raise (ValueError "too many values to unpack")
  | _ => raise (ValueError "need more than 1 value to unpack")
  end.

(** ** Regular expressions: the fragment [LAYER_RE] is written in *)

(** Items of a pattern, left to right.  [RStar] is greedy and backtracks,
    as Python's [re] does. *)
Inductive re_item : Type :=
| RLit (c : ascii)            (* the character c *)
| RSet (p : ascii → bool)     (* one character of a class *)
| RStar (p : ascii → bool)    (* class*, longest first *)
| ROpen                       (* ( *)
| RClose.                     (* ) *)

(** Captured groups: the text of the closed groups in order, and the text
    consumed so far by the group that is still open. *)
Record re_caps : Type := ReCaps {
  open_group : option (list ascii);
  groups : list string
}.

Definition re_consume (c : ascii) (k : re_caps) : re_caps :=
  ReCaps ((λ b, b ++ [c]) <$> open_group k) (groups k).

Fixpoint re_match (items : list re_item) : list ascii → re_caps → option re_caps :=
  match items with
  | [] => λ _ k, Some k
  | RLit c :: r => λ s k,
      match s with
      | c' :: s' => if Ascii.eqb c c' then re_match r s' (re_consume c' k) else None
      | [] => None
      end
  | RSet p :: r => λ s k,
      match s with
      | c' :: s' => if p c' then re_match r s' (re_consume c' k) else None
      | [] => None
      end
  | RStar p :: r =>
      fix star (s : list ascii) (k : re_caps) : option re_caps :=
        match s with
        | c' :: s' =>
            if p c' then
              match star s' (re_consume c' k) with
              | Some k' => Some k'
              | None => re_match r s k
              end
            else re_match r s k
        | [] => re_match r s k
        end
  | ROpen :: r => λ s k, re_match r s (ReCaps (Some []) (groups k))
  | RClose :: r => λ s k,
      re_match r s
        (ReCaps None (groups k ++ [string_of_list_ascii (default [] (open_group k))]))
  end.

(** [.] : any character but a newline. *)
Definition re_dot (c : ascii) : bool := negb (Ascii.eqb c "010"%char).

(** [[0-9]] *)
Definition re_digit (c : ascii) : bool :=
  (48 <=? nat_of_ascii c)%nat && (nat_of_ascii c <=? 57)%nat.

(** [[fg]] *)
Definition re_fg (c : ascii) : bool := Ascii.eqb c "f"%char || Ascii.eqb c "g"%char.

Definition re_lit (s : string) : list re_item := RLit <$> list_ascii_of_string s.

(** [LAYER_RE]: dot-star, the text revlayer_, a group of digits (star),
    a slash, a group holding f or g, a slash, dot-star. *)
Definition LAYER_RE : list re_item :=
  [RStar re_dot] ++ re_lit "revlayer_" ++
  [ROpen; RStar re_digit; RClose] ++ re_lit "/" ++
  [ROpen; RSet re_fg; RClose] ++ re_lit "/" ++ [RStar re_dot].

(** [LAYER_RE.match(name)]: [None], or the match object's two groups. *)
Definition LAYER_RE_match (name : string) : option (string * string) :=
  match re_match LAYER_RE (list_ascii_of_string name) (ReCaps None []) with
  | Some k =>
      match groups k with
      | [g1; g2] => Some (g1, g2)
      | _ => None
      end
  | None => None
  end.

(** [int(s)] on a string of decimal digits; the empty string is refused. *)
Definition digit_value (c : ascii) : nat := nat_of_ascii c - 48.

Definition py_int (s : string) : Res nat :=
  let cs := list_ascii_of_string s in
  if bool_decide (cs = []) then
    raise (ValueError "invalid literal for int() with base 10: ''")
  else if forallb re_digit cs then
    ok (foldl (λ acc c, 10 * acc + digit_value c) 0 cs)
  else raise (ValueError ("invalid literal for int() with base 10: '" +:+ s +:+ "'")).

(** [needle in hay] on strings. *)
Fixpoint is_prefix (p s : list ascii) : bool :=
  match p, s with
  | [], _ => true
  | c :: p', c' :: s' => Ascii.eqb c c' && is_prefix p' s'
  | _ :: _, [] => false
  end.

Fixpoint occurs_in (p s : list ascii) : bool :=
  is_prefix p s ||
  match s with
  | [] => false
  | _ :: s' => occurs_in p s'
  end.

Definition str_in (needle hay : string) : bool :=
  occurs_in (list_ascii_of_string needle) (list_ascii_of_string hay).

(** ** The graph engine *)

(** A variable scope: its full name and whether variables are reused. *)
Record VarScope : Type := MkScope {
  vs_name : string;
  vs_reuse : bool
}.

(** [with tf.variable_scope(name)], entered under [cur]. *)
Definition variable_scope (cur : VarScope) (name : string) : VarScope :=
  MkScope (if bool_decide (vs_name cur = EmptyString) then name
           else vs_name cur +:+ "/" +:+ name)
          (vs_reuse cur).

(** [with tf.variable_scope(captured, reuse=True)] *)
Definition variable_scope_reuse (captured : VarScope) : VarScope :=
  MkScope (vs_name captured) true.

(** What the code asks of TensorFlow.  A [Tensor] is a node of the graph
    under construction; equality of tensors is Python object identity. *)
Class Engine : Type := {
  Tensor : Type;
  Tensor_eq_dec :: EqDecision Tensor;
  DType : Type;
  TensorShape : Type;
  (* t.op.type, t.op.inputs, t.name, t.dtype, t.get_shape() *)
  op_type : Tensor → string;
  op_inputs : Tensor → list Tensor;
  tensor_name : Tensor → string;
  tensor_dtype : Tensor → DType;
  get_shape : Tensor → TensorShape;
  (* the graph is a finite DAG: a bound on the chain of inputs above t *)
  op_depth : Tensor → nat;
  (* x + y, x - y, tf.stop_gradient, tf.identity, tf.add_n *)
  tf_add : Tensor → Tensor → Tensor;
  tf_sub : Tensor → Tensor → Tensor;
  tf_stop_gradient : Tensor → Tensor;
  tf_identity : Tensor → Tensor;
  tf_add_n : list Tensor → Tensor;
  (* t, to be computed only after all of deps (the gate of tf.tuple) *)
  with_dependencies : list Tensor → Tensor → Tensor;
  (* one entry of tf.gradients(ys, xs, grad_ys): the sum over ys of
     dy/dx seeded with grad_ys, or None when no y depends on x *)
  dydx : list Tensor → list Tensor → Tensor → option Tensor;
  (* tf.variable_scope(None, default_name=...) entered under a scope: the
     engine's name allocator chooses the scope *)
  default_scope : VarScope → string → VarScope;
  (* output k of the op made by calling a Defun'd function of that name *)
  call_defun : string → list Tensor → nat → Tensor
}.

Section Core.

Context `{E : Engine}.

(** [tf.gradients(ys, xs, grad_ys)]: one gradient (or None) per x, in the
    order of xs. *)
Definition tf_gradients (ys xs grad_ys : list Tensor) : list (option Tensor) :=
  dydx ys grad_ys <$> xs.

(** [tf.tuple(tensors)]: entries that are None stay None. *)
Definition tf_tuple (tensors : list (option Tensor)) : list (option Tensor) :=
  let deps : list Tensor := omap id tensors in
  (λ t : option Tensor, with_dependencies deps <$> t) <$> tensors.

(** [a + b] where either may be None: the overloaded operator refuses to
    convert None to a tensor. *)
Definition tensor_add (a b : option Tensor) : Res Tensor :=
  match a, b with
  | Some x, Some y => ok (tf_add x y)
  | _, _ => raise (ValueError "None values not supported.")
  end.

(** A sub-function [f] or [g] of a reversible layer.  It builds its graph
    under the variable scope that is current when it is called;
    [sf_call sc x None] is [f(x)] and [sf_call sc x (Some side)] is
    [f(x, side)].  [sf_variables sc] are the trainable variables it owns
    under that scope. *)
Record SubFn : Type := MkSubFn {
  sf_call : VarScope → Tensor → option (list Tensor) → Tensor;
  sf_variables : VarScope → list Tensor
}.

(** [f(x, side) if side else f(x)] *)
Definition call_with_side (f : SubFn) (sc : VarScope) (x : Tensor)
    (side : list Tensor) : Tensor :=
  match side with
  | [] => sf_call f sc x None
  | _ :: _ => sf_call f sc x (Some side)
  end.

(** ** [variable_ref] *)

Fixpoint variable_ref_loop (fuel : nat) (t : Tensor) : option Tensor :=
  if bool_decide (op_type t = "Identity") then
    match fuel with
    | O => None
    | S fuel' =>
        match op_inputs t with
        | t' :: _ => variable_ref_loop fuel' t'
        | [] => None
        end
    end
  else if str_in "Variable" (op_type t) then Some t
  else None.

(** The [while] loop follows the inputs of Identity ops; it is run for at
    most [op_depth t] steps, the length of the chain above [t]. *)
Definition variable_ref (t : Tensor) : option Tensor :=
  variable_ref_loop (op_depth t) t.

(** ** [_acc_grads] *)

(** [zip] of all the lists at once: the columns of the lists, as many as the shortest has;
    none at all when there is no list. *)
Definition min_length {A : Type} (lists : list (list A)) : nat :=
  match lists with
  | [] => 0
  | l :: ls => foldr (λ k n, Nat.min (length k) n) (length l) ls
  end.

Definition zip_star {A : Type} (lists : list (list A)) : list (list A) :=
  (λ j : nat, omap (λ l : list A, l !! j) lists) <$> seq 0 (min_length lists).

Definition _acc_grads (lists_of_grads : list (list (option Tensor)))
    : list (option Tensor) :=
  (λ grads : list (option Tensor),
     let grads : list Tensor := omap id grads in   (* those that are not None *)
     match grads with
     | [] => None
     | _ :: _ => Some (tf_add_n grads)
     end) <$> zip_star lists_of_grads.

(** ** [_rev_layer_forward] *)

Definition _rev_layer_forward (cur : VarScope) (xs : list Tensor) (f g : SubFn)
    (f_side_input g_side_input : list Tensor) (gate_outputs : bool)
    : Res (list Tensor) :=
  '(x1, x2) ← unpack2 xs;
  let y1 := tf_add x1 (call_with_side f (variable_scope cur "f") x2 f_side_input) in
  let y2 := tf_add x2 (call_with_side g (variable_scope cur "g") y1 g_side_input) in
  if gate_outputs then ok (omap id (tf_tuple [Some y1; Some y2]))
  else ok [y1; y2].

(** ** [_rev_layer_backward] *)

(** The reconstruction of the inputs, lines 595 to 606. *)
Record Reconstructed : Type := MkRec {
  rc_y1_stop : Tensor;
  rc_g_side : list Tensor;
  rc_gy1 : Tensor;
  rc_x2 : Tensor;
  rc_x2_stop : Tensor;
  rc_f_side : list Tensor;
  rc_fx2 : Tensor;
  rc_x1 : Tensor
}.

Definition reconstruct (cur : VarScope) (y1 y2 : Tensor) (f g : SubFn)
    (f_side_input g_side_input : list Tensor) : Reconstructed :=
  let y1_stop := tf_stop_gradient y1 in
  let g_side_input := tf_stop_gradient <$> g_side_input in
  let gy1 := call_with_side g (variable_scope cur "g") y1_stop g_side_input in
  let x2 := tf_sub y2 gy1 in
  let x2_stop := tf_stop_gradient x2 in
  let f_side_input := tf_stop_gradient <$> f_side_input in
  let fx2 := call_with_side f (variable_scope cur "f") x2_stop f_side_input in
  let x1 := tf_sub y1 fx2 in
  MkRec y1_stop g_side_input gy1 x2 x2_stop f_side_input fx2 x1.

(** What one layer's backward pass returns:
    [((x1, x2), (grad_x1, grad_x2), (grad_f_vars, grad_f_side),
      (grad_g_vars, grad_g_side))]. *)
Definition LayerGrads : Type :=
  (list Tensor * list Tensor *
   (list (option Tensor) * list (option Tensor)) *
   (list (option Tensor) * list (option Tensor)))%type.

Definition _rev_layer_backward (cur : VarScope) (ys grad_ys : list Tensor)
    (f g : SubFn) (f_vars f_side_input g_vars g_side_input : list Tensor)
    : Res LayerGrads :=
  '(y1, y2) ← unpack2 ys;
  '(grad_y1, grad_y2) ← unpack2 grad_ys;
  let r := reconstruct cur y1 y2 f g f_side_input g_side_input in
  let g_side_input := rc_g_side r in
  let f_side_input := rc_f_side r in
  (* gradients with respect to the inputs *)
  let grad_gy1_y2 := mjoin (tf_gradients [rc_gy1 r] [rc_y1_stop r] [grad_y2] !! 0) in
  grad_x1 ← tensor_add (Some grad_y1) grad_gy1_y2;
  s ← tensor_add (mjoin (tf_gradients [rc_fx2 r] [rc_x2_stop r] [grad_y1] !! 0))
                 (Some grad_y2);
  grad_x2 ← tensor_add (Some s)
      (mjoin (tf_gradients [rc_fx2 r] [rc_x2_stop r] (option_list grad_gy1_y2) !! 0));
  (* gradients with respect to the variables and side inputs of f and g *)
  let grads1 := tf_gradients [rc_gy1 r] (g_vars ++ g_side_input) [grad_y2] in
  let grad_g_vars := take (length g_vars) grads1 in
  let grad_g_side := drop (length g_vars) grads1 in
  let grads2 := tf_gradients [rc_fx2 r] (f_vars ++ f_side_input) [grad_y1] in
  let grad_f_y1 := take (length f_vars) grads2 in
  let grad_f_side1 := drop (length f_vars) grads2 in
  let grads3 := tf_gradients [rc_fx2 r] (f_vars ++ f_side_input)
                  (option_list grad_gy1_y2) in
  let grad_f_y2 := take (length f_vars) grads3 in
  let grad_f_side2 := drop (length f_vars) grads3 in
  let grad_f_vars := _acc_grads [grad_f_y1; grad_f_y2] in
  let grad_f_side := _acc_grads [grad_f_side1; grad_f_side2] in
  (* one tuple for all that is returned *)
  let outs := tf_tuple ([Some (rc_x1 r); Some (rc_x2 r); Some grad_x1; Some grad_x2]
                        ++ grad_f_vars ++ grad_g_vars ++ grad_f_side ++ grad_g_side) in
  match take 4 outs with
  | [Some x1; Some x2; Some grad_x1; Some grad_x2] =>
      let grad_f_vars_end := 4 + length grad_f_vars in
      let grad_g_vars_end := grad_f_vars_end + length grad_g_vars in
      let grad_f_side_end := grad_g_vars_end + length grad_f_side in
      let grad_f_vars := drop 4 (take grad_f_vars_end outs) in
      let grad_g_vars := drop grad_f_vars_end (take grad_g_vars_end outs) in
      let grad_f_side := drop grad_g_vars_end (take grad_f_side_end outs) in
      let grad_g_side := drop grad_f_side_end outs in
      ok ([x1; x2], [grad_x1; grad_x2], (grad_f_vars, grad_f_side),
          (grad_g_vars, grad_g_side))
  | _ => raise (ValueError "need more than 0 values to unpack")
  end.

(** ** Python state *)

(** The list objects that hold sub-functions live in a heap, so that a list
    handed in by the caller and the list the block reverses are one
    object.  [layer_scopes] is the list of that name of the call of
    [rev_block] under consideration. *)
Record PyState : Type := MkState {
  heap : nat → list SubFn;
  next_loc : nat;
  layer_scopes : list VarScope
}.

(** A computation on the Python state that raises or returns; the state
    reached is kept when it raises. *)
Definition Py (A : Type) : Type := PyState → PyState * Res A.

#[global] Instance Py_ret : MRet Py := λ A x st, (st, inr x).

#[global] Instance Py_bind : MBind Py := λ A B k m st,
  match m st with
  | (st', inl e) => (st', inl e)
  | (st', inr x) => k x st'
  end.

Definition lift {A : Type} (r : Res A) : Py A := λ st, (st, r).

Definition get_state : Py PyState := λ st, (st, inr st).

Definition modify (u : PyState → PyState) : Py unit := λ st, (u st, inr tt).

Definition set_heap (l : nat) (v : list SubFn) (st : PyState) : PyState :=
  MkState (<[l := v]> (heap st)) (next_loc st) (layer_scopes st).

Definition set_layer_scopes (v : list VarScope) (st : PyState) : PyState :=
  MkState (heap st) (next_loc st) v.

(** A new list object. *)
Definition alloc (v : list SubFn) : Py nat := λ st,
  (MkState (<[next_loc st := v]> (heap st)) (S (next_loc st)) (layer_scopes st),
   inr (next_loc st)).

(** [l.reverse()] on the list object at [l]. *)
Definition reverse_at (l : nat) : Py unit :=
  modify (λ st, set_heap l (reverse (heap st l)) st).

(** ** [_rev_block_forward] *)

Fixpoint rev_block_forward_loop (block_vs : VarScope) (layers : list nat)
    (out : list Tensor) (f g : list SubFn) (f_side_input g_side_input : list Tensor)
    (record_scopes gate_outputs : bool) : Py (list Tensor) :=
  match layers with
  | [] => mret out
  | i :: rest =>
      let layer_vs := variable_scope block_vs ("revlayer_" +:+ pretty i) in
      _ ← (if record_scopes
           then modify (λ st, set_layer_scopes (layer_scopes st ++ [layer_vs]) st)
           else mret tt);
      out ← lift (fi ← py_index f i;
                  gi ← py_index g i;
                  _rev_layer_forward layer_vs out fi gi f_side_input g_side_input
                                     gate_outputs);
      rev_block_forward_loop block_vs rest out f g f_side_input g_side_input
                             record_scopes gate_outputs
  end.

(** [record_scopes] is [layer_scopes is not None]; the scope of the block is
    opened with [name=None] and the default name revblock. *)
Definition _rev_block_forward (cur : VarScope) (x1 x2 : Tensor) (f g : list SubFn)
    (num_layers : nat) (f_side_input g_side_input : list Tensor)
    (record_scopes gate_outputs : bool) : Py (Tensor * Tensor) :=
  let block_vs := default_scope cur "revblock" in
  out ← rev_block_forward_loop block_vs (seq 0 num_layers) [x1; x2] f g
          f_side_input g_side_input record_scopes gate_outputs;
  lift (unpack2 out).

(** ** The gradient function of [rev_block] *)

(** [enumerate(l)] *)
Definition enumerate {A : Type} (l : list A) : list (nat * A) :=
  imap (λ i x, (i, x)) l.

(** [l.index(t)] *)
Definition list_index (l : list Tensor) (t : Tensor) : Res nat :=
  match list_find (λ x, x = t) l with
  | Some (k, _) => ok k
  | None => raise (ValueError "is not in list")
  end.

(** [l[i] = v] *)
Definition py_setitem {A : Type} (l : list A) (i : nat) (v : A) : Res (list A) :=
  if bool_decide (i < length l) then ok (<[i := v]> l)
  else raise (IndexError "list assignment index out of range").

(** [l[i] = v] where [i] may be None. *)
Definition py_setitem_opt {A : Type} (l : list A) (i : option nat) (v : A)
    : Res (list A) :=
  match i with
  | Some i => py_setitem l i v
  | None => raise (TypeError "list indices must be integers, not NoneType")
  end.

(** [ls[k].append(x)] *)
Definition py_append_at {A : Type} (ls : list (list A)) (k : nat) (x : A)
    : Res (list (list A)) :=
  _ ← py_index ls k;
  ok (alter (λ l, l ++ [x]) k ls).

(** Lines 748 to 754: where each side input sits in the flat list. *)
Fixpoint side_idxs_loop (f_side_input g_side_input : list Tensor)
    (items : list (nat * Tensor)) (f_side_idxs g_side_idxs : list (option nat))
    : Res (list (option nat) * list (option nat)) :=
  match items with
  | [] => ok (f_side_idxs, g_side_idxs)
  | (i, t) :: rest =>
      if bool_decide (t ∈ f_side_input) then
        k ← list_index f_side_input t;
        f_side_idxs ← py_setitem f_side_idxs k (Some i);
        side_idxs_loop f_side_input g_side_input rest f_side_idxs g_side_idxs
      else if bool_decide (t ∈ g_side_input) then
        k ← list_index g_side_input t;
        g_side_idxs ← py_setitem g_side_idxs k (Some i);
        side_idxs_loop f_side_input g_side_input rest f_side_idxs g_side_idxs
      else raise AssertionError
  end.

(** The four lists of lists filled by the loop over the variables. *)
Record VarGroups : Type := MkGroups {
  f_vars : list (list Tensor);
  g_vars : list (list Tensor);
  f_vars_idxs : list (list nat);
  g_vars_idxs : list (list nat)
}.

(** Lines 762 to 767: the variable behind [t], its layer and its function. *)
Definition parse_variable (t : Tensor) : Res (Tensor * nat * string) :=
  match variable_ref t with
  | None => raise (AttributeError "'NoneType' object has no attribute 'name'")
  | Some ref =>
      match LAYER_RE_match (tensor_name ref) with
      | None => raise (AttributeError "'NoneType' object has no attribute 'group'")
      | Some (g1, g2) =>
          layer_no ← py_int g1;
          ok (ref, layer_no, g2)
      end
  end.

(** Lines 761 to 774. *)
Fixpoint vars_loop (items : list (nat * Tensor)) (vg : VarGroups) : Res VarGroups :=
  match items with
  | [] => ok vg
  | (i, t) :: rest =>
      '(ref, layer_no, fn_name) ← parse_variable t;
      if bool_decide (fn_name = "f") then
        fv ← py_append_at (f_vars vg) layer_no ref;
        fi ← py_append_at (f_vars_idxs vg) layer_no i;
        vars_loop rest (MkGroups fv (g_vars vg) fi (g_vars_idxs vg))
      else
        _ ← py_assert (bool_decide (fn_name = "g"));
        gv ← py_append_at (g_vars vg) layer_no ref;
        gi ← py_append_at (g_vars_idxs vg) layer_no i;
        vars_loop rest (MkGroups (f_vars vg) gv (f_vars_idxs vg) gi)
  end.

(** The lists collected by the loop over the layers. *)
Record Collected : Type := MkColl {
  f_var_grads : list (list (option Tensor));
  g_var_grads : list (list (option Tensor));
  f_side_grads : list (list (option Tensor));
  g_side_grads : list (list (option Tensor))
}.

(** Lines 788 to 800; all the lists are the reversed ones. *)
Fixpoint backward_loop (layers : list nat) (scopes : list VarScope)
    (f g : list SubFn) (f_vars g_vars : list (list Tensor))
    (f_side_input g_side_input : list Tensor)
    (ys grad_ys : list Tensor) (c : Collected)
    : Res (list Tensor * list Tensor * Collected) :=
  match layers with
  | [] => ok (ys, grad_ys, c)
  | i :: rest =>
      sc ← py_index scopes i;
      fi ← py_index f i;
      gi ← py_index g i;
      fv ← py_index f_vars i;
      gv ← py_index g_vars i;
      '(ys, grad_ys, f_ret, g_ret) ←
        _rev_layer_backward (variable_scope_reuse sc) ys grad_ys fi gi
                            fv f_side_input gv g_side_input;
      let '(grad_f_vars, grad_f_side) := f_ret in
      let '(grad_g_vars, grad_g_side) := g_ret in
      backward_loop rest scopes f g f_vars g_vars f_side_input g_side_input
        ys grad_ys
        (MkColl (f_var_grads c ++ [grad_f_vars]) (g_var_grads c ++ [grad_g_vars])
                (f_side_grads c ++ [grad_f_side]) (g_side_grads c ++ [grad_g_side]))
  end.

(** Lines 814 to 817: [variable_grads[i] = grad]. *)
Fixpoint scatter {A : Type} (arr : list A) (pairs : list (nat * A)) : Res (list A) :=
  match pairs with
  | [] => ok arr
  | (i, v) :: rest => arr ← py_setitem arr i v; scatter arr rest
  end.

(** Lines 819 to 822: [side_input_grads[i] = grad]. *)
Fixpoint scatter_opt {A : Type} (arr : list A) (pairs : list (option nat * A))
    : Res (list A) :=
  match pairs with
  | [] => ok arr
  | (i, v) :: rest => arr ← py_setitem_opt arr i v; scatter_opt arr rest
  end.

(** Lines 806 to 825, once the layers have been walked. *)
Definition place_gradients (n_side n_vars : nat) (vg : VarGroups)
    (f_side_idxs g_side_idxs : list (option nat)) (c : Collected)
    (grad_ys : list Tensor)
    : Res (list (option Tensor) * list (option Tensor)) :=
  let acc_f_side_grads := _acc_grads (f_side_grads c) in
  let acc_g_side_grads := _acc_grads (g_side_grads c) in
  let side_input_grads : list (option Tensor) := replicate n_side None in
  let variable_grads : list (option Tensor) := replicate n_vars None in
  let f_var_grads := reverse (f_var_grads c) in
  let g_var_grads := reverse (g_var_grads c) in
  variable_grads ←
    scatter variable_grads
      (mjoin ((λ '(idxs, grads), zip idxs grads) <$>
              (zip (f_vars_idxs vg) f_var_grads ++ zip (g_vars_idxs vg) g_var_grads)));
  side_input_grads ← scatter_opt side_input_grads (zip f_side_idxs acc_f_side_grads);
  side_input_grads ← scatter_opt side_input_grads (zip g_side_idxs acc_g_side_grads);
  '(grad_x1, grad_x2) ← unpack2 grad_ys;
  ok ([Some grad_x1; Some grad_x2] ++ side_input_grads, variable_grads).

(** Lines 743 to 774, before anything is reversed. *)
Definition prepare (num_layers : nat) (f_side_input g_side_input : list Tensor)
    (inputs variables : list Tensor)
    : Res (list (option nat) * list (option nat) * VarGroups) :=
  let side_inputs := drop 2 inputs in
  let f_side_idxs : list (option nat) := replicate (length f_side_input) None in
  let g_side_idxs : list (option nat) := replicate (length g_side_input) None in
  _ ← py_assert (bool_decide (length side_inputs
                              = length f_side_input + length g_side_input));
  '(f_side_idxs, g_side_idxs) ←
    side_idxs_loop f_side_input g_side_input (enumerate side_inputs)
                   f_side_idxs g_side_idxs;
  vg ← vars_loop (enumerate variables)
         (MkGroups (replicate num_layers []) (replicate num_layers [])
                   (replicate num_layers []) (replicate num_layers []));
  ok (f_side_idxs, g_side_idxs, vg).

(** [custom_grad_fn] of [rev_block].  The variables it closes over are
    arguments: [num_layers], the two lists of side inputs, and the list
    objects [f] and [g]. *)
Definition rev_block_custom_grad_fn (num_layers : nat) (f_side_input g_side_input : list Tensor)
    (f g : nat) (inputs variables ys grad_ys : list Tensor)
    : Py (list (option Tensor) * list (option Tensor)) :=
  '(f_side_idxs, g_side_idxs, vg) ←
    lift (prepare num_layers f_side_input g_side_input inputs variables);
  (* reverse the containers to go backward *)
  _ ← modify (λ st, set_layer_scopes (reverse (layer_scopes st)) st);
  let f_vars_r := reverse (f_vars vg) in
  let g_vars_r := reverse (g_vars vg) in
  _ ← reverse_at f;
  _ ← reverse_at g;
  st ← get_state;
  '(ys, grad_ys, c) ←
    lift (backward_loop (seq 0 num_layers) (layer_scopes st) (heap st f) (heap st g)
            f_vars_r g_vars_r f_side_input g_side_input ys grad_ys
            (MkColl [] [] [] []));
  lift (place_gradients (length (drop 2 inputs)) (length variables) vg
          f_side_idxs g_side_idxs c grad_ys).

(** ** [_fn_with_custom_grad] *)

(** What a Python function can hand back where tensors are expected, and
    what calling a Defun'd function hands back. *)
Inductive PyOut : Type :=
| ONone
| OTensor (t : Tensor)
| OTuple (ts : list Tensor)
| OList (ts : list Tensor)
| OOperation (name : string).

(** A forward function: its outputs and the variables created in the
    scope it was called under ([vs.trainable_variables()] and
    [vs.global_variables()]). *)
Record FnOut : Type := MkFnOut {
  fo_outputs : PyOut;
  fo_trainable : list Tensor;
  fo_global : list Tensor
}.

(** [fn], called on the inputs under a variable scope. *)
Definition Fn : Type := VarScope → list Tensor → Py FnOut.

(** [grad_fn(inputs, vars, outputs, output_grads)], called by the engine
    under whatever variable scope is current at that time. *)
Definition GradFn : Type :=
  VarScope → list Tensor → list Tensor → list Tensor → list Tensor →
  Py (list (option Tensor) * list (option Tensor)).

(** What [function.Defun] registers. *)
Record Defun : Type := MkDefun {
  df_signature : list DType;
  df_func_name : string;
  df_python_grad_func : VarScope → list Tensor → list Tensor → Py (list (option Tensor));
  df_shape_func : list TensorShape;
  df_body : list Tensor → list Tensor
}.

(** [outputs = [outputs]] unless a tuple or a list, then [list(outputs)];
    an entry that is no tensor is None here. *)
Definition outputs_list (o : PyOut) : list (option Tensor) :=
  match o with
  | OTuple ts | OList ts => Some <$> ts
  | OTensor t => [Some t]
  | ONone | OOperation _ => [None]
  end.

(** [[t.dtype for t in outputs]] *)
Fixpoint dtypes (outputs : list (option Tensor)) : Res (list DType) :=
  match outputs with
  | [] => ok []
  | None :: _ => raise (AttributeError "'NoneType' object has no attribute 'dtype'")
  | Some t :: rest => ds ← dtypes rest; ok (tensor_dtype t :: ds)
  end.

(** [custom_grad_fn] of [_fn_with_custom_grad], called with the op and
    the gradients of its outputs; [op_inputs] is [op.inputs]. *)
Definition defun_custom_grad_fn (grad_fn : GradFn) (n_inputs n_train_vars n_outputs : nat)
    (cur : VarScope) (op_inputs dys : list Tensor) : Py (list (option Tensor)) :=
  let fn_inputs := take n_inputs op_inputs in
  let fn_vars := drop n_inputs (take (n_inputs + n_train_vars) op_inputs) in
  let fn_outputs := drop (n_inputs + n_train_vars) op_inputs in
  _ ← lift (py_assert (bool_decide (length fn_outputs = n_outputs)));
  _ ← lift (py_assert (bool_decide (length fn_outputs = length dys)));
  '(grad_inputs, grad_vars) ← grad_fn cur fn_inputs fn_vars fn_outputs dys;
  let grad_outputs : list (option Tensor) := replicate (length fn_outputs) None in
  mret (grad_inputs ++ grad_vars ++ grad_outputs).

(** The body of the Defun: the outputs, passed through. *)
Definition identity (n_inputs n_train_vars : nat) (args : list Tensor) : list Tensor :=
  tf_identity <$> drop (n_inputs + n_train_vars) args.

(** What a call of a Defun'd function returns: the output of the op it
    makes, a tuple when there are several, the op itself when none. *)
Definition defun_call (name : string) (args : list Tensor) (n_outputs : nat) : PyOut :=
  match n_outputs with
  | 0 => OOperation name
  | 1 => OTensor (call_defun name args 0)
  | _ => OTuple (call_defun name args <$> seq 0 n_outputs)
  end.

(** [rand] is the draw of [random.randint(1, 10**9)].  The registration of
    the Defun is returned with the outputs. *)
Definition _fn_with_custom_grad (cur : VarScope) (rand : nat) (fn : Fn)
    (inputs : list Tensor) (grad_fn : option GradFn) (use_global_vars : bool)
    : Py (PyOut * option Defun) :=
  let vs := default_scope cur "fn_with_custom_grad" in
  r ← fn vs inputs;
  let outputs := fo_outputs r in
  let train_vars := if use_global_vars then fo_global r else fo_trainable r in
  match grad_fn with
  | None => mret (outputs, None)
  | Some grad_fn =>
      let outputs := outputs_list outputs in
      let in_types := tensor_dtype <$> inputs in
      out_types ← lift (dtypes outputs);
      let var_types := tensor_dtype <$> train_vars in
      let outputs : list Tensor := omap id outputs in
      let func_name := "identity_custom_grad" +:+ pretty rand in
      let d := MkDefun (in_types ++ var_types ++ out_types) func_name
                 (defun_custom_grad_fn grad_fn (length inputs) (length train_vars)
                                       (length outputs))
                 (get_shape <$> outputs)
                 (identity (length inputs) (length train_vars)) in
      let id_out := defun_call func_name (inputs ++ train_vars ++ outputs)
                               (length outputs) in
      mret (id_out, Some d)
  end.

(** ** [rev_block] *)

(** The argument [f] (or [g]): one function, or a list object. *)
Inductive FnArg : Type :=
| OneFn (f : SubFn)
| FnList (loc : nat).

(** Lines 729 to 736. *)
Definition as_layer_list (f : FnArg) (num_layers : nat) : Py nat :=
  match f with
  | FnList l =>
      st ← get_state;
      _ ← lift (py_assert (bool_decide (length (heap st l) = num_layers)));
      mret l
  | OneFn f => alloc (replicate num_layers f)
  end.

(** The trainable variables created under the scope of the block, in the
    order of their creation. *)
Definition block_variables (vs : VarScope) (f g : list SubFn) (num_layers : nat)
    : list Tensor :=
  let block_vs := default_scope vs "revblock" in
  mjoin ((λ i : nat,
            let layer_vs := variable_scope block_vs ("revlayer_" +:+ pretty i) in
            from_option (λ fi, sf_variables fi (variable_scope layer_vs "f")) [] (f !! i)
            ++ from_option (λ gi, sf_variables gi (variable_scope layer_vs "g")) [] (g !! i))
         <$> seq 0 num_layers).

(** [forward] of [rev_block]: [x1], [x2], then the side inputs. *)
Definition forward (num_layers : nat) (f_side_input g_side_input : list Tensor)
    (f g : nat) (is_training : bool) : Fn := λ vs args,
  match args with
  | x1 :: x2 :: side_inputs =>
      let f_side := take (length f_side_input) side_inputs in
      let g_side := drop (length f_side_input) side_inputs in
      st ← get_state;
      '(y1, y2) ← _rev_block_forward vs x1 x2 (heap st f) (heap st g) num_layers
                    f_side g_side true is_training;
      let vars := block_variables vs (heap st f) (heap st g) num_layers in
      mret (MkFnOut (OTuple [y1; y2]) vars vars)
  | _ => lift (raise (TypeError "forward() takes at least 2 arguments"))
  end.

Definition rev_block (cur : VarScope) (rand : nat) (x1 x2 : Tensor) (f g : FnArg)
    (num_layers : nat) (f_side_input g_side_input : option (list Tensor))
    (is_training : bool) : Py (PyOut * option Defun) :=
  let f_side_input := default [] f_side_input in
  let g_side_input := default [] g_side_input in
  f ← as_layer_list f num_layers;
  g ← as_layer_list g num_layers;
  (* filled by the forward function below *)
  _ ← modify (set_layer_scopes []);
  let grad_fn : option GradFn :=
    if is_training
    then Some (λ _, rev_block_custom_grad_fn num_layers f_side_input g_side_input f g)
    else None in
  _fn_with_custom_grad cur rand
    (forward num_layers f_side_input g_side_input f g is_training)
    (x1 :: x2 :: f_side_input ++ g_side_input) grad_fn false.

(** ** [_recompute_grad] *)

(** [list(outputs)] *)
Definition py_list (o : PyOut) : Res (list Tensor) :=
  match o with
  | OTuple ts | OList ts => ok ts
  | OTensor _ => raise (TypeError "'Tensor' object is not iterable.")
  | ONone => raise (TypeError "'NoneType' object is not iterable")
  | OOperation _ => raise (TypeError "'Operation' object is not iterable")
  end.

(** [grad_fn] of [_recompute_grad]: [fn] is called again, under the scope
    that is current during the backward pass. *)
Definition recompute_grad_fn (fn : Fn) : GradFn :=
  λ cur inputs variables _ output_grads,
    r ← fn cur inputs;
    outputs ← lift (py_list (fo_outputs r));
    let grads := tf_gradients outputs (inputs ++ variables) output_grads in
    let grad_inputs := take (length inputs) grads in
    let grad_vars := drop (length inputs) grads in
    mret (grad_inputs, grad_vars).

Definition _recompute_grad (cur : VarScope) (rand : nat) (fn : Fn) (args : list Tensor)
    : Py (PyOut * option Defun) :=
  _fn_with_custom_grad cur rand fn args (Some (recompute_grad_fn fn)) false.

End Core.

(** ** The decorators *)

Section Decorators.
Context `{E : Engine}.

(** The function [fn_with_custom_grad(grad_fn, use_global_vars)] makes of
    [fn], called on [args]; [grad_fn] is None where Python is given None. *)
Definition fn_with_custom_grad (grad_fn : option GradFn) (use_global_vars : bool)
    (fn : Fn) : VarScope → nat → list Tensor → Py (PyOut * option Defun) :=
  λ cur rand args, _fn_with_custom_grad cur rand fn args grad_fn use_global_vars.

(** The function [recompute_grad] makes of [fn], called on [args]. *)
Definition recompute_grad (fn : Fn)
    : VarScope → nat → list Tensor → Py (PyOut * option Defun) :=
  λ cur rand args, _recompute_grad cur rand fn args.

End Decorators.

(** ** Left padding: [format_input_left_padding], [conv2d_v2], [pool2d] *)

(** A Python value passed as an argument or kept in [kwargs]: None, an
    int, a list or a tuple of ints, a string, or an object of the named
    type that has neither items nor arithmetic (a function, an
    initializer). *)
Inductive PyVal : Type :=
| VNone
| VInt (z : Z)
| VList (zs : list Z)
| VTuple (zs : list Z)
| VStr (s : string)
| VObj (type_name : string).

#[global] Instance PyVal_eq_dec : EqDecision PyVal.
Proof. solve_decision. Defined.

(** The exceptions of this part: those above, and KeyError. *)
Inductive ConvExn : Type :=
| KeyError (key : string)
| Raised (e : PyExn).

Definition ConvRes (A : Type) : Type := ConvExn + A.

#[global] Instance ConvRes_ret : MRet ConvRes := λ A x, inr x.

#[global] Instance ConvRes_bind : MBind ConvRes := λ A B k m,
  match m with
  | inl e => inl e
  | inr x => k x
  end.

Definition conv_raise {A : Type} (e : PyExn) : ConvRes A := inl (Raised e).

(** [assert cond] *)
Definition conv_assert (cond : bool) : ConvRes unit :=
  if cond then mret tt else conv_raise AssertionError.

(** [kwargs[key]] *)
Definition kwargs_get (kwargs : gmap string PyVal) (key : string) : ConvRes PyVal :=
  match kwargs !! key with
  | Some v => inr v
  | None => inl (KeyError key)
  end.

(** An item of a sequence of ints or of a string. *)
Inductive Item : Type :=
| IInt (z : Z)
| IChar (c : ascii).

(** [v[i]] *)
Definition py_item (v : PyVal) (i : nat) : ConvRes Item :=
  match v with
  | VList zs =>
      match zs !! i with
      | Some z => inr (IInt z)
      | None => conv_raise (IndexError "list index out of range")
      end
  | VTuple zs =>
      match zs !! i with
      | Some z => inr (IInt z)
      | None => conv_raise (IndexError "tuple index out of range")
      end
  | VStr s =>
      match String.get i s with
      | Some c => inr (IChar c)
      | None => conv_raise (IndexError "string index out of range")
      end
  | VNone => conv_raise (TypeError "'NoneType' object has no attribute '__getitem__'")
  | VInt _ => conv_raise (TypeError "'int' object has no attribute '__getitem__'")
  | VObj ty => conv_raise (TypeError ("'" +:+ ty +:+ "' object has no attribute '__getitem__'"))
  end.

(** [x % 2 == 1]; on a one-character string, [%] is formatting. *)
Definition item_odd (x : Item) : ConvRes bool :=
  match x with
  | IInt z => inr (Z.eqb (z mod 2) 1)
  | IChar c =>
      if Ascii.eqb c "%"%char
      then conv_raise (ValueError "incomplete format")
      else conv_raise (TypeError "not all arguments converted during string formatting")
  end.

(** [x // 2] *)
Definition item_half (x : Item) : ConvRes Z :=
  match x with
  | IInt z => inr (z / 2)%Z
  | IChar _ => conv_raise (TypeError "unsupported operand type(s) for //: 'str' and 'int'")
  end.

(** [assert filter_size[0] % 2 == 1 and filter_size[1] % 2 == 1] *)
Definition assert_odd_sizes (filter_size : PyVal) : ConvRes unit :=
  (a ← py_item filter_size 0;
   odd0 ← item_odd a;
   both ← (if odd0 : bool
           then b ← py_item filter_size 1; item_odd b
           else mret false);
   conv_assert both).

(** An entry of the [paddings] argument of [tf.pad]: a Python int, or the
    scalar tensor [tf.cond(tf.equal(tf.shape(inputs)[2], 1), 0, z)]. *)
Inductive PadAmount : Type :=
| PConst (z : Z)
| PCond (z : Z).

(** The static shape of a tensor: None when the rank is unknown, and None
    for a dimension that is unknown. *)
Definition StaticShape : Type := option (list (option nat)).

(** [not static_shape or len(static_shape) != 4] *)
Definition not_rank4 (s : StaticShape) : bool :=
  match s with
  | None => true
  | Some dims => negb (bool_decide (length dims = 4))
  end.

(** [static_shape[i]]: the dimension, None when it is unknown. *)
Definition shape_item (s : StaticShape) (i : nat) : ConvRes (option nat) :=
  match s with
  | None => mret None
  | Some dims =>
      match dims !! i with
      | Some d => mret d
      | None => conv_raise (IndexError "list index out of range")
      end
  end.

(** What this part asks of TensorFlow and of [tefla.core.layers]. *)
Class Layers : Type := {
  Image : Type;
  (* inputs.get_shape() and str of it *)
  static_shape : Image → StaticShape;
  shape_str : StaticShape → string;
  (* tf.pad(inputs, paddings) *)
  tf_pad : Image → list (PadAmount * PadAmount) → ConvRes Image;
  (* inputs.set_shape(dims), on the tensor tf.pad returned *)
  set_shape : Image → list (option nat) → ConvRes Image;
  (* dilated_conv2d(inputs, n_output_channels, is_training, reuse, **kwargs) *)
  dilated_conv2d : Image → PyVal → PyVal → PyVal → gmap string PyVal → ConvRes Image;
  (* tf.nn.pool(inputs, filter_size, pooling_type, padding, strides=strides) *)
  tf_nn_pool : Image → PyVal → PyVal → PyVal → PyVal → ConvRes Image;
  (* _collect_named_outputs(outputs_collections, name, outputs) *)
  _collect_named_outputs : PyVal → PyVal → Image → ConvRes Image
}.

Section Padding.
Context `{L : Layers}.

(** [width_padding = 0 if static_shape[2] == 1 else cond_padding] *)
Definition width_padding (s : StaticShape) (cond_padding : PadAmount)
    : ConvRes PadAmount :=
  d ← shape_item s 2;
  mret (if bool_decide (d = Some 1) then PConst 0 else cond_padding).

(** [tf.pad] and [set_shape], as both functions call them. *)
Definition pad_and_set_shape (inputs : Image) (s : StaticShape)
    (padding : list (PadAmount * PadAmount)) : ConvRes Image :=
  inputs ← tf_pad inputs padding;
  d0 ← shape_item s 0;
  d3 ← shape_item s 3;
  set_shape inputs [d0; None; None; d3].

Definition format_input_left_padding (inputs : Image) (kwargs : gmap string PyVal)
    : ConvRes (Image * gmap string PyVal) :=
  let shape := static_shape inputs in
  if not_rank4 shape
  then conv_raise (ValueError ("Inputs to conv must have statically known rank 4. Shape: "
                               +:+ shape_str shape))
  else
    let dilation : Z * Z := (1, 1)%Z in
    (filter_size ← kwargs_get kwargs "filter_size";
     _ ← conv_assert (negb (bool_decide (filter_size = VNone)));
     let filter_size := match filter_size with
                        | VInt k => VList [k; k]
                        | _ => filter_size
                        end in
     (* kwargs["dilation"], when there, is read into a name not used below *)
     _ ← assert_odd_sizes filter_size;
     h ← (py_item filter_size 0 ≫= item_half);
     let height_padding := (2 * h * dilation.1)%Z in
     w ← (py_item filter_size 1 ≫= item_half);
     let cond_padding := PCond (2 * w * dilation.2)%Z in
     width_padding ← width_padding shape cond_padding;
     let padding := [(PConst 0, PConst 0); (PConst height_padding, PConst 0);
                     (width_padding, PConst 0); (PConst 0, PConst 0)] in
     inputs ← pad_and_set_shape inputs shape padding;
     mret (inputs, <["padding" := VStr "VALID"]> kwargs)).

Definition conv2d_v2 (inputs : Image) (n_output_channels is_training reuse : PyVal)
    (kwargs : gmap string PyVal) : ConvRes Image :=
  ('(inputs, kwargs) ←
     (if bool_decide (kwargs !! "padding" = Some (VStr "LEFT"))
      then format_input_left_padding inputs kwargs
      else mret (inputs, kwargs));
   dilated_conv2d inputs n_output_channels is_training reuse kwargs).

(** The arguments other than [inputs] are given; the defaults are
    [(3, 3)], ['AVG'], ['SAME'], [(1, 1)], None and ['general_pool'].
    [kwargs] is not used. *)
Definition pool2d (inputs : Image)
    (filter_size pooling_type padding strides outputs_collections name : PyVal)
    (kwargs : gmap string PyVal) : ConvRes Image :=
  let shape := static_shape inputs in
  if not_rank4 shape
  then conv_raise (ValueError "Inputs to conv must have statically known rank 4.")
  else
    ('(inputs, padding) ←
       (if bool_decide (padding = VStr "LEFT")
        then
          _ ← assert_odd_sizes filter_size;
          padding_ ←
            (if bool_decide (length <$> shape = Some 3)
             then
               w ← (py_item filter_size 1 ≫= item_half);
               mret [(PConst 0, PConst 0); (PConst (2 * w)%Z, PConst 0);
                    (PConst 0, PConst 0)]
             else
               h ← (py_item filter_size 0 ≫= item_half);
               let height_padding := (2 * h)%Z in
               w ← (py_item filter_size 1 ≫= item_half);
               let cond_padding := PCond (2 * w)%Z in
               width_padding ← width_padding shape cond_padding;
               mret [(PConst 0, PConst 0); (PConst height_padding, PConst 0);
                    (width_padding, PConst 0); (PConst 0, PConst 0)]);
          inputs ← pad_and_set_shape inputs shape padding_;
          mret (inputs, VStr "VALID")
        else mret (inputs, padding));
     outputs ← tf_nn_pool inputs filter_size pooling_type padding strides;
     _collect_named_outputs outputs_collections name outputs).

End Padding.

(** ** A symbolic engine *)

(** Graph nodes as terms.  Two nodes are the same object when they are the
    same term.  [SScale k a] is the product of [a] by the constant [k];
    [SGate t] is [t] behind a control dependency. *)
Inductive sym : Type :=
| SPlaceholder (name : string) (shape : option (list nat))
| SVariable (name : string)
| SConst (z : Z)
| SIdentity (t : sym)
| SStop (t : sym)
| SAdd (a b : sym)
| SSub (a b : sym)
| SScale (k : Z) (a : sym)
| SGate (t : sym)
| SDefunOut (name : string) (k : nat).

#[global] Instance sym_eq_dec : EqDecision sym.
Proof. solve_decision. Defined.

Definition sym_op_type (t : sym) : string :=
  match t with
  | SPlaceholder _ _ => "Placeholder"
  | SVariable _ => "VariableV2"
  | SConst _ => "Const"
  | SIdentity _ => "Identity"
  | SStop _ => "StopGradient"
  | SAdd _ _ => "Add"
  | SSub _ _ => "Sub"
  | SScale _ _ => "Mul"
  | SGate _ => "Identity"
  | SDefunOut name _ => name
  end.

Definition sym_op_inputs (t : sym) : list sym :=
  match t with
  | SIdentity a | SStop a | SScale _ a | SGate a => [a]
  | SAdd a b | SSub a b => [a; b]
  | _ => []
  end.

Fixpoint sym_name (t : sym) : string :=
  match t with
  | SPlaceholder name _ | SVariable name | SDefunOut name _ => name
  | SConst _ => "Const"
  | SIdentity a => sym_name a +:+ "/read"
  | SStop a => sym_name a +:+ "/StopGradient"
  | SAdd a _ => sym_name a +:+ "/add"
  | SSub a _ => sym_name a +:+ "/sub"
  | SScale _ a => sym_name a +:+ "/mul"
  | SGate a => sym_name a +:+ "/tuple"
  end.

Fixpoint sym_shape (t : sym) : option (list nat) :=
  match t with
  | SPlaceholder _ shape => shape
  | SVariable _ | SConst _ | SDefunOut _ _ => None
  | SIdentity a | SStop a | SScale _ a | SGate a | SAdd a _ | SSub a _ => sym_shape a
  end.

Fixpoint sym_depth (t : sym) : nat :=
  match t with
  | SIdentity a | SStop a | SScale _ a | SGate a => S (sym_depth a)
  | SAdd a b | SSub a b => S (Nat.max (sym_depth a) (sym_depth b))
  | _ => 0
  end.

(** Sum of two gradients, either of which may be absent. *)
Definition sym_plus (a b : option sym) : option sym :=
  match a, b with
  | Some x, Some y => Some (SAdd x y)
  | Some x, None => Some x
  | None, b => b
  end.

(** Reverse-mode derivative of [y] with respect to the node [x], seeded
    with [seed]; None when [y] does not depend on [x]. *)
Fixpoint sym_grad (y seed x : sym) : option sym :=
  if bool_decide (y = x) then Some seed
  else
    match y with
    | SAdd a b => sym_plus (sym_grad a seed x) (sym_grad b seed x)
    | SSub a b => sym_plus (sym_grad a seed x) (sym_grad b (SScale (-1) seed) x)
    | SScale k a => sym_grad a (SScale k seed) x
    | SIdentity a | SGate a => sym_grad a seed x
    | _ => None
    end.

Fixpoint sym_dydx (ys grad_ys : list sym) (x : sym) : option sym :=
  match ys, grad_ys with
  | y :: ys', s :: grad_ys' => sym_plus (sym_grad y s x) (sym_dydx ys' grad_ys' x)
  | _, _ => None
  end.

Definition sym_add_n (l : list sym) : sym :=
  match l with
  | [] => SConst 0
  | x :: r => foldl SAdd x r
  end.

#[global] Instance sym_engine : Engine := {|
  Tensor := sym;
  DType := unit;
  TensorShape := option (list nat);
  op_type := sym_op_type;
  op_inputs := sym_op_inputs;
  tensor_name := sym_name;
  tensor_dtype := λ _, tt;
  get_shape := sym_shape;
  op_depth := sym_depth;
  tf_add := SAdd;
  tf_sub := SSub;
  tf_stop_gradient := SStop;
  tf_identity := SIdentity;
  tf_add_n := sym_add_n;
  with_dependencies := λ _ t, SGate t;
  dydx := sym_dydx;
  default_scope := variable_scope;
  call_defun := λ name _ k, SDefunOut name k
|}.

(** The value of a node, given the values of the placeholders and of the
    variables. *)
Fixpoint sym_val (env : string → Z) (t : sym) : Z :=
  match t with
  | SPlaceholder name _ | SVariable name => env name
  | SConst z => z
  | SIdentity a | SStop a | SGate a => sym_val env a
  | SAdd a b => (sym_val env a + sym_val env b)%Z
  | SSub a b => (sym_val env a - sym_val env b)%Z
  | SScale k a => (k * sym_val env a)%Z
  | SDefunOut _ _ => 0%Z
  end.

(** Sub-functions to run the definitions on. *)

(** [x + w] with one variable [w] of the scope. *)
Definition sym_bias : @SubFn sym_engine :=
  MkSubFn (λ sc x _, SAdd x (SIdentity (SVariable (vs_name sc +:+ "/w"))))
          (λ sc, [SVariable (vs_name sc +:+ "/w")]).

(** [0 * x] *)
Definition sym_zero : @SubFn sym_engine :=
  MkSubFn (λ _ x _, SScale 0 x) (λ _, []).

(** [s + 0 * x] for the first side input [s]; [0 * x] without one. *)
Definition sym_side : @SubFn sym_engine :=
  MkSubFn (λ _ x side,
             match side with
             | Some (s :: _) => SAdd s (SScale 0 x)
             | _ => SScale 0 x
             end)
          (λ _, []).

(** [x + w] with one variable [w] of the scope, and the side inputs
    added to it. *)
Definition sym_bias_side : @SubFn sym_engine :=
  MkSubFn (λ sc x side,
             foldl SAdd (SAdd x (SIdentity (SVariable (vs_name sc +:+ "/w"))))
                   (default [] side))
          (λ sc, [SVariable (vs_name sc +:+ "/w")]).

(** The constant [0], built without the input. *)
Definition sym_const : @SubFn sym_engine :=
  MkSubFn (λ _ _ _, SConst 0) (λ _, []).

(** [g(y, s) = s]: the first side input itself; [0] without one. *)
Definition sym_pick : @SubFn sym_engine :=
  MkSubFn (λ _ _ side,
             match side with
             | Some (s :: _) => s
             | _ => SConst 0
             end)
          (λ _, []).

Definition root_scope : VarScope := MkScope EmptyString false.

Definition empty_state : @PyState sym_engine := MkState (λ _, []) 0 [].

(** * Vocabulary of the statements *)

(** The definitions below are not code of the repository: they name what
    the properties are stated with. *)

(** The message an exception carries. *)
Definition exn_message (e : PyExn) : string :=
  match e with
  | AssertionError => EmptyString
  | AttributeError m | ValueError m | IndexError m | TypeError m => m
  end.

(** The scopes the forward loop goes through. *)
Definition layer_scope_names (block_vs : VarScope) (layers : list nat) : list VarScope :=
  (λ i : nat, variable_scope block_vs ("revlayer_" +:+ pretty i)) <$> layers.

(** The number of groups a pattern closes. *)
Fixpoint closes (items : list re_item) : nat :=
  match items with
  | [] => 0
  | RClose :: r => S (closes r)
  | _ :: r => closes r
  end.

Section Vocabulary.
Context `{E : Engine}.

(** [f] (or [g]) as the caller passes it: a list of the right length, or
    one function. *)
Definition arg_ok (st : PyState) (num_layers : nat) (a : FnArg) : Prop :=
  match a with
  | OneFn _ => True
  | FnList l => length (heap st l) = num_layers
  end.

(** A list passed by the caller is an object that exists. *)
Definition arg_valid (st : PyState) (a : FnArg) : Prop :=
  match a with
  | OneFn _ => True
  | FnList l => l < next_loc st
  end.

#[global] Instance arg_ok_dec st n a : Decision (arg_ok st n a).
Proof. destruct a; simpl; apply _. Defined.

(** The state after [layer_scopes.reverse()], [f.reverse()] and
    [g.reverse()], for the list objects at [lf] and [lg]. *)
Definition reversed (lf lg : nat) (st : PyState) : PyState :=
  let st1 := set_layer_scopes (reverse (layer_scopes st)) st in
  let st2 := set_heap lf (reverse (heap st1 lf)) st1 in
  set_heap lg (reverse (heap st2 lg)) st2.

(** A sub-function whose gradient with respect to its input the engine
    can give. *)
Definition differentiable (f : SubFn) : Prop :=
  ∀ (sc : VarScope) (x : Tensor) (side : list Tensor) (seed : Tensor),
    is_Some (dydx [call_with_side f sc x side] [seed] x).

(** One column of [_acc_grads]: the sum of the entries that are not None,
    None when there is none. *)
Definition acc_column (col : list (option Tensor)) : option Tensor :=
  match omap id col with
  | [] => None
  | g :: gs => Some (tf_add_n (g :: gs))
  end.

(** What the entries of an index list are after the loop over [items]:
    the position of the side input where there is one. *)
Definition idxs_filled (side : list Tensor) (items : list (nat * Tensor))
    (idxs0 idxs : list (option nat)) : Prop :=
  ∀ k t, side !! k = Some t →
    (∀ i, (i, t) ∈ items → idxs !! k = Some (Some i))
    ∧ (t ∉ items.*2 → idxs !! k = idxs0 !! k).

(** The variable behind [t], its layer, and whether it belongs to [f]. *)
Definition var_attr (t : Tensor) : option (Tensor * nat * bool) :=
  match parse_variable t with
  | inr (ref, l, r) => Some (ref, l, bool_decide (r = "f"))
  | inl _ => None
  end.

(** The variables of one function of one layer, with their positions. *)
Definition sel (is_f : bool) (l : nat) (items : list (nat * Tensor))
    : list (nat * Tensor) :=
  omap (λ it : nat * Tensor,
          match var_attr it.2 with
          | Some (ref, l', b) =>
              if bool_decide (l' = l ∧ b = is_f) then Some (it.1, ref) else None
          | None => None
          end) items.

(** [f_vars] (or [g_vars]) after the loop over the variables: for each
    layer, the variables of its [f] (or [g]), in the order given. *)
Definition layer_vars (is_f : bool) (n : nat) (variables : list Tensor)
    : list (list Tensor) :=
  (λ l, (sel is_f l (enumerate variables)).*2) <$> seq 0 n.

(** The arguments of one call of [_rev_layer_backward] (but for the side
    inputs, which are those of the block). *)
Record LayerCtx : Type := MkCtx {
  lc_scope : VarScope;
  lc_f : SubFn;
  lc_g : SubFn;
  lc_f_vars : list Tensor;
  lc_g_vars : list Tensor;
  lc_y1 : Tensor;
  lc_y2 : Tensor;
  lc_grad_y1 : Tensor;
  lc_grad_y2 : Tensor
}.

Section Calls.
Variables fs gs : list Tensor.

(** The reconstruction the call makes. *)
Definition lc_rec (c : LayerCtx) : Reconstructed :=
  reconstruct (variable_scope_reuse (lc_scope c)) (lc_y1 c) (lc_y2 c)
              (lc_f c) (lc_g c) fs gs.

(** [grad_gy1_y2] of the call. *)
Definition lc_d (c : LayerCtx) : option Tensor :=
  dydx [rc_gy1 (lc_rec c)] [lc_grad_y2 c] (rc_y1_stop (lc_rec c)).

(** [grad_x1] and [grad_x2] of the call, when none of the three gradients
    they are sums of is None. *)
Definition lc_grad_xs (c : LayerCtx) : option (Tensor * Tensor) :=
  d ← lc_d c;
  a ← dydx [rc_fx2 (lc_rec c)] [lc_grad_y1 c] (rc_x2_stop (lc_rec c));
  b ← dydx [rc_fx2 (lc_rec c)] [d] (rc_x2_stop (lc_rec c));
  Some (tf_add (lc_grad_y1 c) d, tf_add (tf_add a (lc_grad_y2 c)) b).

(** The gradient of [fx2] with respect to a variable or side input of
    [f], accumulated over its two seeds; that of [gy1] for [g]. *)
Definition raw_f_grad (c : LayerCtx) (v : Tensor) : option Tensor :=
  acc_column [dydx [rc_fx2 (lc_rec c)] [lc_grad_y1 c] v;
              dydx [rc_fx2 (lc_rec c)] (option_list (lc_d c)) v].

Definition raw_g_grad (c : LayerCtx) (v : Tensor) : option Tensor :=
  dydx [rc_gy1 (lc_rec c)] [lc_grad_y2 c] v.

(** All that the call passes to [tf.tuple]. *)
Definition lc_tuple (c : LayerCtx) : list (option Tensor) :=
  match lc_grad_xs c with
  | Some (gx1, gx2) =>
      [Some (rc_x1 (lc_rec c)); Some (rc_x2 (lc_rec c)); Some gx1; Some gx2]
      ++ (raw_f_grad c <$> lc_f_vars c) ++ (raw_g_grad c <$> lc_g_vars c)
      ++ (raw_f_grad c <$> rc_f_side (lc_rec c))
      ++ (raw_g_grad c <$> rc_g_side (lc_rec c))
  | None => []
  end.

(** A tensor of the call, behind the gate of [tf.tuple]. *)
Definition lc_gate (c : LayerCtx) (t : Tensor) : Tensor :=
  with_dependencies (omap id (lc_tuple c)) t.

(** The gradients the call returns for a variable or side input of [f],
    and of [g]. *)
Definition f_grad (c : LayerCtx) (v : Tensor) : option Tensor :=
  lc_gate c <$> raw_f_grad c v.

Definition g_grad (c : LayerCtx) (v : Tensor) : option Tensor :=
  lc_gate c <$> raw_g_grad c v.

(** The reconstructed inputs and their gradients, as the call returns
    them: the [ys] and [grad_ys] of the next call. *)
Definition lc_out (c : LayerCtx) : option (Tensor * Tensor * Tensor * Tensor) :=
  '(gx1, gx2) ← lc_grad_xs c;
  Some (lc_gate c (rc_x1 (lc_rec c)), lc_gate c (rc_x2 (lc_rec c)),
        lc_gate c gx1, lc_gate c gx2).

(** The call itself. *)
Definition layer_call (c : LayerCtx) : Res LayerGrads :=
  _rev_layer_backward (variable_scope_reuse (lc_scope c))
    [lc_y1 c; lc_y2 c] [lc_grad_y1 c; lc_grad_y2 c] (lc_f c) (lc_g c)
    (lc_f_vars c) fs (lc_g_vars c) gs.

(** The calls the loop over the layers makes, in the order it makes them,
    and the [ys] and [grad_ys] it ends with; None when a call raises or an
    index is out of range. *)
Fixpoint backward_run (layers : list nat) (scopes : list VarScope)
    (f g : list SubFn) (f_vars g_vars : list (list Tensor))
    (y1 y2 gy1 gy2 : Tensor)
    : option (list LayerCtx * (Tensor * Tensor * Tensor * Tensor)) :=
  match layers with
  | [] => Some ([], (y1, y2, gy1, gy2))
  | i :: rest =>
      sc ← scopes !! i;
      fi ← f !! i;
      gi ← g !! i;
      fv ← f_vars !! i;
      gv ← g_vars !! i;
      let c := MkCtx sc fi gi fv gv y1 y2 gy1 gy2 in
      '(x1, x2, gx1, gx2) ← lc_out c;
      '(cs, fin) ← backward_run rest scopes f g f_vars g_vars x1 x2 gx1 gx2;
      Some (c :: cs, fin)
  end.

(** The gradient of the variable [t], given the calls [cs] made from the
    last layer to the first: that of the call for its layer. *)
Definition var_grad (cs : list LayerCtx) (n : nat) (t : Tensor) : option Tensor :=
  match var_attr t with
  | Some (ref, l, is_f) =>
      match cs !! (n - S l) with
      | Some c => if is_f then f_grad c ref else g_grad c ref
      | None => None
      end
  | None => None
  end.

(** The gradient of the side input [t]: the column of what the calls
    return for it, accumulated. *)
Definition side_grad (cs : list LayerCtx) (t : Tensor) : option Tensor :=
  if bool_decide (t ∈ fs)
  then acc_column ((λ c, f_grad c (tf_stop_gradient t)) <$> cs)
  else acc_column ((λ c, g_grad c (tf_stop_gradient t)) <$> cs).

(** What one call contributes to the gradient of the side input [t]. *)
Definition contribution (c : LayerCtx) (t : Tensor) : option Tensor :=
  if bool_decide (t ∈ fs) then f_grad c (tf_stop_gradient t)
  else g_grad c (tf_stop_gradient t).

End Calls.
End Vocabulary.

(** ** Values *)

(** Exact arithmetic on the values of tensors: what [+] and [-] are asked
    to satisfy. *)
Class Exact (V : Type) : Type := {
  vzero : V;
  vadd : V → V → V;
  vsub : V → V → V;
  vsub_vadd : ∀ a b, vsub (vadd a b) b = a;
  vadd_zero_r : ∀ a, vadd a vzero = a;
  vadd_zero_l : ∀ a, vadd vzero a = a
}.

Definition vsum {V : Type} `{Exact V} (l : list V) : V := foldr vadd vzero l.

(** The value a tensor takes when the graph is run, for the operations the
    code builds itself. *)
Class Valuation `{E : Engine} (V : Type) `{Exact V} : Type := {
  val : Tensor → V;
  val_add : ∀ a b, val (tf_add a b) = vadd (val a) (val b);
  val_sub : ∀ a b, val (tf_sub a b) = vsub (val a) (val b);
  val_stop_gradient : ∀ a, val (tf_stop_gradient a) = val a;
  val_with_dependencies : ∀ deps a, val (with_dependencies deps a) = val a;
  val_add_n : ∀ l, val (tf_add_n l) = vsum (val <$> l)
}.

Section ValueVocabulary.
Context `{E : Engine} {V : Type} `{!Exact V} `{!Valuation V}.

(** The value of a gradient that may be None: None counts for zero. *)
Definition oval (o : option Tensor) : V :=
  match o with
  | Some t => val t
  | None => vzero
  end.

(** A sub-function whose value depends on the values of its arguments and
    on the name of its scope (which names its parameters) only. *)
Definition respects_values (f : SubFn) : Prop :=
  ∀ (sc sc' : VarScope) (x x' : Tensor) (side side' : list Tensor),
    vs_name sc = vs_name sc' → val x = val x' → val <$> side = val <$> side' →
    val (call_with_side f sc x side) = val (call_with_side f sc' x' side').

(** A sub-function that is zero, and whose gradient with respect to its
    input the engine gives as a tensor that is zero. *)
Definition zero_fn (f : SubFn) : Prop :=
  ∀ (sc : VarScope) (x : Tensor) (side : list Tensor),
    val (call_with_side f sc x side) = vzero
    ∧ ∀ seed, ∃ d, dydx [call_with_side f sc x side] [seed] x = Some d
                   ∧ val d = vzero.

(** A [g] that returns its side input, as the backward pass calls it (on
    tensors behind [tf.stop_gradient]): its value is that of the side
    input, and the engine gives its gradient with respect to the side
    input as a tensor with the value of the seed. *)
Definition selects_side (g : SubFn) : Prop :=
  ∀ (sc : VarScope) (y s : Tensor),
    let y_stop := tf_stop_gradient y in
    let s_stop := tf_stop_gradient s in
    val (sf_call g sc y_stop (Some [s_stop])) = val s
    ∧ ∀ seed, ∃ d, dydx [sf_call g sc y_stop (Some [s_stop])] [seed] s_stop = Some d
                   ∧ val d = val seed.

End ValueVocabulary.

(** ** The symbolic engine: values and runs *)

#[global] Instance Z_exact : Exact Z := {|
  vzero := 0%Z;
  vadd := Z.add;
  vsub := Z.sub;
  vsub_vadd := Z.add_simpl_r;
  vadd_zero_r := Z.add_0_r;
  vadd_zero_l := Z.add_0_l
|}.

(** The values of the nodes under an assignment to the placeholders and
    the variables. *)
Definition sym_valuation (env : string → Z) : @Valuation sym_engine Z Z_exact.
Proof.
  refine {| val := sym_val env |}; try reflexivity.
  intros [|x r]; [reflexivity|]. cbn [tf_add_n sym_engine sym_add_n].
  rewrite fmap_cons. unfold vsum. cbn [foldr vadd Z_exact]. revert x.
  induction r as [|a r IH]; intros x.
  - simpl. lia.
  - cbn [foldl]. rewrite IH, fmap_cons. simpl. lia.
Defined.

(** An assignment of values: the length of the name. *)
Definition sym_env : string → Z := λ name, Z.of_nat (String.length name).

Definition sym_x : sym := SPlaceholder "x" None.
Definition sym_dy : sym := SPlaceholder "dy" None.
Definition sym_x1 : sym := SPlaceholder "x1" (Some [2; 3]).
Definition sym_x2 : sym := SPlaceholder "x2" (Some [2; 3]).
Definition sym_y1 : sym := SPlaceholder "y1" (Some [2; 3]).
Definition sym_y2 : sym := SPlaceholder "y2" (Some [2; 3]).
Definition sym_gy1 : sym := SPlaceholder "gy1" (Some [2; 3]).
Definition sym_gy2 : sym := SPlaceholder "gy2" (Some [2; 3]).
Definition sym_a : sym := SPlaceholder "a" (Some [2; 3]).
Definition sym_b : sym := SPlaceholder "b" (Some [2; 3]).
Definition sym_s : sym := SPlaceholder "s" (Some [2; 3]).

(** A function of one input that creates one variable in its scope:
    [x + w]. *)
Definition sym_layer : @Fn sym_engine := λ vs inputs st,
  match inputs with
  | [x] =>
      (st, inr (MkFnOut (OTuple [sf_call sym_bias vs x None])
                        (sf_variables sym_bias vs) (sf_variables sym_bias vs)))
  | _ => (st, inl (TypeError "fn() takes exactly 1 argument"))
  end.

(** A forward function that returns the empty tuple. *)
Definition sym_no_outputs : @Fn sym_engine :=
  λ _ _ st, (st, inr (MkFnOut (OTuple []) [] [])).

(** A forward function that creates no variable: twice each input. *)
Definition sym_double : @Fn sym_engine :=
  λ _ inputs st, (st, inr (MkFnOut (OList (SScale 2 <$> inputs)) [] [])).

(** A function of one input that returns one tensor, not in a tuple:
    [x + w]. *)
Definition sym_single : @Fn sym_engine := λ vs inputs st,
  match inputs with
  | [x] =>
      (st, inr (MkFnOut (OTensor (sf_call sym_bias vs x None))
                        (sf_variables sym_bias vs) (sf_variables sym_bias vs)))
  | _ => (st, inl (TypeError "fn() takes exactly 1 argument"))
  end.

(** A state with the list [f] at location 0 and the list [g] at
    location 1. *)
Definition sym_state (f g : list (@SubFn sym_engine)) (scopes : list VarScope)
    : @PyState sym_engine :=
  MkState (<[0 := f]> (<[1 := g]> (λ _, []))) 2 scopes.

Definition sym_scopes (n : nat) : list VarScope :=
  (λ i : nat, MkScope ("revblock/revlayer_" +:+ pretty i) false) <$> seq 0 n.

(** The variables of a block of two layers of [sym_bias_side], as tensors
    that read them, in an order that is not that of the layers. *)
Definition sym_block_vars : list sym :=
  [SIdentity (SVariable "revblock/revlayer_1/g/w");
   SIdentity (SVariable "revblock/revlayer_0/f/w");
   SIdentity (SVariable "revblock/revlayer_0/g/w");
   SIdentity (SVariable "revblock/revlayer_1/f/w")].

Definition sym_block_state : @PyState sym_engine :=
  sym_state [sym_bias_side; sym_bias_side] [sym_bias_side; sym_bias_side] (sym_scopes 2).

(** ** The side inputs of a call *)

Section GradientVocabulary.
Context `{E : Engine}.

(** What the side inputs passed in must be for the checks of lines 746
    and 754 to pass. *)
Definition side_inputs_match (fs gs inputs : list Tensor) : Prop :=
  length (drop 2 inputs) = length fs + length gs
  ∧ Forall (λ t, t ∈ fs ∨ t ∈ gs) (drop 2 inputs).

End GradientVocabulary.

(** ** Filters and paddings *)

(** The two sizes of a filter given as a list or a tuple, and of one given
    as an int as well. *)
Definition seq_sizes (v : PyVal) : option (Z * Z) :=
  match v with
  | VList (k0 :: k1 :: _) | VTuple (k0 :: k1 :: _) => Some (k0, k1)
  | _ => None
  end.

Definition filter_sizes (v : PyVal) : option (Z * Z) :=
  match v with
  | VInt k => Some (k, k)
  | _ => seq_sizes v
  end.

(** Padding before the first row and the first column only: one less
    than the filter, and in width nothing when the width is 1, which is
    left to run time unless the static width is 1. *)
Definition left_padding (dims : list (option nat)) (k0 k1 : Z)
    : list (PadAmount * PadAmount) :=
  [(PConst 0, PConst 0);
   (PConst (k0 - 1), PConst 0);
   (if bool_decide (dims !! 2 = Some (Some 1)) then PConst 0 else PCond (k1 - 1), PConst 0);
   (PConst 0, PConst 0)].

(** ** A symbolic instance of [Layers] *)

(** An image is the input, known by its static shape, or what an
    operation made of an image. *)
Inductive img : Type :=
| IInput (shape : StaticShape)
| IPad (i : img) (paddings : list (PadAmount * PadAmount))
| ISetShape (i : img) (dims : list (option nat))
| IConv (i : img) (n_output_channels : PyVal) (kwargs : gmap string PyVal)
| IPool (i : img) (filter_size pooling_type padding strides : PyVal).

Fixpoint img_shape (i : img) : StaticShape :=
  match i with
  | IInput shape => shape
  | IPad i _ => (λ dims : list (option nat), (λ _, None) <$> dims) <$> img_shape i
  | ISetShape _ dims => Some dims
  | IConv i _ _ | IPool i _ _ _ _ => img_shape i
  end.

Definition img_shape_str (s : StaticShape) : string :=
  match s with
  | None => "<unknown>"
  | Some dims =>
      "(" +:+ String.concat ", " ((λ d : option nat, from_option pretty "?" d) <$> dims)
      +:+ ")"
  end.

#[global] Instance img_layers : Layers := {|
  Image := img;
  static_shape := img_shape;
  shape_str := img_shape_str;
  tf_pad := λ i paddings, inr (IPad i paddings);
  set_shape := λ i dims, inr (ISetShape i dims);
  dilated_conv2d := λ i n _ _ kwargs, inr (IConv i n kwargs);
  tf_nn_pool := λ i filter_size pooling_type padding strides,
    inr (IPool i filter_size pooling_type padding strides);
  _collect_named_outputs := λ _ _ outputs, inr outputs
|}.

(** A batch of images of 28 by 28 with 3 channels. *)
Definition img_x : img := IInput (Some [None; Some 28; Some 28; Some 3]).

(** * Properties *)

Ltac py_unfold :=
  unfold mbind, mret, Py_bind, Py_ret, Res_bind, Res_ret, lift, get_state,
         modify, ok, raise in *.

(** ** The pattern on names *)

Example LAYER_RE_match_f :
  LAYER_RE_match "fn_with_custom_grad/revblock/revlayer_12/f/dense/kernel"
  = Some ("12", "f").
Proof. vm_compute. reflexivity. Qed.

Example LAYER_RE_match_last :
  LAYER_RE_match "revlayer_0/f/revlayer_3/g/w" = Some ("3", "g").
Proof. vm_compute. reflexivity. Qed.

Example LAYER_RE_match_empty_index :
  LAYER_RE_match "revlayer_/g/w" = Some (EmptyString, "g").
Proof. vm_compute. reflexivity. Qed.

Example LAYER_RE_match_none : LAYER_RE_match "dense/kernel:0" = None.
Proof. vm_compute. reflexivity. Qed.

Section Wrapper.

Context `{E : Engine}.

Lemma dtypes_tensors (outs : list Tensor) :
  dtypes (Some <$> outs) = inr (tensor_dtype <$> outs).
Proof.
  induction outs as [|t outs IH]; [reflexivity|].
  rewrite fmap_cons. cbn [dtypes]. rewrite IH. reflexivity.
Qed.

Lemma dtypes_none (outputs : list (option Tensor)) :
  None ∈ outputs →
  dtypes outputs = inl (AttributeError "'NoneType' object has no attribute 'dtype'").
Proof.
  induction outputs as [|[t|] outputs IH]; intros Hin.
  - inversion Hin.
  - cbn [dtypes]. rewrite IH; [reflexivity|].
    apply elem_of_cons in Hin as [Hin|Hin]; [discriminate|exact Hin].
  - reflexivity.
Qed.

Lemma omap_id_Some {A : Type} (l : list A) : omap id (Some <$> l) = l.
Proof.
  induction l as [|x l IH]; [reflexivity|].
  rewrite fmap_cons. cbn [omap list_omap id]. cbn [omap] in IH. by rewrite IH.
Qed.

(** C5, as the code has it.  With [grad_fn = None] the wrapper returns
    what the forward function returns when it is called under the
    variable scope the wrapper opens: the same outputs, the same state,
    the same exception when it raises, and no Defun is registered,
    whatever the random draw and [use_global_vars].  For a function whose
    call does not depend on that scope, this is what calling it directly
    returns. *)
Theorem fn_with_custom_grad_none (cur : VarScope) (rand : nat) (fn : Fn)
    (inputs : list Tensor) (use_global_vars : bool) (st : PyState) :
  let called (sc : VarScope) : PyState * Res (PyOut * option Defun) :=
    match fn sc inputs st with
    | (st', inl e) => (st', inl e)
    | (st', inr r) => (st', inr (fo_outputs r, None))
    end in
  _fn_with_custom_grad cur rand fn inputs None use_global_vars st
  = called (default_scope cur "fn_with_custom_grad")
  ∧ (fn (default_scope cur "fn_with_custom_grad") inputs st = fn cur inputs st →
     _fn_with_custom_grad cur rand fn inputs None use_global_vars st = called cur).
Proof.
  intros called.
  assert (H : _fn_with_custom_grad cur rand fn inputs None use_global_vars st
              = called (default_scope cur "fn_with_custom_grad")).
  { unfold _fn_with_custom_grad, called. py_unfold.
    destruct (fn _ inputs st) as [st' [e|r]]; reflexivity. }
  split; [exact H|]. intros Heq. rewrite H. unfold called. by rewrite Heq.
Qed.

(** The wrapper on a forward function that returns tensors. *)
Lemma wrapper_returns (cur : VarScope) (rand : nat) (fn : Fn)
    (inputs : list Tensor) (grad_fn : GradFn) (use_global_vars : bool)
    (st st' : PyState) (r : FnOut) (outs : list Tensor) :
  fn (default_scope cur "fn_with_custom_grad") inputs st = (st', inr r) →
  outputs_list (fo_outputs r) = Some <$> outs →
  let train_vars := if use_global_vars then fo_global r else fo_trainable r in
  let name := "identity_custom_grad" +:+ pretty rand in
  _fn_with_custom_grad cur rand fn inputs (Some grad_fn) use_global_vars st
  = (st', inr (defun_call name (inputs ++ train_vars ++ outs) (length outs),
               Some (MkDefun
                       ((tensor_dtype <$> inputs) ++ (tensor_dtype <$> train_vars)
                        ++ (tensor_dtype <$> outs))
                       name
                       (defun_custom_grad_fn grad_fn (length inputs)
                          (length train_vars) (length outs))
                       (get_shape <$> outs)
                       (identity (length inputs) (length train_vars))))).
Proof.
  intros Hfn Houts train_vars name.
  unfold _fn_with_custom_grad. py_unfold. rewrite Hfn. simpl.
  rewrite Houts, dtypes_tensors, omap_id_Some. reflexivity.
Qed.

(** C9, as the code has it.  With a gradient function, the wrapper checks
    neither the number of outputs nor their shapes: whenever the forward
    function returns tensors (one, or a list or tuple of any length, the
    empty one included) the wrapper returns the call of the identity Defun
    on them, and the shape function registered is [get_shape] of each
    output, known or not.  It raises when an output is not a tensor, with
    the AttributeError of the missing [dtype]. *)
Theorem fn_with_custom_grad_unchecked (cur : VarScope) (rand : nat) (fn : Fn)
    (inputs : list Tensor) (grad_fn : GradFn) (use_global_vars : bool)
    (st st' : PyState) (r : FnOut) :
  fn (default_scope cur "fn_with_custom_grad") inputs st = (st', inr r) →
  let train_vars := if use_global_vars then fo_global r else fo_trainable r in
  let name := "identity_custom_grad" +:+ pretty rand in
  (∀ outs : list Tensor,
     outputs_list (fo_outputs r) = Some <$> outs →
     ∃ d : Defun,
       _fn_with_custom_grad cur rand fn inputs (Some grad_fn) use_global_vars st
       = (st', inr (defun_call name (inputs ++ train_vars ++ outs) (length outs),
                    Some d))
       ∧ df_shape_func d = get_shape <$> outs
       ∧ df_func_name d = name
       ∧ df_body d = identity (length inputs) (length train_vars))
  ∧ (None ∈ outputs_list (fo_outputs r) →
     _fn_with_custom_grad cur rand fn inputs (Some grad_fn) use_global_vars st
     = (st', inl (AttributeError "'NoneType' object has no attribute 'dtype'"))).
Proof.
  intros Hfn train_vars name. split.
  - intros outs Houts. eexists. split.
    + apply (wrapper_returns _ _ _ _ _ _ _ _ _ _ Hfn Houts).
    + simpl. auto.
  - intros Hnone.
    unfold _fn_with_custom_grad. py_unfold. rewrite Hfn. simpl.
    rewrite (dtypes_none _ Hnone). reflexivity.
Qed.

End Wrapper.

Section Block.

Context `{E : Engine}.

Lemma rev_layer_forward_ok (cur : VarScope) (x1 x2 : Tensor) (f g : SubFn)
    (fs gs : list Tensor) (gate : bool) :
  ∃ y1 y2, _rev_layer_forward cur [x1; x2] f g fs gs gate = inr [y1; y2].
Proof.
  unfold _rev_layer_forward. simpl. destruct gate; simpl; eauto.
Qed.

Lemma rev_block_forward_loop_ok (block_vs : VarScope) (layers : list nat)
    (f g : list SubFn) (fs gs : list Tensor) (record gate : bool) :
  ∀ (x1 x2 : Tensor) (st : PyState),
    Forall (λ i, i < length f ∧ i < length g) layers →
    ∃ y1 y2,
      rev_block_forward_loop block_vs layers [x1; x2] f g fs gs record gate st
      = (MkState (heap st) (next_loc st)
           (layer_scopes st ++ if record then layer_scope_names block_vs layers else []),
         inr [y1; y2]).
Proof.
  induction layers as [|i layers IH]; intros x1 x2 st Hall.
  - simpl. exists x1, x2. destruct st, record; simpl; by rewrite app_nil_r.
  - apply Forall_cons_1 in Hall as [[Hf Hg] Hall].
    apply lookup_lt_is_Some_2 in Hf as [fi Hfi].
    apply lookup_lt_is_Some_2 in Hg as [gi Hgi].
    destruct (rev_layer_forward_ok
                (variable_scope block_vs ("revlayer_" +:+ pretty i))
                x1 x2 fi gi fs gs gate) as (y1 & y2 & Hy).
    cbn [rev_block_forward_loop]. py_unfold. unfold py_index.
    rewrite Hfi, Hgi. py_unfold.
    destruct record; simpl.
    + rewrite Hy.
      destruct (IH y1 y2 (set_layer_scopes
                  (layer_scopes st ++
                   [variable_scope block_vs ("revlayer_" +:+ pretty i)]) st) Hall)
        as (z1 & z2 & Hz).
      exists z1, z2. rewrite Hz. simpl. by rewrite <- app_assoc.
    + rewrite Hy.
      destruct (IH y1 y2 st Hall) as (z1 & z2 & Hz).
      exists z1, z2. rewrite Hz. reflexivity.
Qed.

Lemma rev_block_forward_ok (cur : VarScope) (x1 x2 : Tensor) (f g : list SubFn)
    (num_layers : nat) (fs gs : list Tensor) (record gate : bool) (st : PyState) :
  length f = num_layers → length g = num_layers →
  ∃ y1 y2,
    _rev_block_forward cur x1 x2 f g num_layers fs gs record gate st
    = (MkState (heap st) (next_loc st)
         (layer_scopes st ++
          if record
          then layer_scope_names (default_scope cur "revblock") (seq 0 num_layers)
          else []),
       inr (y1, y2)).
Proof.
  intros Hf Hg. unfold _rev_block_forward. py_unfold.
  destruct (rev_block_forward_loop_ok (default_scope cur "revblock")
              (seq 0 num_layers) f g fs gs record gate x1 x2 st) as (y1 & y2 & Hy).
  { apply Forall_lookup. intros k i Hi. apply lookup_seq in Hi. lia. }
  exists y1, y2. rewrite Hy. reflexivity.
Qed.

(** The wrapped forward function of the block, once [f] and [g] are list
    objects of the right length. *)
Lemma rev_block_wrapped (cur : VarScope) (rand : nat) (x1 x2 : Tensor)
    (num_layers : nat) (fs gs : list Tensor) (lf lg : nat) (is_training : bool)
    (grad_fn : option GradFn) (st : PyState) :
  length (heap st lf) = num_layers → length (heap st lg) = num_layers →
  let vs := default_scope cur "fn_with_custom_grad" in
  let vars := block_variables vs (heap st lf) (heap st lg) num_layers in
  let inputs := x1 :: x2 :: fs ++ gs in
  let name := "identity_custom_grad" +:+ pretty rand in
  let st' := MkState (heap st) (next_loc st)
               (layer_scopes st ++
                layer_scope_names (default_scope vs "revblock") (seq 0 num_layers)) in
  ∃ y1 y2,
    _fn_with_custom_grad cur rand (forward num_layers fs gs lf lg is_training)
      inputs grad_fn false st
    = (st', inr
         match grad_fn with
         | None => (OTuple [y1; y2], None)
         | Some gf =>
             (defun_call name (inputs ++ vars ++ [y1; y2]) 2,
              Some (MkDefun
                      ((tensor_dtype <$> inputs) ++ (tensor_dtype <$> vars)
                       ++ (tensor_dtype <$> [y1; y2]))
                      name
                      (defun_custom_grad_fn gf (length inputs) (length vars) 2)
                      (get_shape <$> [y1; y2])
                      (identity (length inputs) (length vars))))
         end).
Proof.
  intros Hf Hg vs vars inputs name st'.
  destruct (rev_block_forward_ok vs x1 x2 (heap st lf) (heap st lg) num_layers
              (take (length fs) (fs ++ gs)) (drop (length fs) (fs ++ gs))
              true is_training st Hf Hg) as (y1 & y2 & Hy).
  exists y1, y2.
  assert (Hfwd : forward num_layers fs gs lf lg is_training vs inputs st
                 = (st', inr (MkFnOut (OTuple [y1; y2]) vars vars))).
  { unfold forward, inputs. py_unfold. rewrite Hy. reflexivity. }
  destruct grad_fn as [gf|].
  - by rewrite (wrapper_returns cur rand _ inputs gf false st st' _ [y1; y2] Hfwd).
  - unfold _fn_with_custom_grad. py_unfold. fold vs. rewrite Hfwd. reflexivity.
Qed.

Lemma as_layer_list_bad (st : PyState) (num_layers : nat) (a : FnArg) :
  ¬ arg_ok st num_layers a →
  as_layer_list a num_layers st = (st, inl AssertionError).
Proof.
  destruct a as [f0|l]; simpl; [tauto|]. intros Hne.
  py_unfold. unfold py_assert. by rewrite bool_decide_false.
Qed.

Lemma as_layer_list_good (st : PyState) (num_layers : nat) (a : FnArg) :
  arg_ok st num_layers a →
  ∃ st1 l,
    as_layer_list a num_layers st = (st1, inr l)
    ∧ length (heap st1 l) = num_layers
    ∧ layer_scopes st1 = layer_scopes st
    ∧ (next_loc st ≤ next_loc st1)%nat
    ∧ (∀ l', l' < next_loc st → heap st1 l' = heap st l')
    ∧ match a with
      | OneFn f0 => l = next_loc st ∧ heap st1 l = replicate num_layers f0
                    ∧ next_loc st1 = S (next_loc st)
      | FnList l0 => l = l0 ∧ st1 = st
      end.
Proof.
  destruct a as [f0|l]; simpl; intros Hok.
  - eexists _, _. split; [reflexivity|]. simpl.
    rewrite fn_lookup_insert, length_replicate.
    repeat split; try done; try lia.
    intros l' Hl'. rewrite fn_lookup_insert_ne; [done|lia].
  - exists st, l. py_unfold. unfold py_assert. rewrite bool_decide_true by done.
    repeat split; try done.
Qed.

(** C8. A list [f] or [g] whose length is not [num_layers] makes
    [rev_block] raise, on the [assert] of lines 730 and 734; with lists of
    that length or single functions it returns; a single function is put
    [num_layers] times in a new list. *)
Theorem rev_block_checks_lengths (cur : VarScope) (rand : nat) (x1 x2 : Tensor)
    (f g : FnArg) (num_layers : nat) (f_side_input g_side_input : option (list Tensor))
    (is_training : bool) (st : PyState) :
  arg_valid st f → arg_valid st g →
  let r := rev_block cur rand x1 x2 f g num_layers f_side_input g_side_input
             is_training st in
  (¬ arg_ok st num_layers f ∨ ¬ arg_ok st num_layers g → snd r = inl AssertionError)
  ∧ (arg_ok st num_layers f → arg_ok st num_layers g → ∃ res, snd r = inr res)
  ∧ (∀ f0, f = OneFn f0 → heap (fst r) (next_loc st) = replicate num_layers f0)
  ∧ (∀ f0 g0, f = OneFn f0 → g = OneFn g0 →
       heap (fst r) (S (next_loc st)) = replicate num_layers g0).
Proof.
  intros Hvf Hvg r. subst r. unfold rev_block.
  destruct (decide (arg_ok st num_layers f)) as [Hf|Hf].
  - destruct (as_layer_list_good st num_layers f Hf)
      as (st1 & lf & Ef & Hlf & Hsc1 & Hnx1 & Hfr1 & Hshape1).
    assert (Hvg1 : arg_valid st1 g).
    { destruct g; simpl in *; [done|lia]. }
    destruct (decide (arg_ok st num_layers g)) as [Hg|Hg].
    + assert (Hg1 : arg_ok st1 num_layers g).
      { destruct g as [|l]; simpl in *; [done|]. by rewrite Hfr1. }
      destruct (as_layer_list_good st1 num_layers g Hg1)
        as (st2 & lg & Eg & Hlg & Hsc2 & Hnx2 & Hfr2 & Hshape2).
      assert (Hlf2 : length (heap st2 lf) = num_layers).
      { destruct g as [g0|l]; simpl in Hshape2.
        - destruct Hshape2 as (-> & _ & _). 
          destruct f as [f0|l0]; simpl in Hshape1.
          + destruct Hshape1 as (-> & _ & Hn). rewrite Hfr2; [done|lia].
          + destruct Hshape1 as (-> & ->). simpl in Hvf. rewrite Hfr2; [done|lia].
        - by destruct Hshape2 as (-> & ->). }
      set (st3 := set_layer_scopes [] st2).
      destruct (rev_block_wrapped cur rand x1 x2 num_layers
                  (default [] f_side_input) (default [] g_side_input) lf lg
                  is_training
                  (if is_training
                   then Some (λ _ : VarScope,
                                rev_block_custom_grad_fn num_layers
                                  (default [] f_side_input)
                                  (default [] g_side_input) lf lg)
                   else None) st3 Hlf2 Hlg) as (y1 & y2 & Hw).
      py_unfold. rewrite Ef, Eg. fold st3. rewrite Hw. simpl.
      split; [tauto|]. split; [eauto|]. split.
      * intros f0 ->. simpl in Hshape1. destruct Hshape1 as (-> & Hrep & Hn).
        rewrite <- Hrep. destruct g as [g0|l]; simpl in Hshape2.
        -- destruct Hshape2 as (_ & _ & _). apply Hfr2. lia.
        -- by destruct Hshape2 as (_ & ->).
      * intros f0 g0 -> ->. simpl in Hshape1, Hshape2.
        destruct Hshape1 as (_ & _ & Hn). destruct Hshape2 as (-> & Hrep & _).
        by rewrite <- Hn.
    + assert (Hg1 : ¬ arg_ok st1 num_layers g).
      { destruct g as [|l]; simpl in *; [done|]. by rewrite Hfr1. }
      py_unfold. rewrite Ef, (as_layer_list_bad st1 num_layers g Hg1). simpl.
      split; [done|]. split; [tauto|]. split.
      * intros f0 ->. simpl in Hshape1. by destruct Hshape1 as (-> & Hrep & _).
      * intros f0 g0 -> ->. simpl in Hg. tauto.
  - py_unfold. rewrite (as_layer_list_bad st num_layers f Hf). simpl.
    split; [done|]. split; [tauto|]. split.
    + intros f0 ->. simpl in Hf. tauto.
    + intros f0 g0 -> ->. simpl in Hf. tauto.
Qed.

End Block.

(** * What the gradient function computes, layer by layer *)

Section Trace.

Context `{E : Engine}.

Lemma min_length_const {A B : Type} (φ : B → list A) (Ls : list B) (n : nat) :
  Ls ≠ [] → (∀ L, L ∈ Ls → length (φ L) = n) → min_length (φ <$> Ls) = n.
Proof.
  destruct Ls as [|L Ls]; [done|]. intros _ Hlen. simpl.
  rewrite (Hlen L) by left.
  assert (Hrest : ∀ L', L' ∈ Ls → length (φ L') = n).
  { intros L' HL'. apply Hlen. by right. }
  clear Hlen. induction Ls as [|L' Ls IH]; simpl; [done|].
  rewrite IH. - rewrite Hrest by left. lia. - intros. apply Hrest. by right.
Qed.

Lemma acc_grads_map {B X : Type} (φ : B → X → option Tensor) (Ls : list B) (xs : list X) :
  Ls ≠ [] →
  _acc_grads ((λ L, φ L <$> xs) <$> Ls)
  = (λ x, acc_column ((λ L, φ L x) <$> Ls)) <$> xs.
Proof.
  intros Hne. unfold _acc_grads, zip_star.
  rewrite (min_length_const (λ L, φ L <$> xs) Ls (length xs) Hne)
    by (intros; by rewrite length_fmap).
  apply list_eq. intros j.
  rewrite !list_lookup_fmap.
  destruct (xs !! j) as [x|] eqn:Hx.
  - rewrite (lookup_seq_lt) by (by apply lookup_lt_Some in Hx). simpl.
    f_equal. unfold acc_column. 
    assert (Hcol : omap (λ l : list (option Tensor), l !! j) ((λ L, φ L <$> xs) <$> Ls)
                   = (λ L, φ L x) <$> Ls).
    { clear Hne. induction Ls as [|L Ls IH]; [done|].
      rewrite !fmap_cons. cbn [omap list_omap].
      rewrite list_lookup_fmap, Hx. simpl. f_equal. exact IH. }
    rewrite Hcol. by destruct (omap id _).
  - rewrite lookup_seq_ge by (by apply lookup_ge_None in Hx). done.
Qed.

Section Layer.

Variables fs gs : list Tensor.

Lemma slice_mid {A : Type} (X Y Z : list A) n m :
  n = length X → m = (length X + length Y)%nat → drop n (take m (X ++ Y ++ Z)) = Y.
Proof.
  intros -> ->. rewrite app_assoc, take_app_length'.
  - by rewrite drop_app_length.
  - by rewrite length_app.
Qed.

Lemma tuple_slices {A : Type} (h : list A) (X Y Z W : list A) :
  length h = 4 →
  let outs := h ++ X ++ Y ++ Z ++ W in
  take 4 outs = h
  ∧ drop 4 (take (4 + length X) outs) = X
  ∧ drop (4 + length X) (take (4 + length X + length Y) outs) = Y
  ∧ drop (4 + length X + length Y)
         (take (4 + length X + length Y + length Z) outs) = Z
  ∧ drop (4 + length X + length Y + length Z) outs = W.
Proof.
  intros Hh outs. subst outs. repeat split.
  - rewrite take_app_length'; done.
  - apply (slice_mid h X (Y ++ Z ++ W)); lia.
  - rewrite (app_assoc h X). apply (slice_mid (h ++ X) Y (Z ++ W)); rewrite length_app; lia.
  - rewrite (app_assoc h X), (app_assoc (h ++ X) Y).
    apply (slice_mid ((h ++ X) ++ Y) Z W); rewrite !length_app; lia.
  - rewrite (app_assoc h X), (app_assoc (h ++ X) Y), (app_assoc ((h ++ X) ++ Y) Z).
    apply drop_app_length'. rewrite !length_app. lia.
Qed.

Lemma grad0 (ys seeds : list Tensor) (x : Tensor) :
  mjoin (tf_gradients ys [x] seeds !! 0) = dydx ys seeds x.
Proof. reflexivity. Qed.

Lemma layer_call_spec (c : LayerCtx) :
  layer_call fs gs c =
  match lc_out fs gs c with
  | Some (x1, x2, gx1, gx2) =>
      inr ([x1; x2], [gx1; gx2],
           (f_grad fs gs c <$> lc_f_vars c, f_grad fs gs c <$> (tf_stop_gradient <$> fs)),
           (g_grad fs gs c <$> lc_g_vars c, g_grad fs gs c <$> (tf_stop_gradient <$> gs)))
  | None => inl (ValueError "None values not supported.")
  end.
Proof.
  unfold layer_call, _rev_layer_backward, lc_out.
  cbn [unpack2]. py_unfold. cbn beta iota.
  fold (lc_rec fs gs c). rewrite !grad0. fold (lc_d fs gs c).
  unfold f_grad, g_grad, lc_gate, lc_tuple, lc_grad_xs, raw_f_grad, raw_g_grad.
  destruct (lc_d fs gs c) as [d|] eqn:Hd;
    cbn [tensor_add mbind option_bind option_list]; [|reflexivity].
  change (option_list (Some d)) with [d].
  destruct (dydx [rc_fx2 (lc_rec fs gs c)] [lc_grad_y1 c] (rc_x2_stop (lc_rec fs gs c)))
    as [a|] eqn:Ha;
    cbn [tensor_add mbind option_bind]; [|reflexivity].
  destruct (dydx [rc_fx2 (lc_rec fs gs c)] [d] (rc_x2_stop (lc_rec fs gs c))) as [b|] eqn:Hb;
    cbn [tensor_add mbind option_bind]; [|reflexivity].
  py_unfold. cbn beta iota.
  set (gx1 := tf_add (lc_grad_y1 c) d).
  set (gx2 := tf_add (tf_add a (lc_grad_y2 c)) b).
  unfold tf_gradients. rewrite !fmap_app, !take_app_length', !drop_app_length'
    by (by rewrite length_fmap).
  pose proof (acc_grads_map (λ (seed : list Tensor) (v : Tensor),
                 dydx [rc_fx2 (lc_rec fs gs c)] seed v)
               [[lc_grad_y1 c]; [d]]) as Hacc.
  cbn [fmap list_fmap] in Hacc.
  rewrite !Hacc by done.
  unfold tf_tuple.
  set (pre := [Some (rc_x1 (lc_rec fs gs c)); Some (rc_x2 (lc_rec fs gs c));
               Some gx1; Some gx2] ++ _).
  set (G := λ t : option Tensor, with_dependencies (omap id pre) <$> t).
  cbn zeta. subst pre. rewrite !fmap_app.
  match goal with
  | |- context [take 4 (?h ++ ?X ++ ?Y ++ ?Z ++ ?W)] =>
      set (h' := h); set (X' := X); set (Y' := Y); set (Z' := Z); set (W' := W)
  end.
  rewrite <- (length_fmap G _ : length X' = _), <- (length_fmap G _ : length Y' = _),
          <- (length_fmap G _ : length Z' = _).
  destruct (tuple_slices h' X' Y' Z' W' eq_refl) as (-> & -> & -> & -> & ->).
  subst h' X' Y' Z' W'. cbn [fmap list_fmap]. 
  f_equal. f_equal; [f_equal|]; f_equal.
  all: rewrite <- list_fmap_compose; reflexivity.
Qed.

Lemma lc_out_is_Some (c : LayerCtx) :
  differentiable (lc_f c) → differentiable (lc_g c) → is_Some (lc_out fs gs c).
Proof.
  intros Hf Hg. unfold lc_out, lc_grad_xs, lc_d, lc_rec, reconstruct.
  cbn [rc_gy1 rc_y1_stop rc_fx2 rc_x2_stop].
  destruct (Hg (variable_scope (variable_scope_reuse (lc_scope c)) "g")
               (tf_stop_gradient (lc_y1 c)) (tf_stop_gradient <$> gs) (lc_grad_y2 c))
    as [d Hd].
  rewrite Hd. cbn [mbind option_bind].
  match goal with
  | |- context [dydx [?fx] [lc_grad_y1 c] ?x] =>
      destruct (Hf (variable_scope (variable_scope_reuse (lc_scope c)) "f")
                   x (tf_stop_gradient <$> fs) (lc_grad_y1 c)) as [a Ha];
      destruct (Hf (variable_scope (variable_scope_reuse (lc_scope c)) "f")
                   x (tf_stop_gradient <$> fs) d) as [b Hb]
  end.
  rewrite Ha. cbn [mbind option_bind]. rewrite Hb. cbn [mbind option_bind].
  eauto.
Qed.

Lemma backward_loop_spec (layers : list nat) (scopes : list VarScope)
    (f g : list SubFn) (f_vars g_vars : list (list Tensor)) :
  ∀ (y1 y2 gy1 gy2 : Tensor) (c0 : Collected) (cs : list LayerCtx)
    (x1 x2 gx1 gx2 : Tensor),
    backward_run fs gs layers scopes f g f_vars g_vars y1 y2 gy1 gy2
    = Some (cs, (x1, x2, gx1, gx2)) →
    backward_loop layers scopes f g f_vars g_vars fs gs [y1; y2] [gy1; gy2] c0
    = inr ([x1; x2], [gx1; gx2],
           MkColl
             (f_var_grads c0 ++ ((λ c, f_grad fs gs c <$> lc_f_vars c) <$> cs))
             (g_var_grads c0 ++ ((λ c, g_grad fs gs c <$> lc_g_vars c) <$> cs))
             (f_side_grads c0 ++ ((λ c, f_grad fs gs c <$> (tf_stop_gradient <$> fs)) <$> cs))
             (g_side_grads c0 ++ ((λ c, g_grad fs gs c <$> (tf_stop_gradient <$> gs)) <$> cs))).
Proof.
  induction layers as [|i layers IH]; intros y1 y2 gy1 gy2 c0 cs x1 x2 gx1 gx2 Hrun.
  - simpl in Hrun. simplify_eq.
    simpl. rewrite !app_nil_r. by destruct c0.
  - cbn [backward_run] in Hrun. cbn [backward_loop]. unfold py_index.
    destruct (scopes !! i) as [sc|]; [|discriminate].
    destruct (f !! i) as [fi|]; [|discriminate].
    destruct (g !! i) as [gi|]; [|discriminate].
    destruct (f_vars !! i) as [fv|]; [|discriminate].
    destruct (g_vars !! i) as [gv|]; [|discriminate].
    cbn [mbind option_bind] in Hrun.
    set (c := MkCtx sc fi gi fv gv y1 y2 gy1 gy2) in *.
    pose proof (layer_call_spec c) as Hcall. unfold layer_call in Hcall.
    cbn [lc_scope lc_f lc_g lc_f_vars lc_g_vars lc_y1 lc_y2 lc_grad_y1 lc_grad_y2 c]
      in Hcall.
    py_unfold. rewrite Hcall.
    destruct (lc_out fs gs c) as [[[[z1 z2] gz1] gz2]|]; [|discriminate].
    cbn [mbind option_bind] in Hrun.
    destruct (backward_run fs gs layers scopes f g f_vars g_vars z1 z2 gz1 gz2)
      as [[cs' fin]|] eqn:Hrest; [|discriminate].
    cbn [mbind option_bind] in Hrun. simplify_eq.
    rewrite (IH _ _ _ _ _ _ _ _ _ _ Hrest). cbn [f_var_grads g_var_grads f_side_grads g_side_grads].
    rewrite !fmap_cons, <- !app_assoc. reflexivity.
Qed.

Lemma backward_run_is_Some (layers : list nat) (scopes : list VarScope)
    (f g : list SubFn) (f_vars g_vars : list (list Tensor)) :
  Forall differentiable f → Forall differentiable g →
  Forall (λ i, i < length scopes ∧ i < length f ∧ i < length g
               ∧ i < length f_vars ∧ i < length g_vars) layers →
  ∀ y1 y2 gy1 gy2,
    is_Some (backward_run fs gs layers scopes f g f_vars g_vars y1 y2 gy1 gy2).
Proof.
  intros Hdf Hdg. induction layers as [|i layers IH]; intros Hidx y1 y2 gy1 gy2.
  - simpl. eauto.
  - apply Forall_cons_1 in Hidx as [(H1 & H2 & H3 & H4 & H5) Hidx].
    apply lookup_lt_is_Some_2 in H1 as [sc Hsc].
    apply lookup_lt_is_Some_2 in H2 as [fi Hfi].
    apply lookup_lt_is_Some_2 in H3 as [gi Hgi].
    apply lookup_lt_is_Some_2 in H4 as [fv Hfv].
    apply lookup_lt_is_Some_2 in H5 as [gv Hgv].
    cbn [backward_run]. rewrite Hsc, Hfi, Hgi, Hfv, Hgv. cbn [mbind option_bind].
    assert (Hout : is_Some (lc_out fs gs (MkCtx sc fi gi fv gv y1 y2 gy1 gy2))).
    { apply lc_out_is_Some; simpl.
      - exact (Forall_lookup_1 _ _ _ _ Hdf Hfi).
      - exact (Forall_lookup_1 _ _ _ _ Hdg Hgi). }
    destruct Hout as [[[[z1 z2] gz1] gz2] Hout].
    rewrite Hout. cbn [mbind option_bind].
    destruct (IH Hidx z1 z2 gz1 gz2) as [[cs fin] Hrest].
    rewrite Hrest. cbn [mbind option_bind]. eauto.
Qed.

(** Each call is made with the entries of the lists at its index. *)
Lemma backward_run_lookup (layers : list nat) (scopes : list VarScope)
    (f g : list SubFn) (f_vars g_vars : list (list Tensor)) :
  ∀ y1 y2 gy1 gy2 cs fin,
    backward_run fs gs layers scopes f g f_vars g_vars y1 y2 gy1 gy2 = Some (cs, fin) →
    length cs = length layers
    ∧ ∀ j i c, layers !! j = Some i → cs !! j = Some c →
        scopes !! i = Some (lc_scope c) ∧ f !! i = Some (lc_f c)
        ∧ g !! i = Some (lc_g c) ∧ f_vars !! i = Some (lc_f_vars c)
        ∧ g_vars !! i = Some (lc_g_vars c).
Proof.
  induction layers as [|i layers IH]; intros y1 y2 gy1 gy2 cs fin Hrun.
  - simpl in Hrun. simplify_eq. split; [done|]. intros j i c Hj. done.
  - cbn [backward_run] in Hrun.
    destruct (scopes !! i) as [sc|] eqn:Hsc; [|discriminate].
    destruct (f !! i) as [fi|] eqn:Hfi; [|discriminate].
    destruct (g !! i) as [gi|] eqn:Hgi; [|discriminate].
    destruct (f_vars !! i) as [fv|] eqn:Hfv; [|discriminate].
    destruct (g_vars !! i) as [gv|] eqn:Hgv; [|discriminate].
    cbn [mbind option_bind] in Hrun.
    destruct (lc_out fs gs _) as [[[[z1 z2] gz1] gz2]|]; [|discriminate].
    cbn [mbind option_bind] in Hrun.
    destruct (backward_run fs gs layers scopes f g f_vars g_vars z1 z2 gz1 gz2)
      as [[cs' fin']|] eqn:Hrest; [|discriminate].
    cbn [mbind option_bind] in Hrun. simplify_eq.
    destruct (IH _ _ _ _ _ _ Hrest) as [Hlen Hlook].
    split; [simpl; by rewrite Hlen|].
    intros [|j] i' c Hj Hc.
    + simpl in Hj, Hc. simplify_eq. simpl. done.
    + simpl in Hj, Hc. eauto.
Qed.

End Layer.

End Trace.

Section Prepare.

Context `{E : Engine}.

Lemma list_index_ok (l : list Tensor) (k : nat) (t : Tensor) :
  NoDup l → l !! k = Some t → list_index l t = inr k.
Proof.
  intros Hnd Hk. unfold list_index.
  destruct (list_find (λ x, x = t) l) as [[k' t']|] eqn:Hfind.
  - apply list_find_Some in Hfind as (Hk' & -> & _).
    by rewrite (NoDup_lookup l k' k t Hnd Hk' Hk).
  - apply list_find_None in Hfind.
    exfalso. eapply Forall_lookup_1 in Hfind; [|exact Hk]. by apply Hfind.
Qed.

Lemma py_setitem_ok {A : Type} (l : list A) (i : nat) (v : A) :
  i < length l → py_setitem l i v = inr (<[i := v]> l).
Proof. intros Hi. unfold py_setitem. by rewrite bool_decide_true. Qed.

Lemma side_idxs_loop_spec (fs gs : list Tensor) :
  NoDup fs → NoDup gs → (∀ t, t ∈ fs → t ∉ gs) →
  ∀ (items : list (nat * Tensor)) (fi0 gi0 : list (option nat)),
    NoDup (items.*2) →
    Forall (λ it, it.2 ∈ fs ∨ it.2 ∈ gs) items →
    length fi0 = length fs → length gi0 = length gs →
    ∃ fi gi,
      side_idxs_loop fs gs items fi0 gi0 = inr (fi, gi)
      ∧ length fi = length fs ∧ length gi = length gs
      ∧ idxs_filled fs items fi0 fi ∧ idxs_filled gs items gi0 gi.
Proof.
  intros Hndf Hndg Hdisj.
  induction items as [|[i t] items IH]; intros fi0 gi0 Hnd Hall Hlf Hlg.
  - exists fi0, gi0. simpl.
    split; [done|]. split; [done|]. split; [done|].
    split; intros k t Hk; (split; [intros i Hi; inversion Hi|done]).
  - simpl in Hnd. apply list.NoDup_cons in Hnd as [Hnotin Hnd].
    apply Forall_cons_1 in Hall as [Ht Hall].
    cbn [side_idxs_loop].
    destruct (decide (t ∈ fs)) as [Hin|Hnin].
    + rewrite bool_decide_true by done.
      destruct (list_elem_of_lookup_1 _ _ Hin) as [k0 Hk0].
      rewrite (list_index_ok fs k0 t Hndf Hk0). py_unfold.
      assert (Hk0lt : k0 < length fi0).
      { rewrite Hlf. by eapply lookup_lt_Some. }
      rewrite (py_setitem_ok fi0 k0 (Some i) Hk0lt).
      destruct (IH (<[k0 := Some i]> fi0) gi0 Hnd Hall) as (fi & gi & Hrun & Hl1 & Hl2 & HF & HG).
      { by rewrite length_insert. } { done. }
      exists fi, gi. rewrite Hrun.
      split; [done|]. split; [done|]. split; [done|]. split.
      * intros k t' Hk. split.
        -- intros i' Hi'. apply elem_of_cons in Hi' as [Heq|Hi'].
           ++ simplify_eq. rewrite (NoDup_lookup fs k k0 t Hndf Hk Hk0).
              rewrite (proj2 (HF k0 t Hk0)) by done.
              by rewrite list_lookup_insert_eq.
           ++ by apply (HF k t' Hk).
        -- intros Hnot. simpl in Hnot. apply not_elem_of_cons in Hnot as [Hne Hnot].
           rewrite (proj2 (HF k t' Hk)) by done.
           apply list_lookup_insert_ne. intros ->. congruence.
      * intros k t' Hk. split.
        -- intros i' Hi'. apply elem_of_cons in Hi' as [Heq|Hi'].
           ++ simplify_eq. exfalso. apply (Hdisj t Hin). by eapply list_elem_of_lookup_2.
           ++ by apply (HG k t' Hk).
        -- intros Hnot. simpl in Hnot. apply not_elem_of_cons in Hnot as [Hne Hnot].
           by apply (HG k t' Hk).
    + rewrite bool_decide_false by done.
      destruct Ht as [Ht|Ht]; [done|]. simpl in Ht.
      rewrite bool_decide_true by done.
      destruct (list_elem_of_lookup_1 _ _ Ht) as [k0 Hk0].
      rewrite (list_index_ok gs k0 t Hndg Hk0). py_unfold.
      assert (Hk0lt : k0 < length gi0).
      { rewrite Hlg. by eapply lookup_lt_Some. }
      rewrite (py_setitem_ok gi0 k0 (Some i) Hk0lt).
      destruct (IH fi0 (<[k0 := Some i]> gi0) Hnd Hall) as (fi & gi & Hrun & Hl1 & Hl2 & HF & HG).
      { done. } { by rewrite length_insert. }
      exists fi, gi. rewrite Hrun.
      split; [done|]. split; [done|]. split; [done|]. split.
      * intros k t' Hk. split.
        -- intros i' Hi'. apply elem_of_cons in Hi' as [Heq|Hi'].
           ++ simplify_eq. exfalso. apply Hnin. by eapply list_elem_of_lookup_2.
           ++ by apply (HF k t' Hk).
        -- intros Hnot. simpl in Hnot. apply not_elem_of_cons in Hnot as [Hne Hnot].
           by apply (HF k t' Hk).
      * intros k t' Hk. split.
        -- intros i' Hi'. apply elem_of_cons in Hi' as [Heq|Hi'].
           ++ simplify_eq. rewrite (NoDup_lookup gs k k0 t Hndg Hk Hk0).
              rewrite (proj2 (HG k0 t Hk0)) by done.
              by rewrite list_lookup_insert_eq.
           ++ by apply (HG k t' Hk).
        -- intros Hnot. simpl in Hnot. apply not_elem_of_cons in Hnot as [Hne Hnot].
           rewrite (proj2 (HG k t' Hk)) by done.
           apply list_lookup_insert_ne. intros ->. congruence.
Qed.

(** *** The groups of a match of [LAYER_RE] *)

Lemma re_match_app (items1 items2 : list re_item) :
  ∀ (s : list ascii) (k k' : re_caps),
    re_match (items1 ++ items2) s k = Some k' →
    ∃ s2 k2 new,
      re_match items2 s2 k2 = Some k'
      ∧ groups k2 = groups k ++ new ∧ length new = closes items1.
Proof.
  induction items1 as [|it items1 IH]; intros s k k' Hm.
  - exists s, k, []. by rewrite app_nil_r.
  - destruct it as [c|p|p| |]; cbn [app re_match] in Hm.
    + destruct s as [|c' s']; [done|]. destruct (Ascii.eqb c c'); [|done].
      destruct (IH _ _ _ Hm) as (s2 & k2 & new & H1 & H2 & H3).
      by exists s2, k2, new.
    + destruct s as [|c' s']; [done|]. destruct (p c'); [|done].
      destruct (IH _ _ _ Hm) as (s2 & k2 & new & H1 & H2 & H3).
      by exists s2, k2, new.
    + revert k Hm. induction s as [|c' s' IHs]; intros k Hm.
      * destruct (IH _ _ _ Hm) as (s2 & k2 & new & H1 & H2 & H3).
      by exists s2, k2, new.
      * destruct (p c').
        -- match type of Hm with
           | match ?X with _ => _ end = _ => destruct X as [k1|] eqn:Hstar
           end.
           ++ injection Hm as <-.
              destruct (IHs _ Hstar) as (s2 & k2 & new & H1 & H2 & H3).
      by exists s2, k2, new.
           ++ destruct (IH _ _ _ Hm) as (s2 & k2 & new & H1 & H2 & H3).
      by exists s2, k2, new.
        -- destruct (IH _ _ _ Hm) as (s2 & k2 & new & H1 & H2 & H3).
      by exists s2, k2, new.
    + destruct (IH _ _ _ Hm) as (s2 & k2 & new & H1 & H2 & H3).
      by exists s2, k2, new.
    + destruct (IH _ _ _ Hm) as (s2 & k2 & new & H1 & H2 & H3).
      simpl in H2. rewrite <- app_assoc in H2.
      eexists s2, k2, _. split; [done|]. split; [done|].
      simpl. by rewrite H3.
Qed.

Lemma re_star_groups (p : ascii → bool) (s : list ascii) (k k' : re_caps) :
  re_match [RStar p] s k = Some k' → groups k' = groups k.
Proof.
  intros Hm. destruct (re_match_app [RStar p] [] s k k' Hm)
    as (s2 & k2 & new & H1 & H2 & H3).
  simpl in H1. injection H1 as <-.
  destruct new; [|done]. by rewrite app_nil_r in H2.
Qed.

Lemma LAYER_RE_match_role (name g1 g2 : string) :
  LAYER_RE_match name = Some (g1, g2) → g2 = "f" ∨ g2 = "g".
Proof.
  unfold LAYER_RE_match. intros Hm.
  destruct (re_match LAYER_RE _ _) as [k'|] eqn:Hre; [|done].
  change LAYER_RE with
    (([RStar re_dot] ++ re_lit "revlayer_" ++ [ROpen; RStar re_digit; RClose]
      ++ re_lit "/")
     ++ [ROpen; RSet re_fg; RClose; RLit "/"%char; RStar re_dot]) in Hre.
  apply re_match_app in Hre as (s2 & k2 & new & H1 & H2 & H3).
  cbn [re_match] in H1.
  destruct s2 as [|c s2]; [done|].
  destruct (re_fg c) eqn:Hc; [|done].
  destruct s2 as [|c' s2]; [done|].
  destruct (Ascii.eqb "/" c'); [|done].
  apply re_star_groups in H1. simpl in H1.
  vm_compute in H3. destruct new as [|n1 [|? ?]]; try done.
  simpl in H2. rewrite H2 in H1. rewrite H1 in Hm. simpl in Hm.
  injection Hm as <- <-.
  unfold re_fg in Hc. apply orb_true_iff in Hc as [Hc|Hc];
    apply Ascii.eqb_eq in Hc; subst c; auto.
Qed.

(** *** The loop over the variables *)

Lemma parse_variable_role (t ref : Tensor) (l : nat) (r : string) :
  parse_variable t = inr (ref, l, r) → r = "f" ∨ r = "g".
Proof.
  unfold parse_variable. destruct (variable_ref t) as [ref'|]; [|done].
  destruct (LAYER_RE_match _) as [[g1 g2]|] eqn:Hm; [|done].
  destruct (py_int g1); [done|]. cbn. unfold ok. intros Heq. simplify_eq.
  by eapply LAYER_RE_match_role.
Qed.

Lemma imap_alter_snoc {A : Type} (F F' : nat → list A) (l0 : nat) (a : A)
    (L : list (list A)) :
  F' l0 = a :: F l0 → (∀ l, l ≠ l0 → F' l = F l) →
  imap (λ l old, old ++ F l) (alter (λ x, x ++ [a]) l0 L)
  = imap (λ l old, old ++ F' l) L.
Proof.
  intros H0 Hne. apply list_eq. intros l.
  rewrite !list_lookup_imap. destruct (decide (l = l0)) as [->|Hl].
  - rewrite list_lookup_alter_eq. destruct (L !! l0); simpl; [|done].
    by rewrite H0, <- app_assoc.
  - rewrite list_lookup_alter_ne by done. by rewrite Hne.
Qed.

Lemma py_append_at_ok {A : Type} (ls : list (list A)) (k : nat) (x : A) :
  k < length ls → py_append_at ls k x = inr (alter (λ l, l ++ [x]) k ls).
Proof.
  intros Hk. unfold py_append_at, py_index.
  apply lookup_lt_is_Some_2 in Hk as [l Hl]. by rewrite Hl.
Qed.

Lemma sel_cons (is_f : bool) (l : nat) (i : nat) (t : Tensor)
    (items : list (nat * Tensor)) (ref : Tensor) (l0 : nat) (b : bool) :
  var_attr t = Some (ref, l0, b) →
  sel is_f l ((i, t) :: items)
  = if bool_decide (l0 = l ∧ b = is_f) then (i, ref) :: sel is_f l items
    else sel is_f l items.
Proof.
  intros Hattr. unfold sel. cbn [omap list_omap]. simpl. rewrite Hattr.
  by destruct (bool_decide _).
Qed.

Lemma vars_loop_spec (n : nat) (items : list (nat * Tensor)) :
  ∀ vg : VarGroups,
    Forall (λ it : nat * Tensor,
              ∃ ref l r, parse_variable it.2 = inr (ref, l, r) ∧ l < n) items →
    length (f_vars vg) = n → length (g_vars vg) = n →
    length (f_vars_idxs vg) = n → length (g_vars_idxs vg) = n →
    vars_loop items vg
    = inr (MkGroups
             (imap (λ l old, old ++ (sel true l items).*2) (f_vars vg))
             (imap (λ l old, old ++ (sel false l items).*2) (g_vars vg))
             (imap (λ l old, old ++ (sel true l items).*1) (f_vars_idxs vg))
             (imap (λ l old, old ++ (sel false l items).*1) (g_vars_idxs vg))).
Proof.
  induction items as [|[i t] items IH]; intros vg Hall H1 H2 H3 H4.
  - simpl. destruct vg as [a b c d]. simpl. f_equal. f_equal.
    all: apply list_eq; intros l; rewrite list_lookup_imap;
      destruct (_ !! l); simpl; by rewrite ?app_nil_r.
  - apply Forall_cons_1 in Hall as [(ref & l0 & r & Hp & Hl0) Hall].
    simpl in Hp. cbn [vars_loop]. rewrite Hp. py_unfold. cbn beta iota.
    assert (Hattr : var_attr t = Some (ref, l0, bool_decide (r = "f"))).
    { unfold var_attr. by rewrite Hp. }
    destruct (parse_variable_role _ _ _ _ Hp) as [-> | ->].
    + rewrite bool_decide_true by done.
      rewrite bool_decide_true in Hattr by done.
      rewrite !py_append_at_ok by lia.
      rewrite IH; cbn [f_vars g_vars f_vars_idxs g_vars_idxs];
        rewrite ?length_alter; try done.
      f_equal. f_equal.
      * apply imap_alter_snoc.
        -- rewrite (sel_cons _ _ _ _ _ _ _ _ Hattr). by rewrite bool_decide_true.
        -- intros l Hl. rewrite (sel_cons _ _ _ _ _ _ _ _ Hattr).
           rewrite bool_decide_false; [done|]. intros [? ?]; congruence.
      * apply imap_ext. intros l old _. rewrite (sel_cons _ _ _ _ _ _ _ _ Hattr).
        rewrite bool_decide_false; [done|]. intros [? ?]; congruence.
      * apply imap_alter_snoc.
        -- rewrite (sel_cons _ _ _ _ _ _ _ _ Hattr). by rewrite bool_decide_true.
        -- intros l Hl. rewrite (sel_cons _ _ _ _ _ _ _ _ Hattr).
           rewrite bool_decide_false; [done|]. intros [? ?]; congruence.
      * apply imap_ext. intros l old _. rewrite (sel_cons _ _ _ _ _ _ _ _ Hattr).
        rewrite bool_decide_false; [done|]. intros [? ?]; congruence.
    + rewrite bool_decide_false by done.
      rewrite bool_decide_false in Hattr by done.
      unfold py_assert. rewrite bool_decide_true by done. cbn beta iota.
      rewrite !py_append_at_ok by lia.
      rewrite IH; cbn [f_vars g_vars f_vars_idxs g_vars_idxs];
        rewrite ?length_alter; try done.
      f_equal. f_equal.
      * apply imap_ext. intros l old _. rewrite (sel_cons _ _ _ _ _ _ _ _ Hattr).
        rewrite bool_decide_false; [done|]. intros [? ?]; congruence.
      * apply imap_alter_snoc.
        -- rewrite (sel_cons _ _ _ _ _ _ _ _ Hattr). by rewrite bool_decide_true.
        -- intros l Hl. rewrite (sel_cons _ _ _ _ _ _ _ _ Hattr).
           rewrite bool_decide_false; [done|]. intros [? ?]; congruence.
      * apply imap_ext. intros l old _. rewrite (sel_cons _ _ _ _ _ _ _ _ Hattr).
        rewrite bool_decide_false; [done|]. intros [? ?]; congruence.
      * apply imap_alter_snoc.
        -- rewrite (sel_cons _ _ _ _ _ _ _ _ Hattr). by rewrite bool_decide_true.
        -- intros l Hl. rewrite (sel_cons _ _ _ _ _ _ _ _ Hattr).
           rewrite bool_decide_false; [done|]. intros [? ?]; congruence.
Qed.

End Prepare.

Section Scatter.

Lemma scatter_spec {A : Type} (W : list (nat * A)) :
  ∀ arr : list A,
    Forall (λ p, p.1 < length arr) W →
    ∃ arr',
      scatter arr W = inr arr' ∧ length arr' = length arr
      ∧ (∀ i, i ∉ W.*1 → arr' !! i = arr !! i)
      ∧ (∀ i v, i ∈ W.*1 → (∀ v', (i, v') ∈ W → v' = v) → arr' !! i = Some v).
Proof.
  induction W as [|[i0 v0] W IH]; intros arr Hall.
  - exists arr. simpl. split; [done|]. split; [done|]. split; [done|].
    intros i v Hi. inversion Hi.
  - apply Forall_cons_1 in Hall as [Hi0 Hall]. simpl in Hi0.
    cbn [scatter]. rewrite (py_setitem_ok arr i0 v0 Hi0). py_unfold.
    destruct (IH (<[i0 := v0]> arr)) as (arr' & Hrun & Hlen & Hout & Hin).
    { by rewrite length_insert. }
    exists arr'. rewrite Hrun. split; [done|]. rewrite length_insert in Hlen.
    split; [done|]. split.
    + intros i Hi. simpl in Hi. apply not_elem_of_cons in Hi as [Hne Hi].
      rewrite (Hout i Hi). by apply list_lookup_insert_ne.
    + intros i v Hi Huniq.
      destruct (decide (i ∈ W.*1)) as [HiW|HiW].
      * apply (Hin i v HiW). intros v' Hv'. apply Huniq. by right.
      * rewrite (Hout i HiW). simpl in Hi. apply elem_of_cons in Hi as [->|Hi]; [|done].
        rewrite list_lookup_insert_eq by done. f_equal. apply Huniq. by left.
Qed.

Lemma scatter_app {A : Type} (W1 W2 : list (nat * A)) :
  ∀ arr : list A,
    scatter arr (W1 ++ W2)
    = match scatter arr W1 with
      | inr arr1 => scatter arr1 W2
      | inl e => inl e
      end.
Proof.
  induction W1 as [|[i v] W1 IH]; intros arr; [done|].
  cbn [app scatter]. py_unfold. destruct (py_setitem arr i v); [done|]. apply IH.
Qed.

Lemma scatter_opt_Some {A : Type} (W : list (nat * A)) :
  ∀ arr : list A,
    scatter_opt arr ((λ p, (Some p.1, p.2)) <$> W) = scatter arr W.
Proof.
  induction W as [|[i v] W IH]; intros arr; [done|].
  rewrite fmap_cons. cbn [scatter_opt scatter py_setitem_opt fst snd]. py_unfold.
  destruct (py_setitem arr i v); [done|]. apply IH.
Qed.

Lemma zip_fst_fmap_snd {A B C : Type} (φ : B → C) (S : list (A * B)) :
  zip (S.*1) (φ <$> S.*2) = (λ p, (p.1, φ p.2)) <$> S.
Proof.
  induction S as [|[a b] S IH]; [done|].
  rewrite !fmap_cons. cbn [zip zip_with fst snd]. by rewrite IH.
Qed.

Lemma zip_Some_fmap {A : Type} (pos : list nat) (vs : list A) :
  zip (Some <$> pos) vs = (λ p, (Some p.1, p.2)) <$> zip pos vs.
Proof.
  revert vs. induction pos as [|i pos IH]; intros [|v vs]; try done.
  rewrite fmap_cons. cbn [zip zip_with]. rewrite fmap_cons. f_equal. apply IH.
Qed.

Lemma imap_replicate_nil {A : Type} (F : nat → list A) (n : nat) :
  imap (λ l old, old ++ F l) (replicate n []) = F <$> seq 0 n.
Proof.
  apply list_eq. intros l. rewrite list_lookup_imap, list_lookup_fmap.
  destruct (decide (l < n)) as [Hl|Hl].
  - rewrite lookup_replicate_2, lookup_seq_lt by done. done.
  - rewrite (proj1 (lookup_replicate_None n [] l)), lookup_seq_ge by lia. done.
Qed.

End Scatter.

Section Assemble.

Context `{E : Engine}.

Variables fs gs : list Tensor.

Lemma elem_of_enumerate {A : Type} (l : list A) (i : nat) (x : A) :
  (i, x) ∈ enumerate l ↔ l !! i = Some x.
Proof.
  unfold enumerate. rewrite elem_of_lookup_imap. split.
  - intros (j & y & Heq & Hj). by simplify_eq.
  - intros Hi. by exists i, x.
Qed.

Lemma elem_of_sel (is_f : bool) (l i : nat) (ref : Tensor) (items : list (nat * Tensor)) :
  (i, ref) ∈ sel is_f l items
  ↔ ∃ t, (i, t) ∈ items ∧ var_attr t = Some (ref, l, is_f).
Proof.
  unfold sel. rewrite list_elem_of_omap. split.
  - intros ([i' t] & Hin & Hm). simpl in Hm.
    destruct (var_attr t) as [[[ref' l'] b]|] eqn:Hattr; [|done].
    case_bool_decide as Hd; [|done]. destruct Hd as [-> ->]. simplify_eq. eauto.
  - intros (t & Hin & Hattr). exists (i, t). split; [done|]. simpl.
    rewrite Hattr. by rewrite bool_decide_true.
Qed.

Lemma group_writes (n : nat) (items : list (nat * Tensor)) (cs : list LayerCtx)
    (is_f : bool) (G : LayerCtx → Tensor → option Tensor)
    (vars_of : LayerCtx → list Tensor) :
  length cs = n →
  (∀ j c, cs !! j = Some c → vars_of c = (sel is_f (n - S j) items).*2) →
  ∀ i v,
    (i, v) ∈ mjoin ((λ '(idxs, grads), zip idxs grads) <$>
                    zip ((λ l, (sel is_f l items).*1) <$> seq 0 n)
                        (reverse ((λ c, G c <$> vars_of c) <$> cs)))
    ↔ ∃ l c ref, l < n ∧ cs !! (n - S l) = Some c
                 ∧ (i, ref) ∈ sel is_f l items ∧ v = G c ref.
Proof.
  intros Hlen Hvars i v. subst n. rewrite list_elem_of_join. split.
  - intros (L & HinL & HL). apply list_elem_of_fmap in HL as ([idxs grads] & -> & Hp).
    apply elem_of_lookup_zip_with_1 in Hp as (l & a & b & Heq & Ha & Hb).
    simplify_eq.
    rewrite list_lookup_fmap in Ha.
    destruct (seq 0 (length cs) !! l) as [l'|] eqn:Hl; [|done].
    apply lookup_seq in Hl as [-> Hl]. simpl in Ha. simplify_eq.
    apply reverse_lookup_Some in Hb as [Hb _].
    rewrite length_fmap, list_lookup_fmap in Hb.
    destruct (cs !! (length cs - S l)) as [c|] eqn:Hc; [|done]. simpl in Hb. simplify_eq.
    rewrite (Hvars _ _ Hc) in HinL.
    replace (length cs - S (length cs - S l)) with l in HinL by lia.
    rewrite zip_fst_fmap_snd in HinL.
    apply list_elem_of_fmap in HinL as ([i' ref] & Heq & Hin). simpl in Heq. simplify_eq.
    exists l, c, ref. done.
  - intros (l & c & ref & Hl & Hc & Hin & ->).
    exists (zip (sel is_f l items).*1 (G c <$> (sel is_f l items).*2)). split.
    + rewrite zip_fst_fmap_snd. apply list_elem_of_fmap. by exists (i, ref).
    + apply list_elem_of_fmap.
      exists ((sel is_f l items).*1, G c <$> (sel is_f l items).*2). split; [done|].
      apply (elem_of_lookup_zip_with_2 pair _ _ _ _ ([], []) l).
      * rewrite list_lookup_fmap, lookup_seq_lt by done. done.
      * apply reverse_lookup_Some. rewrite length_fmap, list_lookup_fmap, Hc.
        simpl. split; [|done]. rewrite (Hvars _ _ Hc).
        by replace (length cs - S (length cs - S l)) with l by lia.
Qed.

Lemma variables_scattered (n : nat) (variables : list Tensor) (cs : list LayerCtx) :
  let items := enumerate variables in
  length cs = n →
  Forall (λ t, ∃ ref l r, parse_variable t = inr (ref, l, r) ∧ l < n) variables →
  (∀ j c, cs !! j = Some c →
     lc_f_vars c = (sel true (n - S j) items).*2
     ∧ lc_g_vars c = (sel false (n - S j) items).*2) →
  scatter (replicate (length variables) None)
    (mjoin ((λ '(idxs, grads), zip idxs grads) <$>
            (zip ((λ l, (sel true l items).*1) <$> seq 0 n)
                 (reverse ((λ c, f_grad fs gs c <$> lc_f_vars c) <$> cs))
             ++ zip ((λ l, (sel false l items).*1) <$> seq 0 n)
                    (reverse ((λ c, g_grad fs gs c <$> lc_g_vars c) <$> cs)))))
  = inr (var_grad fs gs cs n <$> variables).
Proof.
  intros items Hlen Hall Hvars.
  set (W := mjoin _).
  assert (HW : ∀ i v, (i, v) ∈ W ↔
            ∃ l c ref is_f, l < n ∧ cs !! (n - S l) = Some c
              ∧ (i, ref) ∈ sel is_f l items
              ∧ v = if is_f then f_grad fs gs c ref else g_grad fs gs c ref).
  { intros i v. unfold W. rewrite fmap_app, join_app, elem_of_app.
    rewrite (group_writes n items cs true (f_grad fs gs) lc_f_vars Hlen)
      by (intros j c Hc; apply (Hvars j c Hc)).
    rewrite (group_writes n items cs false (g_grad fs gs) lc_g_vars Hlen)
      by (intros j c Hc; apply (Hvars j c Hc)).
    split.
    - intros [(l & c & ref & ?)|(l & c & ref & ?)].
      + by exists l, c, ref, true.
      + by exists l, c, ref, false.
    - intros (l & c & ref & [] & ?); [left|right]; by exists l, c, ref. }
  assert (Hval : ∀ i v, (i, v) ∈ W →
            ∃ t, variables !! i = Some t ∧ v = var_grad fs gs cs n t).
  { intros i v Hin. apply HW in Hin as (l & c & ref & is_f & Hl & Hc & Hin & ->).
    apply elem_of_sel in Hin as (t & Hit & Hattr).
    apply elem_of_enumerate in Hit. exists t. split; [done|].
    unfold var_grad. by rewrite Hattr, Hc. }
  assert (Hdom : ∀ i t, variables !! i = Some t → i ∈ W.*1).
  { intros i t Hi.
    destruct (Forall_lookup_1 _ _ _ _ Hall Hi) as (ref & l & r & Hp & Hl).
    assert (Hattr : var_attr t = Some (ref, l, bool_decide (r = "f"))).
    { unfold var_attr. by rewrite Hp. }
    destruct (lookup_lt_is_Some_2 cs (n - S l)) as [c Hc]; [lia|].
    apply list_elem_of_fmap.
    eexists (i, _). split; [done|]. apply HW.
    exists l, c, ref, (bool_decide (r = "f")). split; [done|]. split; [done|].
    split; [|done]. apply elem_of_sel. exists t. split; [|done].
    by apply elem_of_enumerate. }
  destruct (scatter_spec W (replicate (length variables) None))
    as (arr & Hrun & Hlen' & Hout & Hin).
  { apply list.Forall_forall. intros [i v] Hiv. simpl. rewrite length_replicate.
    apply Hval in Hiv as (t & Hi & _). by eapply lookup_lt_Some. }
  rewrite Hrun. f_equal. apply list_eq. intros i.
  rewrite list_lookup_fmap. destruct (variables !! i) as [t|] eqn:Hi; simpl.
  - apply Hin; [by eapply Hdom|].
    intros v' Hv'. apply Hval in Hv' as (t' & Hi' & ->). by simplify_eq.
  - apply lookup_ge_None. rewrite Hlen', length_replicate.
    by apply lookup_ge_None.
Qed.

Lemma idxs_all_Some (side sis : list Tensor) (idxs : list (option nat)) :
  length idxs = length side → (∀ t, t ∈ side → t ∈ sis) →
  idxs_filled side (enumerate sis) (replicate (length side) None) idxs →
  idxs = Some <$> (default 0 <$> idxs)
  ∧ ∀ k t, side !! k = Some t →
      ∃ i, sis !! i = Some t ∧ (default 0 <$> idxs) !! k = Some i.
Proof.
  intros Hlen Hsub Hfill.
  assert (Hpos : ∀ k t, side !! k = Some t →
            ∃ i, sis !! i = Some t ∧ idxs !! k = Some (Some i)).
  { intros k t Hk.
    destruct (list_elem_of_lookup_1 sis t) as [i Hi].
    { apply Hsub. by eapply list_elem_of_lookup_2. }
    exists i. split; [done|]. apply (Hfill k t Hk). by apply elem_of_enumerate. }
  split.
  - apply list_eq. intros k. rewrite !list_lookup_fmap.
    destruct (side !! k) as [t|] eqn:Hk.
    + destruct (Hpos k t Hk) as (i & _ & ->). done.
    + apply lookup_ge_None in Hk. rewrite <- Hlen in Hk.
      apply lookup_ge_None in Hk. by rewrite Hk.
  - intros k t Hk. destruct (Hpos k t Hk) as (i & Hi & Hidx).
    exists i. split; [done|]. by rewrite list_lookup_fmap, Hidx.
Qed.

Lemma acc_side_grads (G : LayerCtx → Tensor → option Tensor)
    (side : list Tensor) (cs : list LayerCtx) :
  cs ≠ [] →
  _acc_grads ((λ c, G c <$> (tf_stop_gradient <$> side)) <$> cs)
  = (λ t, acc_column ((λ c, G c (tf_stop_gradient t)) <$> cs)) <$> side.
Proof.
  intros Hne. rewrite (acc_grads_map G cs (tf_stop_gradient <$> side) Hne).
  by rewrite <- list_fmap_compose.
Qed.

Lemma sides_scattered (sis : list Tensor) (cs : list LayerCtx)
    (fi gi : list (option nat)) :
  NoDup (fs ++ gs) → sis ≡ₚ fs ++ gs → cs ≠ [] →
  length fi = length fs → length gi = length gs →
  idxs_filled fs (enumerate sis) (replicate (length fs) None) fi →
  idxs_filled gs (enumerate sis) (replicate (length gs) None) gi →
  match
    scatter_opt (replicate (length sis) None)
      (zip fi (_acc_grads ((λ c, f_grad fs gs c <$> (tf_stop_gradient <$> fs)) <$> cs)))
  with
  | inr a =>
      scatter_opt a
        (zip gi (_acc_grads ((λ c, g_grad fs gs c <$> (tf_stop_gradient <$> gs)) <$> cs)))
  | inl e => inl e
  end
  = inr (side_grad fs gs cs <$> sis).
Proof.
  intros Hnd Hperm Hne Hlf Hlg HF HG.
  apply list.NoDup_app in Hnd as (Hndf & Hdisj & Hndg).
  assert (Hnds : NoDup sis).
  { rewrite Hperm. apply list.NoDup_app. done. }
  assert (Hsubf : ∀ t, t ∈ fs → t ∈ sis).
  { intros t Ht. rewrite Hperm. apply elem_of_app. by left. }
  assert (Hsubg : ∀ t, t ∈ gs → t ∈ sis).
  { intros t Ht. rewrite Hperm. apply elem_of_app. by right. }
  destruct (idxs_all_Some fs sis fi Hlf Hsubf HF) as [Hfi Hfpos].
  destruct (idxs_all_Some gs sis gi Hlg Hsubg HG) as [Hgi Hgpos].
  set (fpos := default 0 <$> fi) in *. set (gpos := default 0 <$> gi) in *.
  rewrite !acc_side_grads by done.
  set (ψF := λ t, acc_column ((λ c, f_grad fs gs c (tf_stop_gradient t)) <$> cs)).
  set (ψG := λ t, acc_column ((λ c, g_grad fs gs c (tf_stop_gradient t)) <$> cs)).
  rewrite Hfi, Hgi, !zip_Some_fmap, scatter_opt_Some.
  transitivity (scatter (replicate (length sis) None)
                  (zip fpos (ψF <$> fs) ++ zip gpos (ψG <$> gs))).
  { rewrite scatter_app. destruct (scatter _ _); [done|]. by rewrite scatter_opt_Some. }
  set (W := zip fpos (ψF <$> fs) ++ zip gpos (ψG <$> gs)).
  assert (Hval : ∀ i v, (i, v) ∈ W → ∃ t, sis !! i = Some t ∧ v = side_grad fs gs cs t).
  { intros i v Hin. apply elem_of_app in Hin as [Hin|Hin];
      apply elem_of_lookup_zip_with_1 in Hin as (k & a & b & Heq & Ha & Hb);
      simplify_eq; rewrite list_lookup_fmap in Hb.
    - destruct (fs !! k) as [t|] eqn:Hk; [|done]. simpl in Hb. simplify_eq.
      destruct (Hfpos k t Hk) as (i' & Hi' & Hidx). simplify_eq.
      exists t. split; [done|]. unfold side_grad.
      rewrite bool_decide_true; [done|]. by eapply list_elem_of_lookup_2.
    - destruct (gs !! k) as [t|] eqn:Hk; [|done]. simpl in Hb. simplify_eq.
      destruct (Hgpos k t Hk) as (i' & Hi' & Hidx). simplify_eq.
      exists t. split; [done|]. unfold side_grad.
      rewrite bool_decide_false; [done|].
      intros Hin. apply (Hdisj t Hin). by eapply list_elem_of_lookup_2. }
  assert (Hdom : ∀ i t, sis !! i = Some t → i ∈ W.*1).
  { intros i t Hi.
    assert (Ht : t ∈ fs ++ gs).
    { rewrite <- Hperm. by eapply list_elem_of_lookup_2. }
    apply list_elem_of_fmap. apply elem_of_app in Ht as [Ht|Ht];
      apply list_elem_of_lookup_1 in Ht as [k Hk].
    - destruct (Hfpos k t Hk) as (i' & Hi' & Hidx).
      rewrite (NoDup_lookup sis i i' t Hnds Hi Hi').
      exists (i', ψF t). split; [done|]. apply elem_of_app. left.
      apply (elem_of_lookup_zip_with_2 pair _ _ _ _ (0, None) k); [done|].
      by rewrite list_lookup_fmap, Hk.
    - destruct (Hgpos k t Hk) as (i' & Hi' & Hidx).
      rewrite (NoDup_lookup sis i i' t Hnds Hi Hi').
      exists (i', ψG t). split; [done|]. apply elem_of_app. right.
      apply (elem_of_lookup_zip_with_2 pair _ _ _ _ (0, None) k); [done|].
      by rewrite list_lookup_fmap, Hk. }
  destruct (scatter_spec W (replicate (length sis) None))
    as (arr & Hrun & Hlen' & Hout & Hin).
  { apply list.Forall_forall. intros [i v] Hiv. simpl. rewrite length_replicate.
    apply Hval in Hiv as (t & Hi & _). by eapply lookup_lt_Some. }
  rewrite Hrun. f_equal. apply list_eq. intros i.
  rewrite list_lookup_fmap. destruct (sis !! i) as [t|] eqn:Hi; simpl.
  - apply Hin; [by eapply Hdom|].
    intros v' Hv'. apply Hval in Hv' as (t' & Hi' & ->). by simplify_eq.
  - apply lookup_ge_None. rewrite Hlen', length_replicate.
    by apply lookup_ge_None.
Qed.

Lemma reversed_heap_cases (lf lg l : nat) (st : PyState) :
  heap (reversed lf lg st) l = heap st l
  ∨ heap (reversed lf lg st) l = reverse (heap st l)
  ∨ heap (reversed lf lg st) l = reverse (reverse (heap st l)).
Proof.
  unfold reversed, set_heap, set_layer_scopes. simpl.
  destruct (decide (l = lg)) as [->|Hlg].
  - rewrite fn_lookup_insert. destruct (decide (lg = lf)) as [->|Hlf].
    + rewrite fn_lookup_insert. auto.
    + rewrite fn_lookup_insert_ne by done. auto.
  - rewrite fn_lookup_insert_ne by done. destruct (decide (l = lf)) as [->|Hlf].
    + rewrite fn_lookup_insert. auto.
    + rewrite fn_lookup_insert_ne by done. auto.
Qed.

Lemma reversed_heap_length (lf lg l : nat) (st : PyState) :
  length (heap (reversed lf lg st) l) = length (heap st l).
Proof.
  destruct (reversed_heap_cases lf lg l st) as [->|[->| ->]];
    by rewrite ?length_reverse.
Qed.

Lemma reversed_heap_Forall (P : SubFn → Prop) (lf lg l : nat) (st : PyState) :
  Forall P (heap st l) → Forall P (heap (reversed lf lg st) l).
Proof.
  intros HP. destruct (reversed_heap_cases lf lg l st) as [->|[->| ->]];
    by rewrite ?Forall_reverse.
Qed.

Lemma prepare_spec (n : nat) (x1 x2 : Tensor) (sis variables : list Tensor) :
  NoDup (fs ++ gs) → sis ≡ₚ fs ++ gs →
  Forall (λ t, ∃ ref l r, parse_variable t = inr (ref, l, r) ∧ l < n) variables →
  ∃ fi gi,
    prepare n fs gs (x1 :: x2 :: sis) variables
    = inr (fi, gi,
           MkGroups (layer_vars true n variables) (layer_vars false n variables)
             ((λ l, (sel true l (enumerate variables)).*1) <$> seq 0 n)
             ((λ l, (sel false l (enumerate variables)).*1) <$> seq 0 n))
    ∧ length fi = length fs ∧ length gi = length gs
    ∧ idxs_filled fs (enumerate sis) (replicate (length fs) None) fi
    ∧ idxs_filled gs (enumerate sis) (replicate (length gs) None) gi.
Proof.
  intros Hnd Hperm Hall.
  pose proof Hnd as Hnd'.
  apply list.NoDup_app in Hnd' as (Hndf & Hdisj & Hndg).
  destruct (side_idxs_loop_spec fs gs Hndf Hndg Hdisj (enumerate sis)
              (replicate (length fs) None) (replicate (length gs) None))
    as (fi & gi & Hloop & Hl1 & Hl2 & HF & HG).
  { assert ((enumerate sis).*2 = sis) as ->.
    { unfold enumerate. rewrite fmap_imap. apply list_eq. intros i.
      rewrite list_lookup_imap. by destruct (sis !! i). }
    rewrite Hperm. done. }
  { apply list.Forall_forall. intros [i t] Hit. simpl.
    apply elem_of_enumerate in Hit. apply elem_of_app. rewrite <- Hperm.
    by eapply list_elem_of_lookup_2. }
  { by rewrite length_replicate. } { by rewrite length_replicate. }
  exists fi, gi. split; [|done].
  unfold prepare. change (drop 2 (x1 :: x2 :: sis)) with sis. unfold py_assert.
  rewrite bool_decide_true.
  2:{ apply Permutation_length in Hperm. rewrite length_app in Hperm. exact Hperm. }
  py_unfold. rewrite Hloop.
  rewrite (vars_loop_spec n); cbn [f_vars g_vars f_vars_idxs g_vars_idxs];
    rewrite ?length_replicate; try done.
  - by rewrite !imap_replicate_nil.
  - apply list.Forall_forall. intros [i t] Hit. simpl.
    apply elem_of_enumerate in Hit. by eapply Forall_lookup_1 in Hall.
Qed.

Lemma custom_grad_fn_spec (n : nat) (lf lg : nat) (x1 x2 : Tensor)
    (sis variables : list Tensor) (y1 y2 gy1 gy2 : Tensor) (st : PyState) :
  0 < n → NoDup (fs ++ gs) → sis ≡ₚ fs ++ gs →
  Forall (λ t, ∃ ref l r, parse_variable t = inr (ref, l, r) ∧ l < n) variables →
  length (layer_scopes st) = n →
  length (heap st lf) = n → length (heap st lg) = n →
  Forall differentiable (heap st lf) →
  Forall differentiable (heap st lg) →
  let st' := reversed lf lg st in
  ∃ cs x1' x2' gx1 gx2,
    backward_run fs gs (seq 0 n) (layer_scopes st') (heap st' lf) (heap st' lg)
      (reverse (layer_vars true n variables)) (reverse (layer_vars false n variables))
      y1 y2 gy1 gy2
    = Some (cs, (x1', x2', gx1, gx2))
    ∧ rev_block_custom_grad_fn n fs gs lf lg (x1 :: x2 :: sis) variables
        [y1; y2] [gy1; gy2] st
      = (st', inr ([Some gx1; Some gx2] ++ (side_grad fs gs cs <$> sis),
                   var_grad fs gs cs n <$> variables)).
Proof.
  intros Hn Hnd Hperm Hall Hsc Hlf Hlg Hdf Hdg st'.
  destruct (prepare_spec n x1 x2 sis variables Hnd Hperm Hall)
    as (fi & gi & Hprep & Hl1 & Hl2 & HF & HG).
  destruct (backward_run_is_Some fs gs (seq 0 n) (layer_scopes st')
              (heap st' lf) (heap st' lg)
              (reverse (layer_vars true n variables))
              (reverse (layer_vars false n variables)))
    with (y1 := y1) (y2 := y2) (gy1 := gy1) (gy2 := gy2)
    as [[cs [[[x1' x2'] gx1] gx2]] Hrun].
  { by apply reversed_heap_Forall. }
  { by apply reversed_heap_Forall. }
  { apply Forall_lookup. intros k i Hi. apply lookup_seq in Hi as [-> Hi].
    unfold st'. rewrite !reversed_heap_length, !length_reverse.
    unfold layer_vars. rewrite !length_fmap, !length_seq.
    simpl. rewrite length_reverse. lia. }
  exists cs, x1', x2', gx1, gx2. split; [done|].
  destruct (backward_run_lookup fs gs _ _ _ _ _ _ _ _ _ _ _ _ Hrun) as [Hlen Hlook].
  rewrite length_seq in Hlen.
  unfold rev_block_custom_grad_fn, reverse_at. py_unfold. rewrite Hprep.
  cbn [f_vars g_vars f_vars_idxs g_vars_idxs].
  fold (reversed lf lg st). fold st'.
  rewrite (backward_loop_spec fs gs _ _ _ _ _ _ _ _ _ _ _ _ _ _ _ _ Hrun).
  cbn [f_var_grads g_var_grads f_side_grads g_side_grads app].
  unfold place_gradients. cbn [f_var_grads g_var_grads f_side_grads g_side_grads
    f_vars_idxs g_vars_idxs drop]. py_unfold.
  rewrite (variables_scattered n variables cs Hlen Hall).
  2:{ intros j c Hc.
      assert (Hj : j < n). { rewrite <- Hlen. by eapply lookup_lt_Some. }
      destruct (Hlook j j c) as (_ & _ & _ & Hfv & Hgv); [|done|].
      { by apply lookup_seq_lt. }
      apply reverse_lookup_Some in Hfv as [Hfv _].
      apply reverse_lookup_Some in Hgv as [Hgv _].
      unfold layer_vars in Hfv, Hgv.
      rewrite length_fmap, length_seq, list_lookup_fmap, lookup_seq_lt in Hfv by lia.
      rewrite length_fmap, length_seq, list_lookup_fmap, lookup_seq_lt in Hgv by lia.
      simpl in Hfv, Hgv. by simplify_eq. }
  assert (Hne : cs ≠ []).
  { intros ->. simpl in Hlen. lia. }
  pose proof (sides_scattered sis cs fi gi Hnd Hperm Hne Hl1 Hl2 HF HG) as Hsides.
  change (drop 0 sis) with sis.
  destruct (scatter_opt (replicate (length sis) None) _) as [e|a]; [done|].
  rewrite Hsides. reflexivity.
Qed.

End Assemble.

Section Effects.

Context `{E : Engine}.

Lemma scatter_length {A : Type} (W : list (nat * A)) :
  ∀ arr arr', scatter arr W = inr arr' → length arr' = length arr.
Proof.
  induction W as [|[i v] W IH]; intros arr arr' Hrun.
  - simpl in Hrun. py_unfold. by simplify_eq.
  - cbn [scatter] in Hrun. unfold py_setitem in Hrun. py_unfold.
    case_bool_decide; [|done]. apply IH in Hrun. by rewrite length_insert in Hrun.
Qed.

Lemma scatter_opt_length {A : Type} (W : list (option nat * A)) :
  ∀ arr arr', scatter_opt arr W = inr arr' → length arr' = length arr.
Proof.
  induction W as [|[[i|] v] W IH]; intros arr arr' Hrun.
  - simpl in Hrun. py_unfold. by simplify_eq.
  - cbn [scatter_opt py_setitem_opt] in Hrun. unfold py_setitem in Hrun. py_unfold.
    case_bool_decide; [|done]. apply IH in Hrun. by rewrite length_insert in Hrun.
  - done.
Qed.

Lemma place_gradients_lengths (n_side n_vars : nat) (vg : VarGroups)
    (fi gi : list (option nat)) (c : Collected) (grad_ys : list Tensor)
    (g_in g_var : list (option Tensor)) :
  place_gradients n_side n_vars vg fi gi c grad_ys = inr (g_in, g_var) →
  length g_in = 2 + n_side ∧ length g_var = n_vars.
Proof.
  unfold place_gradients. py_unfold. intros Hrun.
  destruct (scatter _ _) as [e|vgs] eqn:Hv; [done|].
  destruct (scatter_opt _ (zip fi _)) as [e|s1] eqn:Hs1; [done|].
  destruct (scatter_opt s1 _) as [e|s2] eqn:Hs2; [done|].
  destruct (unpack2 grad_ys) as [e|[gx1 gx2]]; [done|]. simplify_eq.
  apply scatter_length in Hv. apply scatter_opt_length in Hs1, Hs2.
  rewrite length_replicate in Hv, Hs1. simpl. split; [|done]. lia.
Qed.

Lemma prepare_asserts (n : nat) (fs gs inputs variables : list Tensor) r :
  prepare n fs gs inputs variables = inr r →
  length (drop 2 inputs) = length fs + length gs.
Proof.
  unfold prepare, py_assert. py_unfold. case_bool_decide; done.
Qed.

(** The state the gradient function leaves: as it found it when the
    preparation raises, with the three lists reversed otherwise. *)
Lemma custom_grad_fn_state (n : nat) (fs gs : list Tensor) (lf lg : nat)
    (inputs variables ys grad_ys : list Tensor) (st : PyState) :
  match prepare n fs gs inputs variables with
  | inl e =>
      rev_block_custom_grad_fn n fs gs lf lg inputs variables ys grad_ys st
      = (st, inl e)
  | inr _ =>
      fst (rev_block_custom_grad_fn n fs gs lf lg inputs variables ys grad_ys st)
      = reversed lf lg st
  end.
Proof.
  unfold rev_block_custom_grad_fn, reverse_at. py_unfold.
  destruct (prepare n fs gs inputs variables) as [e|[[fi gi] vg]]; [done|].
  fold (reversed lf lg st).
  destruct (backward_loop _ _ _ _ _ _ _ _ _ _ _) as [e|[[ys' gys'] c]]; [done|].
  by destruct (place_gradients _ _ _ _ _ _ _).
Qed.

Lemma custom_grad_fn_lengths (n : nat) (fs gs : list Tensor) (lf lg : nat)
    (inputs variables ys grad_ys : list Tensor) (st st' : PyState)
    (g_in g_var : list (option Tensor)) :
  rev_block_custom_grad_fn n fs gs lf lg inputs variables ys grad_ys st
  = (st', inr (g_in, g_var)) →
  length g_in = 2 + length fs + length gs ∧ length g_var = length variables.
Proof.
  unfold rev_block_custom_grad_fn, reverse_at. py_unfold.
  destruct (prepare n fs gs inputs variables) as [e|[[fi gi] vg]] eqn:Hprep; [done|].
  apply prepare_asserts in Hprep.
  destruct (backward_loop _ _ _ _ _ _ _ _ _ _ _) as [e|[[ys' gys'] c]]; [done|].
  destruct (place_gradients _ _ _ _ _ _ _) as [e|[a b]] eqn:Hplace; [done|].
  intros Heq. simplify_eq. apply place_gradients_lengths in Hplace. lia.
Qed.

Lemma vars_loop_raises (items : list (nat * Tensor)) :
  ∀ vg, (∃ it e, it ∈ items ∧ parse_variable it.2 = inl e) →
        ∃ e, vars_loop items vg = inl e.
Proof.
  induction items as [|[i t] items IH]; intros vg (it & e & Hin & Hp).
  - inversion Hin.
  - cbn [vars_loop]. py_unfold.
    destruct (parse_variable t) as [e'|[[ref l] r]] eqn:Hpt; [eauto|].
    assert (Hrest : ∃ it e, it ∈ items ∧ parse_variable it.2 = inl e).
    { apply elem_of_cons in Hin as [->|Hin]; [simpl in Hp; congruence|eauto]. }
    cbn beta iota.
    case_bool_decide.
    + destruct (py_append_at (f_vars vg) l ref); [eauto|].
      destruct (py_append_at (f_vars_idxs vg) l i); [eauto|]. by apply IH.
    + destruct (py_assert _); [eauto|].
      destruct (py_append_at (g_vars vg) l ref); [eauto|].
      destruct (py_append_at (g_vars_idxs vg) l i); [eauto|]. by apply IH.
Qed.

Lemma prepare_raises (n : nat) (fs gs inputs variables : list Tensor) :
  (∃ t e, t ∈ variables ∧ parse_variable t = inl e) →
  ∃ e, prepare n fs gs inputs variables = inl e.
Proof.
  intros (t & e & Hin & Hp). unfold prepare. py_unfold.
  destruct (py_assert _); [eauto|].
  destruct (side_idxs_loop _ _ _ _ _) as [|[fi gi]]; [eauto|].
  destruct (vars_loop_raises (enumerate variables)
              (MkGroups (replicate n []) (replicate n []) (replicate n [])
                        (replicate n []))) as [e' He'].
  { apply list_elem_of_lookup_1 in Hin as [i Hi].
    exists (i, t), e. split; [|done]. by apply elem_of_enumerate. }
  rewrite He'. eauto.
Qed.

(** The gradient function the wrapper installs runs the one it was given on
    slices of [op.inputs], in the same state. *)
Lemma defun_custom_grad_fn_inner (grad_fn : GradFn) (n_in n_vars n_out : nat)
    (cur : VarScope) (op_inputs dys : list Tensor) (st st' : PyState)
    (res : list (option Tensor)) :
  defun_custom_grad_fn grad_fn n_in n_vars n_out cur op_inputs dys st = (st', inr res) →
  ∃ g_in g_var,
    grad_fn cur (take n_in op_inputs) (drop n_in (take (n_in + n_vars) op_inputs))
            (drop (n_in + n_vars) op_inputs) dys st
    = (st', inr (g_in, g_var))
    ∧ res = g_in ++ g_var
            ++ replicate (length (drop (n_in + n_vars) op_inputs)) None
    ∧ length (drop (n_in + n_vars) op_inputs) = n_out
    ∧ length dys = n_out.
Proof.
  unfold defun_custom_grad_fn, py_assert. py_unfold.
  case_bool_decide as H1; [|done]. case_bool_decide as H2; [|done].
  destruct (grad_fn _ _ _ _ _ _) as [st1 [e|[g_in g_var]]]; [done|].
  intros Heq. simplify_eq. exists g_in, g_var. by rewrite <- H2.
Qed.



(** [rev_block] in training mode, on arguments that pass the checks: what
    it returns and the gradient function it installs. *)
Lemma rev_block_installs (cur : VarScope) (rand : nat) (x1 x2 : Tensor)
    (f g : FnArg) (num_layers : nat) (fso gso : option (list Tensor))
    (st : PyState) :
  arg_valid st f → arg_valid st g →
  arg_ok st num_layers f → arg_ok st num_layers g →
  let lf := match f with FnList l => l | OneFn _ => next_loc st end in
  let lg := match g with
            | FnList l => l
            | OneFn _ => match f with
                         | FnList _ => next_loc st
                         | OneFn _ => S (next_loc st)
                         end
            end in
  ∃ out d st1,
    rev_block cur rand x1 x2 f g num_layers fso gso true st = (st1, inr (out, Some d))
    ∧ (∀ l, l < next_loc st → heap st1 l = heap st l)
    ∧ length (heap st1 lf) = num_layers ∧ length (heap st1 lg) = num_layers
    ∧ df_python_grad_func d
      = defun_custom_grad_fn
          (λ _, rev_block_custom_grad_fn num_layers (default [] fso) (default [] gso)
                  lf lg)
          (length (x1 :: x2 :: default [] fso ++ default [] gso))
          (length (block_variables (default_scope cur "fn_with_custom_grad")
                     (heap st1 lf) (heap st1 lg) num_layers))
          2.
Proof.
  intros Hvf Hvg Hf Hg lf lg. unfold rev_block.
  destruct (as_layer_list_good st num_layers f Hf)
    as (st1 & lf' & Ef & Hlf & Hsc1 & Hnx1 & Hfr1 & Hshape1).
  assert (Hlf' : lf' = lf).
  { destruct f; simpl in Hshape1; [by destruct Hshape1|by destruct Hshape1]. }
  subst lf'.
  assert (Hg1 : arg_ok st1 num_layers g).
  { destruct g as [|l]; simpl in *; [done|]. by rewrite Hfr1. }
  destruct (as_layer_list_good st1 num_layers g Hg1)
    as (st2 & lg' & Eg & Hlg & Hsc2 & Hnx2 & Hfr2 & Hshape2).
  assert (Hlg' : lg' = lg).
  { destruct g as [g0|l]; simpl in Hshape2; [|by destruct Hshape2].
    destruct Hshape2 as (-> & _ & _).
    destruct f as [f0|l0]; simpl in Hshape1.
    - by destruct Hshape1 as (_ & _ & ->).
    - by destruct Hshape1 as (_ & ->). }
  subst lg'.
  assert (Hlf2 : heap st2 lf = heap st1 lf).
  { destruct g as [g0|l]; simpl in Hshape2.
    - apply Hfr2. destruct f as [f0|l0]; simpl in *.
      + destruct Hshape1 as (_ & _ & ->). lia.
      + destruct Hshape1 as (_ & ->). done.
    - by destruct Hshape2 as (_ & ->). }
  set (st3 := set_layer_scopes [] st2).
  destruct (rev_block_wrapped cur rand x1 x2 num_layers (default [] fso)
              (default [] gso) lf lg true
              (Some (λ _ : VarScope,
                       rev_block_custom_grad_fn num_layers (default [] fso)
                         (default [] gso) lf lg)) st3)
    as (y1 & y2 & Hw).
  { simpl. by rewrite Hlf2. } { done. }
  py_unfold. rewrite Ef, Eg. fold st3. rewrite Hw.
  eexists _, _, _. split; [reflexivity|]. simpl.
  split; [|split; [by rewrite Hlf2|split; [done|reflexivity]]].
  intros l Hl. rewrite Hfr2 by lia. by apply Hfr1.
Qed.




End Effects.

Section BlockProperties.

Context `{E : Engine}.

(** C1. The gradient function of the block returns, whenever it returns,
    [2 + len(f_side_input) + len(g_side_input)] gradients for the inputs
    and one gradient per variable passed in.  With one layer or more,
    side inputs that are distinct tensors (in any order in the flat list),
    variables whose names give a layer below [num_layers], and
    sub-functions the engine can differentiate with respect to their
    input, it does return, and position by position: the gradients of the
    inputs are those of [x1] and [x2] followed by [side_grad] of each side
    input in the order given, the gradients of the variables are
    [var_grad] of each variable in the order given, where [cs] are the
    calls of [_rev_layer_backward] made from the last layer to the first. *)
Theorem custom_grad_fn_counts_and_order (num_layers : nat)
    (f_side_input g_side_input : list Tensor) (f g : nat) :
  (∀ (inputs variables ys grad_ys : list Tensor) (st st' : PyState)
     (g_in g_var : list (option Tensor)),
     rev_block_custom_grad_fn num_layers f_side_input g_side_input f g
       inputs variables ys grad_ys st = (st', inr (g_in, g_var)) →
     length g_in = 2 + length f_side_input + length g_side_input
     ∧ length g_var = length variables)
  ∧ (∀ (x1 x2 : Tensor) (side_inputs variables : list Tensor)
       (y1 y2 gy1 gy2 : Tensor) (st : PyState),
       0 < num_layers →
       NoDup (f_side_input ++ g_side_input) →
       side_inputs ≡ₚ f_side_input ++ g_side_input →
       Forall (λ t, ∃ ref l r, parse_variable t = inr (ref, l, r) ∧ l < num_layers)
              variables →
       length (layer_scopes st) = num_layers →
       length (heap st f) = num_layers → length (heap st g) = num_layers →
       Forall differentiable (heap st f) → Forall differentiable (heap st g) →
       let st' := reversed f g st in
       ∃ cs x1' x2' gx1 gx2,
         backward_run f_side_input g_side_input (seq 0 num_layers)
           (layer_scopes st') (heap st' f) (heap st' g)
           (reverse (layer_vars true num_layers variables))
           (reverse (layer_vars false num_layers variables)) y1 y2 gy1 gy2
         = Some (cs, (x1', x2', gx1, gx2))
         ∧ rev_block_custom_grad_fn num_layers f_side_input g_side_input f g
             (x1 :: x2 :: side_inputs) variables [y1; y2] [gy1; gy2] st
           = (st', inr ([Some gx1; Some gx2]
                        ++ (side_grad f_side_input g_side_input cs <$> side_inputs),
                        var_grad f_side_input g_side_input cs num_layers
                          <$> variables))).
Proof.
  split.
  - intros inputs variables ys grad_ys st st' g_in g_var Hrun.
    by eapply custom_grad_fn_lengths.
  - intros x1 x2 side_inputs variables y1 y2 gy1 gy2 st.
    by apply custom_grad_fn_spec.
Qed.

(** C7, as the code has it.  A variable whose name [LAYER_RE] does not
    match makes the gradient function raise: it returns no gradients, and
    the state is as it was (the lists are not yet reversed).  When the
    variables before it are attributed, the exception is the
    AttributeError of [regex.group], on a match that is None. *)
Theorem custom_grad_fn_unmatched_name (num_layers : nat)
    (f_side_input g_side_input : list Tensor) (f g : nat)
    (inputs variables ys grad_ys : list Tensor) (st : PyState)
    (t ref : Tensor) :
  t ∈ variables → variable_ref t = Some ref →
  LAYER_RE_match (tensor_name ref) = None →
  parse_variable t
  = inl (AttributeError "'NoneType' object has no attribute 'group'")
  ∧ ∃ e, rev_block_custom_grad_fn num_layers f_side_input g_side_input f g
           inputs variables ys grad_ys st = (st, inl e).
Proof.
  intros Hin Href Hm.
  assert (Hp : parse_variable t
               = inl (AttributeError "'NoneType' object has no attribute 'group'")).
  { unfold parse_variable. by rewrite Href, Hm. }
  split; [done|].
  destruct (prepare_raises num_layers f_side_input g_side_input inputs variables)
    as [e He]; [eauto|].
  exists e.
  pose proof (custom_grad_fn_state num_layers f_side_input g_side_input f g
                inputs variables ys grad_ys st) as Hst.
  by rewrite He in Hst.
Qed.


End BlockProperties.

(** ** Values *)

Section Values.

Context `{E : Engine} {V : Type} `{!Exact V} `{!Valuation V}.

Lemma variable_scope_name (cur cur' : VarScope) (name : string) :
  vs_name cur = vs_name cur' →
  vs_name (variable_scope cur name) = vs_name (variable_scope cur' name).
Proof. intros Heq. unfold variable_scope. simpl. by rewrite Heq. Qed.

Lemma val_stop_list (l : list Tensor) : val <$> (tf_stop_gradient <$> l) = val <$> l.
Proof.
  rewrite <- list_fmap_compose. apply list_fmap_ext. intros i x _. simpl.
  apply val_stop_gradient.
Qed.

Lemma reconstruct_values (cur cur' : VarScope) (x1 x2 y1 y2 : Tensor) (f g : SubFn)
    (fs gs : list Tensor) :
  respects_values f → respects_values g → vs_name cur = vs_name cur' →
  val y1 = vadd (val x1) (val (call_with_side f (variable_scope cur "f") x2 fs)) →
  val y2 = vadd (val x2) (val (call_with_side g (variable_scope cur "g") y1 gs)) →
  val (rc_x1 (reconstruct cur' y1 y2 f g fs gs)) = val x1
  ∧ val (rc_x2 (reconstruct cur' y1 y2 f g fs gs)) = val x2.
Proof.
  intros Hf Hg Hname Hy1 Hy2. unfold reconstruct. cbn [rc_x1 rc_x2].
  assert (Hx2 : val (tf_sub y2 (call_with_side g (variable_scope cur' "g")
                        (tf_stop_gradient y1) (tf_stop_gradient <$> gs))) = val x2).
  { rewrite val_sub, Hy2.
    rewrite (Hg (variable_scope cur' "g") (variable_scope cur "g")
               (tf_stop_gradient y1) y1 (tf_stop_gradient <$> gs) gs).
    - apply vsub_vadd.
    - symmetry. by apply variable_scope_name.
    - apply val_stop_gradient.
    - apply val_stop_list. }
  split; [|done].
  rewrite val_sub, Hy1.
  match goal with
  | |- vsub _ (val (call_with_side f _ ?a _)) = _ =>
      rewrite (Hf (variable_scope cur' "f") (variable_scope cur "f") a x2
                 (tf_stop_gradient <$> fs) fs)
  end.
  - apply vsub_vadd.
  - symmetry. by apply variable_scope_name.
  - by rewrite val_stop_gradient.
  - apply val_stop_list.
Qed.

Lemma rev_layer_forward_values (cur : VarScope) (x1 x2 : Tensor) (f g : SubFn)
    (fs gs : list Tensor) (gate : bool) :
  respects_values g →
  ∃ y1 y2,
    _rev_layer_forward cur [x1; x2] f g fs gs gate = inr [y1; y2]
    ∧ val y1 = vadd (val x1) (val (call_with_side f (variable_scope cur "f") x2 fs))
    ∧ val y2 = vadd (val x2) (val (call_with_side g (variable_scope cur "g") y1 gs)).
Proof.
  intros Hg. unfold _rev_layer_forward. cbn [unpack2]. py_unfold. cbn beta iota.
  destruct gate.
  - eexists _, _. split; [reflexivity|].
    rewrite !val_with_dependencies, !val_add. split; [done|].
    f_equal. apply Hg; [done| |done].
    by rewrite val_with_dependencies, val_add.
  - eexists _, _. split; [reflexivity|]. by rewrite !val_add.
Qed.

(** C2. One reversible layer forward, then the reconstruction of its inputs
    by the backward pass, gives back the values of [x1] and [x2]: for the
    tensors [x1] and [x2] of lines 600 and 606, and for the pair
    [_rev_layer_backward] returns whenever it returns.  The sub-functions
    are any two whose values depend on the values of their arguments (and
    on their scope's name); the arithmetic is exact. *)
Theorem rev_layer_round_trip (cur cur' : VarScope) (x1 x2 : Tensor) (f g : SubFn)
    (f_side_input g_side_input : list Tensor) (gate_outputs : bool) :
  respects_values f → respects_values g → vs_name cur = vs_name cur' →
  ∃ y1 y2,
    _rev_layer_forward cur [x1; x2] f g f_side_input g_side_input gate_outputs
    = inr [y1; y2]
    ∧ val (rc_x1 (reconstruct cur' y1 y2 f g f_side_input g_side_input)) = val x1
    ∧ val (rc_x2 (reconstruct cur' y1 y2 f g f_side_input g_side_input)) = val x2
    ∧ ∀ (grad_ys f_vars g_vars xs grad_xs : list Tensor) f_ret g_ret,
        _rev_layer_backward cur' [y1; y2] grad_ys f g f_vars f_side_input
                            g_vars g_side_input
        = inr (xs, grad_xs, f_ret, g_ret) →
        val <$> xs = [val x1; val x2].
Proof.
  intros Hf Hg Hname.
  destruct (rev_layer_forward_values cur x1 x2 f g f_side_input g_side_input
              gate_outputs Hg) as (y1 & y2 & Hfwd & Hy1 & Hy2).
  destruct (reconstruct_values cur cur' x1 x2 y1 y2 f g f_side_input g_side_input
              Hf Hg Hname Hy1 Hy2) as [Hx1 Hx2].
  exists y1, y2. split; [done|]. split; [done|]. split; [done|].
  intros grad_ys f_vars g_vars xs grad_xs f_ret g_ret Hback.
  unfold _rev_layer_backward in Hback. cbn [unpack2] in Hback. py_unfold.
  cbn beta iota in Hback.
  set (r := reconstruct cur' y1 y2 f g f_side_input g_side_input) in *.
  clearbody r.
  destruct (unpack2 grad_ys) as [e|[gy1 gy2]]; [done|]. cbn beta iota in Hback.
  destruct (tensor_add (Some gy1) _) as [e|gx1]; [done|].
  destruct (tensor_add _ (Some gy2)) as [e|s]; [done|].
  destruct (tensor_add (Some s) _) as [e|gx2]; [done|].
  match type of Hback with
  | context [tf_tuple (?h ++ ?T)] => set (T' := T) in Hback
  end.
  unfold tf_tuple in Hback. cbn zeta in Hback.
  set (deps := omap id _) in Hback.
  rewrite fmap_app in Hback. simpl in Hback.
  simplify_eq. cbn [fmap list_fmap].
  by rewrite !val_with_dependencies, Hx1, Hx2.
Qed.

(** *** Constant-zero sub-functions *)

Lemma zero_fn_differentiable (f : SubFn) : zero_fn f → differentiable f.
Proof.
  intros Hz sc x side seed. destruct (Hz sc x side) as [_ Hd].
  destruct (Hd seed) as (d & -> & _). eauto.
Qed.

Lemma zero_fn_respects (f : SubFn) : zero_fn f → respects_values f.
Proof.
  intros Hz sc sc' x x' side side' _ _ _.
  by rewrite (proj1 (Hz sc x side)), (proj1 (Hz sc' x' side')).
Qed.

Lemma lc_out_zero (fs gs : list Tensor) (c : LayerCtx) x1 x2 gx1 gx2 :
  zero_fn (lc_f c) → zero_fn (lc_g c) →
  lc_out fs gs c = Some (x1, x2, gx1, gx2) →
  val gx1 = val (lc_grad_y1 c) ∧ val gx2 = val (lc_grad_y2 c).
Proof.
  intros Hf Hg. unfold lc_out, lc_grad_xs, lc_d, lc_gate.
  set (r := lc_rec fs gs c).
  assert (Hgy : ∀ seed, ∃ d, dydx [rc_gy1 r] [seed] (rc_y1_stop r) = Some d
                             ∧ val d = vzero).
  { intros seed. apply (Hg _ (tf_stop_gradient (lc_y1 c)) (tf_stop_gradient <$> gs)). }
  assert (Hfx : ∀ seed, ∃ d, dydx [rc_fx2 r] [seed] (rc_x2_stop r) = Some d
                             ∧ val d = vzero).
  { intros seed. apply (Hf _ (rc_x2_stop r) (tf_stop_gradient <$> fs)). }
  destruct (Hgy (lc_grad_y2 c)) as (d & -> & Hd). cbn [mbind option_bind].
  destruct (Hfx (lc_grad_y1 c)) as (a & -> & Ha). cbn [mbind option_bind].
  destruct (Hfx d) as (b & -> & Hb). cbn [mbind option_bind].
  intros Heq. simplify_eq.
  rewrite !val_with_dependencies, !val_add, Hd, Ha, Hb.
  by rewrite !vadd_zero_r, vadd_zero_l.
Qed.

(** The zero coupling, for sub-functions that are zero and that the engine
    differentiates to a zero tensor (as [0 * x]): a block of one layer
    returns tensors with the values of [x1] and [x2], and the gradient
    function returns, for the two inputs, tensors with the values of the
    incoming [grad_y1] and [grad_y2]. *)
Theorem rev_block_zero_coupling (f g : SubFn) :
  zero_fn f → zero_fn g →
  (∀ (cur : VarScope) (x1 x2 : Tensor) (record gate : bool) (st : PyState),
     ∃ y1 y2 st',
       _rev_block_forward cur x1 x2 [f] [g] 1 [] [] record gate st
       = (st', inr (y1, y2))
       ∧ val y1 = val x1 ∧ val y2 = val x2)
  ∧ (∀ (lf lg : nat) (x1 x2 y1 y2 gy1 gy2 : Tensor) (st : PyState),
       heap st lf = [f] → heap st lg = [g] → length (layer_scopes st) = 1 →
       ∃ st' gx1 gx2,
         rev_block_custom_grad_fn 1 [] [] lf lg [x1; x2] [] [y1; y2] [gy1; gy2] st
         = (st', inr ([Some gx1; Some gx2], []))
         ∧ val gx1 = val gy1 ∧ val gx2 = val gy2).
Proof.
  intros Hf Hg. split.
  - intros cur x1 x2 record gate st.
    unfold _rev_block_forward. cbn [seq rev_block_forward_loop]. py_unfold.
    unfold py_index. cbn [lookup list_lookup].
    destruct (rev_layer_forward_values
                (variable_scope (default_scope cur "revblock") ("revlayer_" +:+ pretty 0))
                x1 x2 f g [] [] gate (zero_fn_respects g Hg))
      as (y1 & y2 & Hfwd & Hy1 & Hy2).
    rewrite (proj1 (Hf _ _ _)), vadd_zero_r in Hy1.
    rewrite (proj1 (Hg _ _ _)), vadd_zero_r in Hy2.
    exists y1, y2. destruct record; simpl; rewrite Hfwd; simpl; eauto.
  - intros lf lg x1 x2 y1 y2 gy1 gy2 st Hlf Hlg Hsc.
    assert (H1 : 0 < 1) by lia.
    assert (H2 : NoDup ([] ++ [] : list Tensor)) by constructor.
    assert (H3 : ([] : list Tensor) ≡ₚ [] ++ []) by done.
    assert (H4 : Forall (λ t, ∃ ref l r, parse_variable t = inr (ref, l, r) ∧ l < 1)
                        ([] : list Tensor)) by constructor.
    assert (H5 : length (heap st lf) = 1) by (by rewrite Hlf).
    assert (H6 : length (heap st lg) = 1) by (by rewrite Hlg).
    assert (H7 : Forall differentiable (heap st lf)).
    { rewrite Hlf. repeat constructor. by apply zero_fn_differentiable. }
    assert (H8 : Forall differentiable (heap st lg)).
    { rewrite Hlg. repeat constructor. by apply zero_fn_differentiable. }
    destruct (custom_grad_fn_spec [] [] 1 lf lg x1 x2 [] [] y1 y2 gy1 gy2 st
                H1 H2 H3 H4 Hsc H5 H6 H7 H8)
      as (cs & x1' & x2' & gx1 & gx2 & Hrun & Hres).
    exists (reversed lf lg st), gx1, gx2. split; [exact Hres|].
    assert (Hf' : heap (reversed lf lg st) lf = [f]).
    { destruct (reversed_heap_cases lf lg lf st) as [->|[->| ->]]; by rewrite Hlf. }
    assert (Hg' : heap (reversed lf lg st) lg = [g]).
    { destruct (reversed_heap_cases lf lg lg st) as [->|[->| ->]]; by rewrite Hlg. }
    rewrite Hf', Hg' in Hrun. cbn [seq backward_run] in Hrun.
    destruct (layer_scopes (reversed lf lg st) !! 0) as [sc|]; [|done].
    cbn [lookup list_lookup mbind option_bind] in Hrun.
    destruct (reverse (layer_vars true 1 []) !! 0) as [fv|]; [|done].
    destruct (reverse (layer_vars false 1 []) !! 0) as [gv|]; [|done].
    cbn [mbind option_bind] in Hrun.
    destruct (lc_out [] [] _) as [[[[z1 z2] gz1] gz2]|] eqn:Hout; [|done].
    cbn [mbind option_bind] in Hrun. simplify_eq.
    by apply lc_out_zero in Hout.
Qed.

(** *** Accumulated gradients of the side inputs *)

Lemma backward_run_outs (fs gs : list Tensor) (layers : list nat)
    (scopes : list VarScope) (f g : list SubFn) (f_vars g_vars : list (list Tensor)) :
  ∀ y1 y2 gy1 gy2 cs fin,
    backward_run fs gs layers scopes f g f_vars g_vars y1 y2 gy1 gy2 = Some (cs, fin) →
    Forall (λ c, is_Some (lc_out fs gs c)) cs.
Proof.
  induction layers as [|i layers IH]; intros y1 y2 gy1 gy2 cs fin Hrun.
  - simpl in Hrun. simplify_eq. constructor.
  - cbn [backward_run] in Hrun.
    destruct (scopes !! i) as [sc|]; [|done].
    destruct (f !! i) as [fi|]; [|done].
    destruct (g !! i) as [gi|]; [|done].
    destruct (f_vars !! i) as [fv|]; [|done].
    destruct (g_vars !! i) as [gv|]; [|done].
    cbn [mbind option_bind] in Hrun.
    destruct (lc_out fs gs _) as [[[[z1 z2] gz1] gz2]|] eqn:Hout; [|done].
    cbn [mbind option_bind] in Hrun.
    destruct (backward_run fs gs layers scopes f g f_vars g_vars z1 z2 gz1 gz2)
      as [[cs' fin']|] eqn:Hrest; [|done].
    cbn [mbind option_bind] in Hrun. simplify_eq.
    constructor; [by rewrite Hout|]. by eapply IH.
Qed.

Lemma backward_run_head (fs gs : list Tensor) (layers : list nat)
    (scopes : list VarScope) (f g : list SubFn) (f_vars g_vars : list (list Tensor))
    (y1 y2 gy1 gy2 : Tensor) (c : LayerCtx) (cs : list LayerCtx) fin :
  backward_run fs gs layers scopes f g f_vars g_vars y1 y2 gy1 gy2
  = Some (c :: cs, fin) →
  lc_y1 c = y1 ∧ lc_y2 c = y2 ∧ lc_grad_y1 c = gy1 ∧ lc_grad_y2 c = gy2.
Proof.
  destruct layers as [|i layers]; [done|]. cbn [backward_run].
  destruct (scopes !! i) as [sc|]; [|done].
  destruct (f !! i) as [fi|]; [|done].
  destruct (g !! i) as [gi|]; [|done].
  destruct (f_vars !! i) as [fv|]; [|done].
  destruct (g_vars !! i) as [gv|]; [|done].
  cbn [mbind option_bind].
  destruct (lc_out fs gs _) as [[[[z1 z2] gz1] gz2]|]; [|done].
  cbn [mbind option_bind].
  destruct (backward_run fs gs layers scopes f g f_vars g_vars z1 z2 gz1 gz2)
    as [[cs' fin']|]; [|done].
  cbn [mbind option_bind]. intros Heq. by simplify_eq.
Qed.

Lemma vsum_omap (col : list (option Tensor)) :
  vsum (val <$> omap id col) = vsum (oval <$> col).
Proof.
  induction col as [|[t|] col IH]; [done| |].
  - change (omap id (Some t :: col)) with (t :: omap id col).
    rewrite !fmap_cons. unfold vsum in *. cbn [foldr]. by rewrite IH.
  - change (omap id (None :: col)) with (omap id col).
    rewrite !fmap_cons. unfold vsum in *. cbn [foldr oval].
    by rewrite vadd_zero_l.
Qed.

Lemma oval_acc_column (col : list (option Tensor)) :
  oval (acc_column col) = vsum (oval <$> col).
Proof.
  rewrite <- vsum_omap. unfold acc_column.
  destruct (omap id col) as [|t ts]; [done|]. simpl. by rewrite val_add_n.
Qed.

Lemma acc_column_None (col : list (option Tensor)) :
  acc_column col = None ↔ Forall (λ o, o = None) col.
Proof.
  unfold acc_column. split.
  - intros Hn. destruct (omap id col) as [|t ts] eqn:Hcol; [|done].
    apply list.Forall_forall. intros [t|] Hin; [|done].
    assert (t ∈ omap id col) as Ht by (apply list_elem_of_omap; eauto).
    rewrite Hcol in Ht. inversion Ht.
  - intros Hall. destruct (omap id col) as [|t ts] eqn:Hcol; [done|].
    assert (t ∈ omap id col) as Ht by (rewrite Hcol; left).
    apply list_elem_of_omap in Ht as (o & Hin & Ho).
    rewrite list.Forall_forall in Hall. apply Hall in Hin. by subst.
Qed.

(** The accumulation of the gradients of side inputs.  [_acc_grads]
    never raises: each of its entries is the sum of the entries of one
    column that are not None, a None counting for zero (and None when the
    whole column is None).  With sub-functions the engine differentiates
    with respect to their input, the gradient the block returns for a
    side input is that of the column of what the calls of
    [_rev_layer_backward] return for it, one call per layer; for three
    layers that share the one side input [s] of a [g] whose value is [s]
    (as [s + 0 * y1]), its value is the sum of the [grad_y2] the three
    calls are made with. *)
Theorem side_input_grads_accumulate :
  (∀ (lists : list (list (option Tensor))) (j : nat) (col : list (option Tensor)),
     zip_star lists !! j = Some col →
     _acc_grads lists !! j = Some (acc_column col)
     ∧ oval (acc_column col) = vsum (oval <$> col)
     ∧ (acc_column col = None ↔ Forall (λ o, o = None) col))
  ∧ (∀ (num_layers : nat) (f_side_input g_side_input : list Tensor) (f g : nat)
       (x1 x2 : Tensor) (side_inputs variables : list Tensor)
       (y1 y2 gy1 gy2 : Tensor) (st : PyState),
       0 < num_layers →
       NoDup (f_side_input ++ g_side_input) →
       side_inputs ≡ₚ f_side_input ++ g_side_input →
       Forall (λ t, ∃ ref l r, parse_variable t = inr (ref, l, r) ∧ l < num_layers)
              variables →
       length (layer_scopes st) = num_layers →
       length (heap st f) = num_layers → length (heap st g) = num_layers →
       Forall differentiable (heap st f) → Forall differentiable (heap st g) →
       ∃ cs st' gx1 gx2 g_var,
         rev_block_custom_grad_fn num_layers f_side_input g_side_input f g
           (x1 :: x2 :: side_inputs) variables [y1; y2] [gy1; gy2] st
         = (st', inr ([Some gx1; Some gx2]
                      ++ (side_grad f_side_input g_side_input cs <$> side_inputs),
                      g_var))
         ∧ length cs = num_layers
         ∧ Forall (λ c, ∃ xs gxs fv gv,
                     layer_call f_side_input g_side_input c
                     = inr (xs, gxs,
                            (fv, f_grad f_side_input g_side_input c
                                   <$> (tf_stop_gradient <$> f_side_input)),
                            (gv, g_grad f_side_input g_side_input c
                                   <$> (tf_stop_gradient <$> g_side_input)))) cs
         ∧ ∀ t, oval (side_grad f_side_input g_side_input cs t)
                = vsum ((λ c, oval (contribution f_side_input g_side_input c t))
                        <$> cs))
  ∧ (∀ (f g : nat) (x1 x2 s : Tensor) (variables : list Tensor)
       (y1 y2 gy1 gy2 : Tensor) (st : PyState),
       Forall (λ t, ∃ ref l r, parse_variable t = inr (ref, l, r) ∧ l < 3) variables →
       length (layer_scopes st) = 3 →
       length (heap st f) = 3 → length (heap st g) = 3 →
       Forall differentiable (heap st f) → Forall differentiable (heap st g) →
       Forall selects_side (heap st g) →
       ∃ c3 c2 c1 fin st' gx1 gx2 gs_grad g_var,
         rev_block_custom_grad_fn 3 [] [s] f g [x1; x2; s] variables
           [y1; y2] [gy1; gy2] st
         = (st', inr ([Some gx1; Some gx2; gs_grad], g_var))
         ∧ backward_run [] [s] [0; 1; 2] (layer_scopes st') (heap st' f) (heap st' g)
             (reverse (layer_vars true 3 variables))
             (reverse (layer_vars false 3 variables)) y1 y2 gy1 gy2
           = Some ([c3; c2; c1], fin)
         ∧ lc_grad_y2 c3 = gy2
         ∧ oval gs_grad
           = vadd (val (lc_grad_y2 c3))
               (vadd (val (lc_grad_y2 c2)) (vadd (val (lc_grad_y2 c1)) vzero))).
Proof.
  split; [|split].
  - intros lists j col Hcol. split; [|split].
    + unfold _acc_grads. rewrite list_lookup_fmap, Hcol. simpl. f_equal.
      unfold acc_column. by destruct (omap id col).
    + apply oval_acc_column.
    + apply acc_column_None.
  - intros num_layers fs gs f g x1 x2 sis variables y1 y2 gy1 gy2 st
      Hn Hnd Hperm Hall Hsc Hlf Hlg Hdf Hdg.
    destruct (custom_grad_fn_spec fs gs num_layers f g x1 x2 sis variables
                y1 y2 gy1 gy2 st Hn Hnd Hperm Hall Hsc Hlf Hlg Hdf Hdg)
      as (cs & x1' & x2' & gx1 & gx2 & Hrun & Hres).
    exists cs, (reversed f g st), gx1, gx2, (var_grad fs gs cs num_layers <$> variables).
    split; [exact Hres|].
    destruct (backward_run_lookup fs gs _ _ _ _ _ _ _ _ _ _ _ _ Hrun) as [Hlen _].
    rewrite length_seq in Hlen. split; [done|]. split.
    + eapply list.Forall_impl; [exact (backward_run_outs fs gs _ _ _ _ _ _ _ _ _ _ _ _ Hrun)|].
      intros c Hsome. destruct Hsome as [[[[z1 z2] gz1] gz2] Hout].
      rewrite layer_call_spec, Hout. eauto.
    + intros t. unfold side_grad, contribution.
      case_bool_decide; rewrite oval_acc_column, <- list_fmap_compose; done.
  - intros f g x1 x2 s variables y1 y2 gy1 gy2 st Hall Hsc Hlf Hlg Hdf Hdg Hsel.
    assert (H1 : 0 < 3) by lia.
    assert (H2 : NoDup ([] ++ [s])) by (apply NoDup_singleton).
    assert (H3 : [s] ≡ₚ [] ++ [s]) by done.
    destruct (custom_grad_fn_spec [] [s] 3 f g x1 x2 [s] variables
                y1 y2 gy1 gy2 st H1 H2 H3 Hall Hsc Hlf Hlg Hdf Hdg)
      as (cs & x1' & x2' & gx1 & gx2 & Hrun & Hres).
    destruct (backward_run_lookup [] [s] _ _ _ _ _ _ _ _ _ _ _ _ Hrun) as [Hlen Hlook].
    destruct cs as [|c3 [|c2 [|c1 [|? ?]]]]; try done.
    exists c3, c2, c1, (x1', x2', gx1, gx2), (reversed f g st), gx1, gx2,
      (side_grad [] [s] [c3; c2; c1] s), (var_grad [] [s] [c3; c2; c1] 3 <$> variables).
    split; [exact Hres|]. split; [exact Hrun|]. split.
    { by apply backward_run_head in Hrun as (_ & _ & _ & ?). }
    assert (Hg : ∀ j c, [c3; c2; c1] !! j = Some c →
              oval (g_grad [] [s] c (tf_stop_gradient s)) = val (lc_grad_y2 c)).
    { intros j c Hc.
      assert (Hj : j < 3) by (by apply lookup_lt_Some in Hc).
      destruct (Hlook j j c) as (_ & _ & Hgc & _); [by apply lookup_seq_lt|done|].
      assert (Hs : selects_side (lc_g c)).
      { eapply Forall_lookup_1; [|exact Hgc]. by apply reversed_heap_Forall. }
      unfold g_grad, raw_g_grad, lc_rec, reconstruct. cbn [rc_gy1].
      cbn [fmap list_fmap call_with_side].
      destruct (Hs (variable_scope (variable_scope_reuse (lc_scope c)) "g")
                   (lc_y1 c) s) as [_ Hd].
      destruct (Hd (lc_grad_y2 c)) as (d & -> & Hval). simpl.
      unfold lc_gate. by rewrite val_with_dependencies. }
    unfold side_grad. rewrite bool_decide_false by (by intros Hin; inversion Hin).
    rewrite oval_acc_column. cbn [fmap list_fmap vsum foldr].
    by rewrite (Hg 0 c3), (Hg 1 c2), (Hg 2 c1).
Qed.

End Values.

(** * [recompute_grad] *)

Section Recompute.
Context `{E : Engine}.

(** [_recompute_grad] on a function that returns a list or tuple of
    tensors: what it returns and the gradient function it installs. *)
Lemma recompute_grad_installs (cur : VarScope) (rand : nat) (fn : Fn)
    (args : list Tensor) (st st' : PyState) (r : FnOut) (outs : list Tensor) :
  fn (default_scope cur "fn_with_custom_grad") args st = (st', inr r) →
  outputs_list (fo_outputs r) = Some <$> outs →
  ∃ d,
    _recompute_grad cur rand fn args st
    = (st', inr (defun_call ("identity_custom_grad" +:+ pretty rand)
                   (args ++ fo_trainable r ++ outs) (length outs), Some d))
    ∧ df_python_grad_func d
      = defun_custom_grad_fn (recompute_grad_fn fn) (length args)
          (length (fo_trainable r)) (length outs).
Proof.
  intros Hfn Houts. unfold _recompute_grad.
  rewrite (wrapper_returns cur rand fn args (recompute_grad_fn fn) false st st' r outs
             Hfn Houts).
  eexists. split; reflexivity.
Qed.

(** The gradients the installed function returns: those of the outputs of
    the second call of [fn], made under the scope current at that time. *)
Lemma recompute_grad_fn_spec (fn : Fn) (cur_b : VarScope)
    (inputs vars outs dys : list Tensor) (st st' : PyState) (r' : FnOut)
    (outs' : list Tensor) :
  length dys = length outs →
  fn cur_b inputs st = (st', inr r') →
  py_list (fo_outputs r') = inr outs' →
  defun_custom_grad_fn (recompute_grad_fn fn) (length inputs) (length vars)
    (length outs) cur_b (inputs ++ vars ++ outs) dys st
  = (st', inr (tf_gradients outs' (inputs ++ vars) dys
               ++ replicate (length outs) None)).
Proof.
  intros Hdys Hfn Hlist.
  assert (Hin : take (length inputs) (inputs ++ vars ++ outs) = inputs)
    by apply take_app_length.
  assert (Hmid : take (length inputs + length vars) (inputs ++ vars ++ outs)
                 = inputs ++ vars).
  { rewrite app_assoc. apply take_app_length'. by rewrite length_app. }
  assert (Hout : drop (length inputs + length vars) (inputs ++ vars ++ outs) = outs).
  { rewrite app_assoc. apply drop_app_length'. by rewrite length_app. }
  unfold defun_custom_grad_fn, recompute_grad_fn, py_assert. py_unfold.
  rewrite Hin, Hmid, Hout, drop_app_length.
  rewrite !bool_decide_true by done.
  rewrite Hfn, Hlist.
  by rewrite (app_assoc (take _ _)), take_drop.
Qed.

(** Recomputation gives the standard gradients when the second call of
    [fn] builds the outputs the first call built. *)
Lemma recompute_grad_same_outputs (fn : Fn) (cur cur_b : VarScope)
    (inputs dys outs : list Tensor) (st0 st0' st st' : PyState) (r r' : FnOut) :
  fn (default_scope cur "fn_with_custom_grad") inputs st0 = (st0', inr r) →
  py_list (fo_outputs r) = inr outs →
  fn cur_b inputs st = (st', inr r') →
  fo_outputs r' = fo_outputs r →
  length dys = length outs →
  defun_custom_grad_fn (recompute_grad_fn fn) (length inputs)
    (length (fo_trainable r)) (length outs) cur_b
    (inputs ++ fo_trainable r ++ outs) dys st
  = (st', inr (tf_gradients outs (inputs ++ fo_trainable r) dys
               ++ replicate (length outs) None)).
Proof.
  intros Hfwd Hlist Hbwd Hsame Hdys.
  apply (recompute_grad_fn_spec fn cur_b inputs (fo_trainable r) outs dys st st' r' outs
           Hdys Hbwd).
  by rewrite Hsame.
Qed.

End Recompute.

(** C6. [recompute_grad] on [x + w], where [w] is a parameter the
    function creates in its scope.  The forward call is made under the
    scope the wrapper opens.  The call of the backward pass is made under
    the scope current at that time and creates another parameter: the
    gradient the wrapper returns for the parameter of the forward call is
    None, where differentiating one direct call gives the incoming
    gradient. *)
Theorem recompute_grad_loses_parameter_gradients :
  let vs := variable_scope root_scope "fn_with_custom_grad" in
  let w := sf_variables sym_bias vs in
  let y := sf_call sym_bias vs sym_x None in
  sym_layer vs [sym_x] empty_state = (empty_state, inr (MkFnOut (OTuple [y]) w w))
  ∧ tf_gradients [y] ([sym_x] ++ w) [sym_dy] = [Some sym_dy; Some sym_dy]
  ∧ ∃ d,
      _recompute_grad root_scope 1 sym_layer [sym_x] empty_state
      = (empty_state, inr (defun_call "identity_custom_grad1" ([sym_x] ++ w ++ [y]) 1,
                           Some d))
      ∧ df_python_grad_func d root_scope ([sym_x] ++ w ++ [y]) [sym_dy] empty_state
        = (empty_state, inr ([Some sym_dy] ++ [None] ++ [None]))
      ∧ sym_layer root_scope [sym_x] empty_state
        = (empty_state,
           inr (MkFnOut (OTuple [sf_call sym_bias root_scope sym_x None])
                        (sf_variables sym_bias root_scope)
                        (sf_variables sym_bias root_scope)))
      ∧ sf_variables sym_bias root_scope ≠ w.
Proof.
  intros vs w y. split; [reflexivity|]. split; [reflexivity|].
  destruct (recompute_grad_installs root_scope 1 sym_layer [sym_x] empty_state
              empty_state (MkFnOut (OTuple [y]) w w) [y] eq_refl eq_refl)
    as (d & Hrun & Hgrad).
  exists d. split; [exact Hrun|]. rewrite Hgrad.
  split; [reflexivity|]. split; [reflexivity|]. discriminate.
Qed.

(** ** The symbolic engine: values and sub-functions *)

Lemma sym_grad_self (y seed : sym) : sym_grad y seed y = Some seed.
Proof. destruct y; cbn [sym_grad]; by rewrite bool_decide_true. Qed.

Lemma sym_plus_Some_l (x : sym) (o : option sym) : is_Some (sym_plus (Some x) o).
Proof. destruct o; simpl; eauto. Qed.

Lemma sym_plus_Some_r (o : option sym) (x : sym) : is_Some (sym_plus o (Some x)).
Proof. destruct o; simpl; eauto. Qed.

Lemma sym_scale_neq (k : Z) (x : sym) : SScale k x ≠ x.
Proof. intros H. apply (f_equal sym_depth) in H. simpl in H. lia. Qed.

Lemma sym_grad_add_l (x b seed : sym) : is_Some (sym_grad (SAdd x b) seed x).
Proof.
  cbn [sym_grad]. case_bool_decide; [eauto|].
  rewrite sym_grad_self. apply sym_plus_Some_l.
Qed.

Lemma sym_grad_scale (k : Z) (x seed : sym) :
  sym_grad (SScale k x) seed x = Some (SScale k seed).
Proof.
  cbn [sym_grad]. rewrite bool_decide_false by apply sym_scale_neq.
  apply sym_grad_self.
Qed.

Lemma sym_grad_foldl (side : list sym) (seed x : sym) :
  ∀ base, is_Some (sym_grad base seed x) →
          is_Some (sym_grad (foldl SAdd base side) seed x).
Proof.
  induction side as [|s side IH]; intros base Hb; [done|].
  cbn [foldl]. apply IH. cbn [sym_grad]. case_bool_decide; [eauto|].
  destruct Hb as [d ->]. apply sym_plus_Some_l.
Qed.

Lemma is_Some_sym_dydx (y seed x : sym) :
  is_Some (sym_grad y seed x) → is_Some (@dydx sym_engine [y] [seed] x).
Proof.
  intros [d Hd]. change (is_Some (sym_plus (sym_grad y seed x) None)).
  rewrite Hd. eauto.
Qed.

Lemma sym_bias_differentiable : differentiable sym_bias.
Proof.
  intros sc x side seed. apply is_Some_sym_dydx.
  destruct side; cbn [call_with_side sym_bias sf_call]; apply sym_grad_add_l.
Qed.

Lemma sym_zero_differentiable : differentiable sym_zero.
Proof.
  intros sc x side seed. apply is_Some_sym_dydx.
  destruct side; cbn [call_with_side sym_zero sf_call]; rewrite sym_grad_scale; eauto.
Qed.

Lemma sym_side_differentiable : differentiable sym_side.
Proof.
  intros sc x side seed. apply is_Some_sym_dydx.
  destruct side as [|s side]; cbn [call_with_side sym_side sf_call].
  - rewrite sym_grad_scale; eauto.
  - cbn [sym_grad]. case_bool_decide; [eauto|].
    rewrite bool_decide_false by apply sym_scale_neq.
    rewrite sym_grad_self. apply sym_plus_Some_r.
Qed.

Lemma sym_bias_side_differentiable : differentiable sym_bias_side.
Proof.
  intros sc x side seed. apply is_Some_sym_dydx.
  destruct side as [|s side]; cbn [call_with_side sym_bias_side sf_call default].
  - apply sym_grad_add_l.
  - apply (sym_grad_foldl (s :: side)), sym_grad_add_l.
Qed.

Lemma sym_bias_respects (env : string → Z) :
  @respects_values sym_engine Z Z_exact (sym_valuation env) sym_bias.
Proof.
  intros sc sc' x x' side side' Hn Hx _.
  assert (Hc : ∀ sc x side, call_with_side sym_bias sc x side
                            = SAdd x (SIdentity (SVariable (vs_name sc +:+ "/w"))))
    by (by intros ? ? []).
  rewrite !Hc. simpl in *. by rewrite Hn, Hx.
Qed.

Lemma sym_side_respects (env : string → Z) :
  @respects_values sym_engine Z Z_exact (sym_valuation env) sym_side.
Proof.
  intros sc sc' x x' side side' _ Hx Hs.
  destruct side as [|s side], side' as [|s' side']; simplify_eq/=; lia.
Qed.

Lemma sym_zero_is_zero (env : string → Z) :
  @zero_fn sym_engine Z Z_exact (sym_valuation env) sym_zero.
Proof.
  intros sc x side.
  assert (Hc : call_with_side sym_zero sc x side = SScale 0 x) by (by destruct side).
  rewrite Hc. split; [simpl; lia|].
  intros seed. exists (SScale 0 seed).
  split; [|simpl; lia].
  change (sym_plus (sym_grad (SScale 0 x) seed x) None = Some (SScale 0 seed)).
  by rewrite sym_grad_scale.
Qed.

Lemma sym_side_selects (env : string → Z) :
  @selects_side sym_engine Z Z_exact (sym_valuation env) sym_side.
Proof.
  intros sc y s. cbn zeta. cbn [sf_call sym_side]. split; [simpl; lia|].
  intros seed.
  assert (Hg : sym_grad (SAdd (SStop s) (SScale 0 (SStop y))) seed (SStop s)
               = sym_plus (Some seed)
                   (if bool_decide (SStop y = SStop s) then Some (SScale 0 seed)
                    else None)).
  { cbn [sym_grad]. rewrite bool_decide_false by discriminate.
    rewrite (bool_decide_true (SStop s = SStop s)) by done.
    rewrite (bool_decide_false (SScale 0 (SStop y) = SStop s)) by discriminate.
    done. }
  change (∃ d, sym_plus (sym_grad (SAdd (SStop s) (SScale 0 (SStop y))) seed (SStop s))
                 None = Some d
               ∧ sym_val env d = sym_val env seed).
  rewrite Hg. case_bool_decide; eexists; (split; [reflexivity|simpl; lia]).
Qed.

(** ** Runs on the symbolic engine *)

(** A sub-function whose graph does not depend on its input is not
    [differentiable]: the engine gives None for its gradient, and the sum
    of line 611 raises. *)
Example rev_layer_backward_disconnected :
  _rev_layer_backward root_scope [sym_y1; sym_y2] [sym_gy1; sym_gy2]
    sym_const sym_const [] [] [] []
  = inl (ValueError "None values not supported.").
Proof. reflexivity. Qed.

(** C3. A block of one layer whose [f] and [g] are the constant [0], built
    without their input.  The forward pass returns tensors with the
    values of [x1] and [x2].  The engine gives None for the gradient of
    such a function with respect to its input, and the gradient function
    of the block, which adds that gradient with [+] at line 611, raises
    ValueError after it has reversed the lists, where the gradients of
    [x1] and [x2] are the incoming [grad_y1] and [grad_y2]; so does the
    gradient function [rev_block] installs, called on the inputs and the
    outputs of the block. *)
Theorem rev_block_zero_coupling_constant :
  (∃ y1 y2 st',
     _rev_block_forward root_scope sym_x1 sym_x2 [sym_const] [sym_const] 1 [] [] true true
       empty_state
     = (st', inr (y1, y2))
     ∧ (∀ env, sym_val env y1 = sym_val env sym_x1)
     ∧ (∀ env, sym_val env y2 = sym_val env sym_x2))
  ∧ (∀ sc y seed,
       dydx [call_with_side sym_const sc (SStop y) []] [seed] (SStop y) = None)
  ∧ (let st := sym_state [sym_const] [sym_const] (sym_scopes 1) in
     rev_block_custom_grad_fn 1 [] [] 0 1 [sym_x1; sym_x2] [] [sym_y1; sym_y2]
       [sym_gy1; sym_gy2] st
     = (reversed 0 1 st, inl (ValueError "None values not supported.")))
  ∧ match rev_block root_scope 1 sym_x1 sym_x2 (OneFn sym_const) (OneFn sym_const) 1
            None None true empty_state
    with
    | (st1, inr (OTuple [o1; o2], Some d)) =>
        (df_python_grad_func d root_scope ([sym_x1; sym_x2] ++ [] ++ [o1; o2])
           [sym_gy1; sym_gy2] st1).2
        = inl (ValueError "None values not supported.")
    | _ => False
    end.
Proof.
  split; [|split; [|split]].
  - eexists _, _, _. split; [reflexivity|]. split; intros env; simpl; lia.
  - intros sc y seed. reflexivity.
  - reflexivity.
  - vm_compute. reflexivity.
Qed.

(** C4. Three layers that share the one side input [s] of [g(y1, s) = s],
    with [f(x) = 0 * x].  The forward pass returns.  In the backward pass
    the engine gives the seed for the gradient of [g] with respect to
    [s], and None for its gradient with respect to [y1], which [g] does
    not use; the gradient function of the block adds the latter with [+]
    at line 611 and raises ValueError after it has reversed the lists:
    no gradient is returned for [s], where the sum of the three [grad_y2]
    is due.  So does the gradient function [rev_block] installs, called
    on the inputs and the outputs of the block. *)
Theorem shared_side_input_selected_raises :
  let fs := replicate 3 sym_zero in
  let gs := replicate 3 sym_pick in
  (∃ y1 y2 st',
     _rev_block_forward root_scope sym_x1 sym_x2 fs gs 3 [] [sym_s] true true
       empty_state
     = (st', inr (y1, y2)))
  ∧ (∀ sc seed,
       let y_stop := SStop sym_y1 in
       let s_stop := SStop sym_s in
       dydx [call_with_side sym_pick sc y_stop [s_stop]] [seed] s_stop = Some seed
       ∧ dydx [call_with_side sym_pick sc y_stop [s_stop]] [seed] y_stop = None)
  ∧ (let st := sym_state fs gs (sym_scopes 3) in
     rev_block_custom_grad_fn 3 [] [sym_s] 0 1 [sym_x1; sym_x2; sym_s] []
       [sym_y1; sym_y2] [sym_gy1; sym_gy2] st
     = (reversed 0 1 st, inl (ValueError "None values not supported.")))
  ∧ match rev_block root_scope 1 sym_x1 sym_x2 (OneFn sym_zero) (OneFn sym_pick) 3
            None (Some [sym_s]) true empty_state
    with
    | (st1, inr (OTuple [o1; o2], Some d)) =>
        (df_python_grad_func d root_scope ([sym_x1; sym_x2; sym_s] ++ [] ++ [o1; o2])
           [sym_gy1; sym_gy2] st1).2
        = inl (ValueError "None values not supported.")
    | _ => False
    end.
Proof.
  intros fs gs. split; [|split; [|split]].
  - eexists _, _, _. reflexivity.
  - intros sc seed. cbn zeta. split; reflexivity.
  - reflexivity.
  - vm_compute. reflexivity.
Qed.

(** C1 on a block of two layers, each sub-function with one variable, one
    side input for [f] and one for [g], the side inputs and the variables
    passed in another order than that of the layers. *)
Lemma custom_grad_fn_counts_and_order_witness :
  ∃ cs x1' x2' gx1 gx2,
    backward_run [sym_a] [sym_b] (seq 0 2)
      (layer_scopes (reversed 0 1 sym_block_state))
      (heap (reversed 0 1 sym_block_state) 0) (heap (reversed 0 1 sym_block_state) 1)
      (reverse (layer_vars true 2 sym_block_vars))
      (reverse (layer_vars false 2 sym_block_vars)) sym_y1 sym_y2 sym_gy1 sym_gy2
    = Some (cs, (x1', x2', gx1, gx2))
    ∧ rev_block_custom_grad_fn 2 [sym_a] [sym_b] 0 1
        (sym_x1 :: sym_x2 :: [sym_b; sym_a]) sym_block_vars [sym_y1; sym_y2]
        [sym_gy1; sym_gy2] sym_block_state
      = (reversed 0 1 sym_block_state,
         inr ([Some gx1; Some gx2] ++ (side_grad [sym_a] [sym_b] cs <$> [sym_b; sym_a]),
              var_grad [sym_a] [sym_b] cs 2 <$> sym_block_vars)).
Proof.
  apply (proj2 (custom_grad_fn_counts_and_order (E := sym_engine) 2 [sym_a] [sym_b] 0 1)).
  - lia.
  - apply (bool_decide_unpack _). vm_compute. exact I.
  - apply perm_swap.
  - repeat constructor; (eexists _, _, _; split; [vm_compute; reflexivity|lia]).
  - reflexivity.
  - reflexivity.
  - reflexivity.
  - repeat constructor; apply sym_bias_side_differentiable.
  - repeat constructor; apply sym_bias_side_differentiable.
Defined.

(** C2 on [f(x) = x + w] and [g(y, s) = s + 0 * y]. *)
Lemma rev_layer_round_trip_witness :
  ∃ y1 y2,
    _rev_layer_forward root_scope [sym_x1; sym_x2] sym_bias sym_side [] [sym_s] true
    = inr [y1; y2]
    ∧ sym_val sym_env (rc_x1 (reconstruct root_scope y1 y2 sym_bias sym_side [] [sym_s]))
      = sym_val sym_env sym_x1
    ∧ sym_val sym_env (rc_x2 (reconstruct root_scope y1 y2 sym_bias sym_side [] [sym_s]))
      = sym_val sym_env sym_x2.
Proof.
  destruct (@rev_layer_round_trip sym_engine Z Z_exact (sym_valuation sym_env)
              root_scope root_scope sym_x1 sym_x2 sym_bias sym_side [] [sym_s] true
              (sym_bias_respects sym_env) (sym_side_respects sym_env) eq_refl)
    as (y1 & y2 & Hfwd & Hx1 & Hx2 & _).
  exists y1, y2. split; [exact Hfwd|]. split; [exact Hx1|exact Hx2].
Defined.

(** The zero coupling on [f(x) = g(x) = 0 * x]. *)
Lemma rev_block_zero_coupling_witness :
  (∃ y1 y2 st',
     _rev_block_forward root_scope sym_x1 sym_x2 [sym_zero] [sym_zero] 1 [] [] true true
       empty_state
     = (st', inr (y1, y2))
     ∧ sym_val sym_env y1 = sym_val sym_env sym_x1
     ∧ sym_val sym_env y2 = sym_val sym_env sym_x2)
  ∧ (∃ st' gx1 gx2,
       rev_block_custom_grad_fn 1 [] [] 0 1 [sym_x1; sym_x2] [] [sym_y1; sym_y2]
         [sym_gy1; sym_gy2] (sym_state [sym_zero] [sym_zero] (sym_scopes 1))
       = (st', inr ([Some gx1; Some gx2], []))
       ∧ sym_val sym_env gx1 = sym_val sym_env sym_gy1
       ∧ sym_val sym_env gx2 = sym_val sym_env sym_gy2).
Proof.
  destruct (@rev_block_zero_coupling sym_engine Z Z_exact (sym_valuation sym_env)
              sym_zero sym_zero (sym_zero_is_zero sym_env) (sym_zero_is_zero sym_env))
    as [Hfwd Hbwd].
  split.
  - exact (Hfwd root_scope sym_x1 sym_x2 true true empty_state).
  - exact (Hbwd 0 1 sym_x1 sym_x2 sym_y1 sym_y2 sym_gy1 sym_gy2
             (sym_state [sym_zero] [sym_zero] (sym_scopes 1)) eq_refl eq_refl eq_refl).
Defined.

(** The accumulation on three layers that share the side input [s] of
    [g(y, s) = s + 0 * y]. *)
Lemma side_input_grads_accumulate_witness :
  ∃ c3 c2 c1 fin st' gx1 gx2 gs_grad g_var,
    rev_block_custom_grad_fn 3 [] [sym_s] 0 1 [sym_x1; sym_x2; sym_s] []
      [sym_y1; sym_y2] [sym_gy1; sym_gy2]
      (sym_state [sym_zero; sym_bias; sym_zero] [sym_side; sym_side; sym_side]
         (sym_scopes 3))
    = (st', inr ([Some gx1; Some gx2; gs_grad], g_var))
    ∧ backward_run [] [sym_s] [0; 1; 2] (layer_scopes st') (heap st' 0) (heap st' 1)
        (reverse (layer_vars true 3 [])) (reverse (layer_vars false 3 []))
        sym_y1 sym_y2 sym_gy1 sym_gy2
      = Some ([c3; c2; c1], fin)
    ∧ lc_grad_y2 c3 = sym_gy2
    ∧ from_option (sym_val sym_env) 0%Z gs_grad
      = (sym_val sym_env (lc_grad_y2 c3)
         + (sym_val sym_env (lc_grad_y2 c2)
            + (sym_val sym_env (lc_grad_y2 c1) + 0)))%Z.
Proof.
  destruct (proj2 (proj2 (@side_input_grads_accumulate sym_engine Z Z_exact
                            (sym_valuation sym_env)))
              0 1 sym_x1 sym_x2 sym_s [] sym_y1 sym_y2 sym_gy1 sym_gy2
              (sym_state [sym_zero; sym_bias; sym_zero] [sym_side; sym_side; sym_side]
                 (sym_scopes 3)))
    as (c3 & c2 & c1 & fin & st' & gx1 & gx2 & gs_grad & g_var & H1 & H2 & H3 & H4).
  - constructor.
  - reflexivity.
  - reflexivity.
  - reflexivity.
  - repeat constructor;
      first [apply sym_zero_differentiable | apply sym_bias_differentiable].
  - repeat constructor; apply sym_side_differentiable.
  - repeat constructor; apply sym_side_selects.
  - exists c3, c2, c1, fin, st', gx1, gx2, gs_grad, g_var.
    split; [exact H1|]. split; [exact H2|]. split; [exact H3|].
    destruct gs_grad; exact H4.
Defined.

(** C7, as the code has it, on a variable named dense/kernel that comes
    after a variable of the block. *)
Lemma custom_grad_fn_unmatched_name_witness :
  parse_variable (SIdentity (SVariable "dense/kernel"))
  = inl (AttributeError "'NoneType' object has no attribute 'group'")
  ∧ ∃ e, rev_block_custom_grad_fn 1 [] [] 0 1 [sym_x1; sym_x2]
           [SIdentity (SVariable "revblock/revlayer_0/f/w");
            SIdentity (SVariable "dense/kernel")]
           [sym_y1; sym_y2] [sym_gy1; sym_gy2]
           (sym_state [sym_bias] [sym_bias] (sym_scopes 1))
         = (sym_state [sym_bias] [sym_bias] (sym_scopes 1), inl e).
Proof.
  apply (custom_grad_fn_unmatched_name (E := sym_engine) 1 [] [] 0 1 [sym_x1; sym_x2]
           [SIdentity (SVariable "revblock/revlayer_0/f/w");
            SIdentity (SVariable "dense/kernel")]
           [sym_y1; sym_y2] [sym_gy1; sym_gy2]
           (sym_state [sym_bias] [sym_bias] (sym_scopes 1))
           (SIdentity (SVariable "dense/kernel")) (SVariable "dense/kernel")).
  - right. left.
  - reflexivity.
  - vm_compute. reflexivity.
Defined.

(** C7, as stated, does not hold: the exception is the AttributeError of
    a call of [group] on None, and its message does not carry the name of
    the variable. *)
Lemma unmatched_name_raises_AttributeError :
  rev_block_custom_grad_fn 1 [] [] 0 1 [sym_x1; sym_x2]
    [SIdentity (SVariable "dense/kernel")] [sym_y1; sym_y2] [sym_gy1; sym_gy2]
    (sym_state [sym_bias] [sym_bias] (sym_scopes 1))
  = (sym_state [sym_bias] [sym_bias] (sym_scopes 1),
     inl (AttributeError "'NoneType' object has no attribute 'group'"))
  ∧ str_in "dense/kernel" (exn_message
      (AttributeError "'NoneType' object has no attribute 'group'")) = false
  ∧ str_in "kernel" (exn_message
      (AttributeError "'NoneType' object has no attribute 'group'")) = false.
Proof. split; [|split]; vm_compute; reflexivity. Qed.

(** C8 on a list of two functions, with [num_layers] 3 and then 2. *)
Lemma rev_block_checks_lengths_witness :
  snd (rev_block root_scope 1 sym_x1 sym_x2 (FnList 0) (OneFn sym_bias) 3 None None true
         (sym_state [sym_bias; sym_zero] [] []))
  = inl AssertionError
  ∧ (∃ res, snd (rev_block root_scope 1 sym_x1 sym_x2 (FnList 0) (OneFn sym_bias) 2
                   None None true (sym_state [sym_bias; sym_zero] [] []))
            = inr res)
  ∧ heap (fst (rev_block root_scope 1 sym_x1 sym_x2 (FnList 0) (OneFn sym_bias) 2
                 None None true (sym_state [sym_bias; sym_zero] [] []))) 2
    = [sym_bias; sym_bias].
Proof.
  assert (Hvf : arg_valid (sym_state [sym_bias; sym_zero] [] []) (FnList 0))
    by (simpl; lia).
  assert (Hvg : arg_valid (sym_state [sym_bias; sym_zero] [] []) (OneFn sym_bias))
    by exact I.
  split; [|split].
  - apply (rev_block_checks_lengths (E := sym_engine) root_scope 1 sym_x1 sym_x2
             (FnList 0) (OneFn sym_bias) 3 None None true
             (sym_state [sym_bias; sym_zero] [] []) Hvf Hvg).
    left. simpl. lia.
  - apply (rev_block_checks_lengths (E := sym_engine) root_scope 1 sym_x1 sym_x2
             (FnList 0) (OneFn sym_bias) 2 None None true
             (sym_state [sym_bias; sym_zero] [] []) Hvf Hvg).
    + reflexivity.
    + exact I.
  - vm_compute. reflexivity.
Defined.

(** C9, as the code has it, on [x + w] with [x] of unknown shape. *)
Lemma fn_with_custom_grad_unchecked_witness :
  let vs := variable_scope root_scope "fn_with_custom_grad" in
  let w := sf_variables sym_bias vs in
  let y := sf_call sym_bias vs sym_x None in
  ∃ d : Defun,
    _fn_with_custom_grad root_scope 1 sym_layer [sym_x]
      (Some (recompute_grad_fn sym_layer)) false empty_state
    = (empty_state,
       inr (defun_call "identity_custom_grad1" ([sym_x] ++ w ++ [y]) 1, Some d))
    ∧ df_shape_func d = [None]
    ∧ df_func_name d = "identity_custom_grad1"
    ∧ df_body d = identity 1 1.
Proof.
  intros vs w y.
  exact (proj1 (fn_with_custom_grad_unchecked (E := sym_engine) root_scope 1 sym_layer
                  [sym_x] (recompute_grad_fn sym_layer) false empty_state empty_state
                  (MkFnOut (OTuple [y]) w w) eq_refl)
           [y] eq_refl).
Defined.

(** C5 as stated fails.  The wrapper without a gradient function on
    [x + w]: the parameter is
    created under the scope the wrapper opens, so the output is not the
    tensor a direct call returns, and not its value either. *)
Lemma fn_with_custom_grad_none_not_direct :
  let wrapped := SAdd sym_x (SIdentity (SVariable "fn_with_custom_grad/w")) in
  let direct := SAdd sym_x (SIdentity (SVariable "/w")) in
  _fn_with_custom_grad root_scope 1 sym_layer [sym_x] None false empty_state
  = (empty_state, inr (OTuple [wrapped], None))
  ∧ sym_layer root_scope [sym_x] empty_state
    = (empty_state, inr (MkFnOut (OTuple [direct]) [SVariable "/w"] [SVariable "/w"]))
  ∧ wrapped ≠ direct
  ∧ sym_val sym_env wrapped ≠ sym_val sym_env direct.
Proof.
  intros wrapped direct. split; [reflexivity|]. split; [reflexivity|].
  split; [discriminate|]. vm_compute. discriminate.
Qed.

(** C5, as the code has it, on a function that creates no variable: the
    wrapper returns what the direct call returns. *)
Lemma fn_with_custom_grad_none_witness :
  _fn_with_custom_grad root_scope 1 sym_double [sym_x; sym_dy] None false empty_state
  = (empty_state, inr (OList [SScale 2 sym_x; SScale 2 sym_dy], None)).
Proof.
  apply (proj2 (fn_with_custom_grad_none (E := sym_engine) root_scope 1 sym_double
                  [sym_x; sym_dy] false empty_state)).
  reflexivity.
Defined.

(** C9, as stated, does not hold: with a gradient function, a forward
    function that returns no output at all, and one whose output has an
    unknown shape, are wrapped without an error. *)
Lemma fn_with_custom_grad_accepts_zero_outputs :
  (∃ d : Defun,
     _fn_with_custom_grad root_scope 1 sym_no_outputs [sym_x]
       (Some (recompute_grad_fn sym_no_outputs)) false empty_state
     = (empty_state, inr (OOperation "identity_custom_grad1", Some d))
     ∧ df_shape_func d = [])
  ∧ (∃ d : Defun,
       _fn_with_custom_grad root_scope 1 sym_layer [sym_x]
         (Some (recompute_grad_fn sym_layer)) false empty_state
       = (empty_state, inr (OTensor (SDefunOut "identity_custom_grad1" 0), Some d))
       ∧ get_shape (sf_call sym_bias (variable_scope root_scope "fn_with_custom_grad")
                      sym_x None) = None
       ∧ df_shape_func d = [None]).
Proof.
  split.
  - eexists. split.
    + apply (wrapper_returns (E := sym_engine) root_scope 1 sym_no_outputs [sym_x]
               (recompute_grad_fn sym_no_outputs) false empty_state empty_state
               (MkFnOut (OTuple []) [] []) [] eq_refl eq_refl).
    + reflexivity.
  - eexists. split; [|split].
    + apply (wrapper_returns (E := sym_engine) root_scope 1 sym_layer [sym_x]
               (recompute_grad_fn sym_layer) false empty_state empty_state
               (MkFnOut
                  (OTuple [sf_call sym_bias
                             (variable_scope root_scope "fn_with_custom_grad") sym_x None])
                  (sf_variables sym_bias (variable_scope root_scope "fn_with_custom_grad"))
                  (sf_variables sym_bias (variable_scope root_scope "fn_with_custom_grad")))
               [sf_call sym_bias (variable_scope root_scope "fn_with_custom_grad")
                  sym_x None]
               eq_refl eq_refl).
    + reflexivity.
    + reflexivity.
Qed.


(** A block of two layers run forward and then backward: the lists the
    caller passed are in the reverse order afterwards. *)
Example rev_block_run_reverses :
  let st0 := sym_state [sym_bias; sym_zero] [sym_zero; sym_bias] [] in
  match rev_block root_scope 1 sym_x1 sym_x2 (FnList 0) (FnList 1) 2 None None true st0
  with
  | (st1, inr (OTuple [y1; y2], Some d)) =>
      heap st1 0 = heap st0 0 ∧ heap st1 1 = heap st0 1
      ∧ match df_python_grad_func d root_scope
                ([sym_x1; sym_x2]
                 ++ block_variables (variable_scope root_scope "fn_with_custom_grad")
                      (heap st0 0) (heap st0 1) 2
                 ++ [y1; y2])
                [sym_gy1; sym_gy2] st1
        with
        | (st2, inr res) =>
            length res = 6
            ∧ heap st2 0 = [sym_zero; sym_bias] ∧ heap st2 1 = [sym_bias; sym_zero]
        | _ => False
        end
  | _ => False
  end.
Proof. vm_compute. repeat split. Qed.

(** * Further properties *)

(** * Further properties of the code *)

(** ** [variable_ref] *)

Section VariableRef.
Context `{E : Engine}.

Lemma variable_ref_loop_Some (fuel : nat) :
  ∀ t r, variable_ref_loop fuel t = Some r →
         op_type r ≠ "Identity" ∧ str_in "Variable" (op_type r) = true.
Proof.
  induction fuel as [|fuel IH]; intros t r; cbn [variable_ref_loop].
  - case_bool_decide as Hid; [done|].
    destruct (str_in "Variable" (op_type t)) eqn:Hvar; [|done].
    intros Heq. by simplify_eq.
  - case_bool_decide as Hid.
    + destruct (op_inputs t) as [|t' ?]; [done|]. apply IH.
    + destruct (str_in "Variable" (op_type t)) eqn:Hvar; [|done].
      intros Heq. by simplify_eq.
Qed.

Lemma variable_ref_loop_not_Identity (fuel : nat) (t : Tensor) :
  op_type t ≠ "Identity" →
  variable_ref_loop fuel t = if str_in "Variable" (op_type t) then Some t else None.
Proof. intros Hid. destruct fuel; cbn [variable_ref_loop]; by rewrite bool_decide_false. Qed.

(** Whatever [variable_ref] returns is the output of an op whose type
    contains Variable and is not Identity, and [variable_ref] returns it
    unchanged when applied to it; on a tensor of an op that is not
    Identity, [variable_ref] returns that tensor or None, without looking
    at the inputs of the op. *)
Theorem variable_ref_result (t r : Tensor) :
  variable_ref t = Some r →
  op_type r ≠ "Identity"
  ∧ str_in "Variable" (op_type r) = true
  ∧ variable_ref r = Some r
  ∧ (op_type t ≠ "Identity" → r = t).
Proof.
  unfold variable_ref. intros Href.
  destruct (variable_ref_loop_Some _ _ _ Href) as [Hid Hvar].
  split; [done|]. split; [done|]. split.
  - by rewrite variable_ref_loop_not_Identity, Hvar.
  - intros Hnid. rewrite variable_ref_loop_not_Identity in Href by done.
    destruct (str_in _ _); by simplify_eq.
Qed.

End VariableRef.

(** ** Names of layers: written by the forward pass, read by the backward pass *)

Lemma chars_app (s1 s2 : string) :
  list_ascii_of_string (s1 +:+ s2)
  = list_ascii_of_string s1 ++ list_ascii_of_string s2.
Proof. induction s1 as [|c s1 IH]; [done|]. simpl. by rewrite IH. Qed.

Lemma pretty_N_go_app (x : N) :
  ∀ s, pretty_N_go x s = pretty_N_go x EmptyString +:+ s.
Proof.
  induction (N.lt_wf_0 x) as [x _ IH]. intros s.
  destruct (decide (x = 0)%N) as [->|Hx]; [by rewrite !pretty_N_go_0|].
  assert (0 < x)%N as Hpos by lia.
  rewrite !(pretty_N_go_step x) by done.
  assert (x `div` 10 < x)%N as Hlt by (by apply N.div_lt).
  rewrite (IH _ Hlt (String _ s)), (IH _ Hlt (String _ EmptyString)).
  generalize (pretty_N_go (x `div` 10) EmptyString), (pretty_N_char (x `mod` 10)).
  intros p d. induction p as [|c p IHp]; [done|].
  change (String c (p +:+ String d s) = String c ((p +:+ String d EmptyString) +:+ s)).
  by rewrite IHp.
Qed.

(** The digits of a number, and their value. *)
Lemma pretty_N_char_digit (d : N) :
  (d < 10)%N →
  re_digit (pretty_N_char d) = true ∧ digit_value (pretty_N_char d) = N.to_nat d.
Proof.
  intros Hd.
  assert (d = 0 ∨ d = 1 ∨ d = 2 ∨ d = 3 ∨ d = 4 ∨ d = 5 ∨ d = 6 ∨ d = 7
          ∨ d = 8 ∨ d = 9)%N as Hcases by lia.
  repeat (destruct Hcases as [->|Hcases]; [by vm_compute|]). subst. by vm_compute.
Qed.

Lemma pretty_N_go_digits (x : N) :
  let cs := list_ascii_of_string (pretty_N_go x EmptyString) in
  forallb re_digit cs = true
  ∧ foldl (λ acc c, 10 * acc + digit_value c) 0 cs = N.to_nat x
  ∧ ((0 < x)%N → cs ≠ []).
Proof.
  induction (N.lt_wf_0 x) as [x _ IH]. cbn zeta.
  destruct (decide (x = 0)%N) as [->|Hx].
  { rewrite pretty_N_go_0. split; [done|]. split; [done|]. lia. }
  assert (0 < x)%N as Hpos by lia.
  rewrite pretty_N_go_step, pretty_N_go_app, chars_app by done.
  assert (x `div` 10 < x)%N as Hlt by (by apply N.div_lt).
  destruct (IH _ Hlt) as (Hall & Hval & _).
  destruct (pretty_N_char_digit (x `mod` 10)) as [Hd Hv].
  { by apply N.mod_lt. }
  split; [|split].
  - rewrite forallb_app, Hall. simpl. by rewrite Hd.
  - rewrite foldl_app, Hval. simpl. rewrite Hv.
    pose proof (N.div_mod x 10). lia.
  - intros _. by destruct (list_ascii_of_string (pretty_N_go (x `div` 10) EmptyString)).
Qed.

Lemma py_int_of_pretty (i : nat) : py_int (pretty i) = inr i.
Proof.
  unfold pretty, pretty_nat, pretty, pretty_N.
  destruct (decide (N.of_nat i = 0)%N) as [Hz|Hnz].
  { assert (i = 0) as -> by lia. reflexivity. }
  destruct (pretty_N_go_digits (N.of_nat i)) as (Hall & Hval & Hne).
  unfold py_int. cbn zeta.
  rewrite bool_decide_false by (apply Hne; lia).
  rewrite Hall, Hval. unfold ok. f_equal. lia.
Qed.

(** The layer number written by ["revlayer_%d" % i] (line 659) is read
    back by [int(regex.group(1))] (line 766). *)
Theorem py_int_pretty (i : nat) : py_int (pretty i) = inr i.
Proof. apply py_int_of_pretty. Qed.

(** *** The pattern on the names the forward pass writes *)

Lemma re_star_cons (p : ascii → bool) (r : list re_item) (c : ascii)
    (s : list ascii) (k : re_caps) :
  re_match (RStar p :: r) (c :: s) k
  = if p c then
      match re_match (RStar p :: r) s (re_consume c k) with
      | Some k' => Some k'
      | None => re_match r (c :: s) k
      end
    else re_match r (c :: s) k.
Proof. reflexivity. Qed.

Lemma re_star_nil (p : ascii → bool) (r : list re_item) (k : re_caps) :
  re_match (RStar p :: r) [] k = re_match r [] k.
Proof. reflexivity. Qed.

Lemma re_lit_fail (w : list ascii) (r : list re_item) :
  ∀ s k, is_prefix w s = false → re_match ((RLit <$> w) ++ r) s k = None.
Proof.
  induction w as [|c w IH]; intros s k Hp; [done|].
  rewrite fmap_cons. cbn [app re_match].
  destruct s as [|c' s]; [done|]. simpl in Hp.
  destruct (Ascii.eqb c c'); [|done]. by apply IH.
Qed.

Lemma re_lit_ok (w : list ascii) (r : list re_item) :
  ∀ s k, re_match ((RLit <$> w) ++ r) (w ++ s) k
         = re_match r s (foldl (λ k c, re_consume c k) k w).
Proof.
  induction w as [|c w IH]; intros s k; [done|].
  rewrite fmap_cons. cbn [app re_match foldl]. rewrite Ascii.eqb_refl. apply IH.
Qed.

(** No match in a text that does not hold revlayer_. *)
Lemma LAYER_RE_no_match (t : list ascii) :
  occurs_in (list_ascii_of_string "revlayer_") t = false →
  ∀ k, re_match LAYER_RE t k = None.
Proof.
  change LAYER_RE with
    (RStar re_dot
     :: ((RLit <$> list_ascii_of_string "revlayer_")
         ++ [ROpen; RStar re_digit; RClose] ++ re_lit "/" ++
            [ROpen; RSet re_fg; RClose] ++ re_lit "/" ++ [RStar re_dot])).
  induction t as [|c t IH]; intros Hocc k.
  - rewrite re_star_nil. by apply re_lit_fail.
  - cbn [occurs_in] in Hocc. apply orb_false_iff in Hocc as [Hpre Hocc].
    rewrite re_star_cons, (IH Hocc), re_lit_fail by done. by destruct (re_dot c).
Qed.

(** A greedy star takes all of a run that the next character ends. *)
Lemma re_star_run (p : ascii → bool) (r : list re_item) (ds u : list ascii)
    (k' : re_caps) :
  forallb p ds = true →
  match u with c :: _ => p c = false | [] => True end →
  ∀ k, re_match r u (foldl (λ k c, re_consume c k) k ds) = Some k' →
       re_match (RStar p :: r) (ds ++ u) k = Some k'.
Proof.
  intros Hall Hu. induction ds as [|d ds IH]; intros k Hm.
  - simpl in Hm. destruct u as [|c u]; [by rewrite re_star_nil|].
    cbn [app]. by rewrite re_star_cons, Hu.
  - simpl in Hall. apply andb_true_iff in Hall as [Hd Hall].
    cbn [app]. rewrite re_star_cons, Hd. cbn [foldl] in Hm.
    by rewrite (IH Hall _ Hm).
Qed.

Lemma re_star_last (p : ascii → bool) (s : list ascii) :
  ∀ k, ∃ k', re_match [RStar p] s k = Some k' ∧ groups k' = groups k.
Proof.
  induction s as [|c s IH]; intros k.
  - rewrite re_star_nil. by exists k.
  - rewrite re_star_cons. destruct (p c); [|by exists k].
    destruct (IH (re_consume c k)) as (k' & -> & Hg). by exists k'.
Qed.

Lemma foldl_consume_open (cs : list ascii) (b : list ascii) (gs : list string) :
  foldl (λ k c, re_consume c k) (ReCaps (Some b) gs) cs = ReCaps (Some (b ++ cs)) gs.
Proof.
  revert b. induction cs as [|c cs IH]; intros b; [by rewrite app_nil_r|].
  cbn [foldl]. unfold re_consume at 2. simpl. rewrite IH. by rewrite <- app_assoc.
Qed.

Lemma foldl_consume_closed (cs : list ascii) (gs : list string) :
  foldl (λ k c, re_consume c k) (ReCaps None gs) cs = ReCaps None gs.
Proof. induction cs as [|c cs IH]; [done|]. cbn [foldl]. by rewrite <- IH at 2. Qed.

Lemma re_open_eq (r : list re_item) (s : list ascii) (k : re_caps) :
  re_match (ROpen :: r) s k = re_match r s (ReCaps (Some []) (groups k)).
Proof. reflexivity. Qed.

Lemma re_close_eq (r : list re_item) (s : list ascii) (k : re_caps) :
  re_match (RClose :: r) s k
  = re_match r s
      (ReCaps None (groups k ++ [string_of_list_ascii (default [] (open_group k))])).
Proof. reflexivity. Qed.

Lemma re_lit_eq (c : ascii) (r : list re_item) (s : list ascii) (k : re_caps) :
  re_match (RLit c :: r) (c :: s) k = re_match r s (re_consume c k).
Proof. cbn [re_match]. by rewrite Ascii.eqb_refl. Qed.

Lemma re_set_eq (p : ascii → bool) (c : ascii) (r : list re_item) (s : list ascii)
    (k : re_caps) :
  p c = true → re_match (RSet p :: r) (c :: s) k = re_match r s (re_consume c k).
Proof. intros Hp. cbn [re_match]. by rewrite Hp. Qed.

(** The match at the start of a text that begins with revlayer_, digits,
    a slash, f or g, and a slash. *)
Lemma LAYER_RE_segment (ds rest : list ascii) (role : ascii) (gs : list string) :
  forallb re_digit ds = true → re_fg role = true →
  ∃ k', re_match
          ((RLit <$> list_ascii_of_string "revlayer_")
           ++ [ROpen; RStar re_digit; RClose] ++ re_lit "/" ++
              [ROpen; RSet re_fg; RClose] ++ re_lit "/" ++ [RStar re_dot])
          (list_ascii_of_string "revlayer_" ++ ds ++ "/"%char :: role :: "/"%char :: rest)
          (ReCaps None gs)
        = Some k'
        ∧ groups k' = gs ++ [string_of_list_ascii ds; String role EmptyString].
Proof.
  intros Hds Hrole. rewrite re_lit_ok, foldl_consume_closed.
  destruct (re_star_last re_dot rest
              (ReCaps None ((gs ++ [string_of_list_ascii ds]) ++ [String role EmptyString])))
    as (k' & Hk' & Hg).
  exists k'. split.
  - change ([ROpen; RStar re_digit; RClose] ++ re_lit "/" ++
            [ROpen; RSet re_fg; RClose] ++ re_lit "/" ++ [RStar re_dot])
      with (ROpen :: RStar re_digit
            :: (RClose :: RLit "/"%char :: ROpen :: RSet re_fg :: RClose
                :: RLit "/"%char :: [RStar re_dot])).
    rewrite re_open_eq. apply re_star_run; [done|done|].
    rewrite foldl_consume_open, re_close_eq, re_lit_eq, re_open_eq.
    rewrite re_set_eq by done. rewrite re_close_eq, re_lit_eq.
    exact Hk'.
  - rewrite Hg. simpl. by rewrite <- app_assoc.
Qed.

Lemma occurs_in_after_digits (ds rest : list ascii) (role : ascii) :
  forallb re_digit ds = true → re_fg role = true →
  occurs_in (list_ascii_of_string "revlayer_") rest = false →
  occurs_in (list_ascii_of_string "revlayer_")
    (ds ++ "/"%char :: role :: "/"%char :: rest) = false.
Proof.
  intros Hds Hrole Hrest. cbn [list_ascii_of_string] in Hrest |- *.
  induction ds as [|d ds IH].
  - unfold re_fg in Hrole. apply orb_true_iff in Hrole as [Hr|Hr];
      apply Ascii.eqb_eq in Hr; subst role;
      cbn [app occurs_in is_prefix Ascii.eqb]; by rewrite Hrest.
  - simpl in Hds. apply andb_true_iff in Hds as [Hd Hds].
    cbn [app occurs_in]. rewrite (IH Hds), orb_false_r.
    cbn [is_prefix].
    destruct (Ascii.eqb_spec "r"%char d) as [<-|_]; [by vm_compute in Hd|done].
Qed.

Lemma occurs_in_tail_of_segment (ds rest : list ascii) (role : ascii) :
  forallb re_digit ds = true → re_fg role = true →
  occurs_in (list_ascii_of_string "revlayer_") rest = false →
  occurs_in (list_ascii_of_string "revlayer_")
    (list_ascii_of_string "evlayer_" ++ ds ++ "/"%char :: role :: "/"%char :: rest)
  = false.
Proof.
  intros Hds Hrole Hrest.
  pose proof (occurs_in_after_digits ds rest role Hds Hrole Hrest) as Hocc.
  cbn [list_ascii_of_string] in Hocc |- *.
  cbn [app occurs_in is_prefix Ascii.eqb].
  cbn [Ascii.eqb Bool.eqb andb orb]. by rewrite Hocc.
Qed.

Lemma LAYER_RE_match_chars (p ds rest : list ascii) (role : ascii) :
  forallb re_dot p = true → forallb re_digit ds = true → re_fg role = true →
  occurs_in (list_ascii_of_string "revlayer_") rest = false →
  ∀ gs, ∃ k',
    re_match LAYER_RE
      (p ++ list_ascii_of_string "revlayer_" ++ ds
         ++ "/"%char :: role :: "/"%char :: rest)
      (ReCaps None gs)
    = Some k'
    ∧ groups k' = gs ++ [string_of_list_ascii ds; String role EmptyString].
Proof.
  intros Hp Hds Hrole Hrest gs.
  change LAYER_RE with
    (RStar re_dot
     :: ((RLit <$> list_ascii_of_string "revlayer_")
         ++ [ROpen; RStar re_digit; RClose] ++ re_lit "/" ++
            [ROpen; RSet re_fg; RClose] ++ re_lit "/" ++ [RStar re_dot])).
  induction p as [|c p IH].
  - destruct (LAYER_RE_segment ds rest role gs Hds Hrole) as (k' & Hk' & Hg).
    exists k'. split; [|done].
    change ([] ++ list_ascii_of_string "revlayer_" ++ ds
              ++ "/"%char :: role :: "/"%char :: rest)
      with ("r"%char :: (list_ascii_of_string "evlayer_" ++ ds
                           ++ "/"%char :: role :: "/"%char :: rest)).
    rewrite re_star_cons.
    change (re_dot "r") with true. cbn iota.
    pose proof (LAYER_RE_no_match _ (occurs_in_tail_of_segment ds rest role Hds Hrole Hrest)
                  (re_consume "r" (ReCaps None gs))) as Hnone.
    change LAYER_RE with
      (RStar re_dot
       :: ((RLit <$> list_ascii_of_string "revlayer_")
           ++ [ROpen; RStar re_digit; RClose] ++ re_lit "/" ++
              [ROpen; RSet re_fg; RClose] ++ re_lit "/" ++ [RStar re_dot])) in Hnone.
    rewrite Hnone. exact Hk'.
  - simpl in Hp. apply andb_true_iff in Hp as [Hc Hp].
    destruct (IH Hp) as (k' & Hk' & Hg). exists k'. split; [|done].
    rewrite <- (app_comm_cons p _ c), re_star_cons, Hc.
    change (re_consume c (ReCaps None gs)) with (ReCaps None gs).
    by rewrite Hk'.
Qed.

Lemma re_fg_role (role : string) :
  role = "f" ∨ role = "g" →
  ∃ c, role = String c EmptyString ∧ re_fg c = true.
Proof. intros [->| ->]; eexists; split; reflexivity. Qed.

Lemma LAYER_RE_matches_layer_name (prefix rest : string) (i : nat) (role : string) :
  forallb re_dot (list_ascii_of_string prefix) = true →
  role = "f" ∨ role = "g" →
  str_in "revlayer_" rest = false →
  LAYER_RE_match (prefix +:+ "revlayer_" +:+ pretty i +:+ "/" +:+ role +:+ "/" +:+ rest)
  = Some (pretty i, role).
Proof.
  intros Hp Hrole Hrest.
  destruct (re_fg_role role Hrole) as (c & -> & Hc).
  assert (Hds : forallb re_digit (list_ascii_of_string (pretty i)) = true).
  { pose proof (py_int_of_pretty i) as Hint. unfold py_int in Hint. cbn zeta in Hint.
    case_bool_decide; [done|].
    by destruct (forallb re_digit (list_ascii_of_string (pretty i))). }
  destruct (LAYER_RE_match_chars (list_ascii_of_string prefix)
              (list_ascii_of_string (pretty i)) (list_ascii_of_string rest) c
              Hp Hds Hc Hrest []) as (k' & Hk' & Hg).
  unfold LAYER_RE_match. rewrite !chars_app.
  change (list_ascii_of_string "/") with ["/"%char].
  change (list_ascii_of_string (String c EmptyString)) with [c].
  cbn [app]. cbn [app] in Hk'. rewrite Hk', Hg. cbn [app].
  by rewrite string_of_list_ascii_of_string.
Qed.

(** A name that holds revlayer_, the layer number as the forward pass
    writes it, a slash, f or g, and a slash, with no newline before and no
    further revlayer_ after, is matched with that number and that
    letter. *)
Theorem LAYER_RE_match_layer_name (prefix rest : string) (i : nat) (role : string) :
  forallb re_dot (list_ascii_of_string prefix) = true →
  role = "f" ∨ role = "g" →
  str_in "revlayer_" rest = false →
  LAYER_RE_match (prefix +:+ "revlayer_" +:+ pretty i +:+ "/" +:+ role +:+ "/" +:+ rest)
  = Some (pretty i, role).
Proof. apply LAYER_RE_matches_layer_name. Qed.

Section LayerNames.
Context `{E : Engine}.

(** The forward pass writes, the backward pass reads: a variable whose
    name is that of the scope of layer [i], then f or g, then a name of
    its own that does not hold revlayer_, is attributed to layer [i] and to
    that function. *)
Theorem parse_variable_layer_name (t ref : Tensor) (prefix rest : string) (i : nat)
    (role : string) :
  variable_ref t = Some ref →
  tensor_name ref
  = prefix +:+ "revlayer_" +:+ pretty i +:+ "/" +:+ role +:+ "/" +:+ rest →
  forallb re_dot (list_ascii_of_string prefix) = true →
  role = "f" ∨ role = "g" →
  str_in "revlayer_" rest = false →
  parse_variable t = inr (ref, i, role).
Proof.
  intros Href Hname Hp Hrole Hrest. unfold parse_variable.
  rewrite Href, Hname, (LAYER_RE_matches_layer_name prefix rest i role Hp Hrole Hrest).
  by rewrite py_int_of_pretty.
Qed.

End LayerNames.

(** ** The gradient function of [rev_block]: when it raises, and what *)

Section GradientErrors.
Context `{E : Engine}.

Lemma list_index_elem (l : list Tensor) (t : Tensor) :
  t ∈ l →
  ∃ k, list_index l t = inr k ∧ l !! k = Some t
       ∧ ∀ j, j < k → l !! j ≠ Some t.
Proof.
  intros Hin. unfold list_index.
  destruct (list_find (λ x, x = t) l) as [[k t']|] eqn:Hfind.
  - apply list_find_Some in Hfind as (Hk & -> & Hfirst).
    exists k. split; [done|]. split; [done|].
    intros j Hj Hlook. by eapply Hfirst.
  - apply list_find_None in Hfind. rewrite list.Forall_forall in Hfind.
    by destruct (Hfind t Hin).
Qed.

(** The loop over the side inputs raises on the first one that is in
    neither list, with the error of [assert False], and never otherwise. *)
Lemma side_idxs_loop_cases (fs gs : list Tensor) (items : list (nat * Tensor)) :
  ∀ fi0 gi0 : list (option nat),
    length fi0 = length fs → length gi0 = length gs →
    if decide (Forall (λ it : nat * Tensor, it.2 ∈ fs ∨ it.2 ∈ gs) items)
    then ∃ fi gi, side_idxs_loop fs gs items fi0 gi0 = inr (fi, gi)
                  ∧ length fi = length fs ∧ length gi = length gs
    else side_idxs_loop fs gs items fi0 gi0 = inl AssertionError.
Proof.
  induction items as [|[i t] items IH]; intros fi0 gi0 Hlf Hlg.
  - rewrite decide_True by constructor. by exists fi0, gi0.
  - cbn [side_idxs_loop]. py_unfold.
    destruct (decide (t ∈ fs)) as [Hf|Hf].
    + rewrite bool_decide_true by done.
      destruct (list_index_elem fs t Hf) as (k & -> & Hk & _).
      rewrite py_setitem_ok by (rewrite Hlf; by eapply lookup_lt_Some).
      specialize (IH (<[k := Some i]> fi0) gi0).
      rewrite length_insert in IH. specialize (IH Hlf Hlg).
      destruct (decide (Forall _ items)) as [Hall|Hall].
      * rewrite decide_True by (constructor; [by left|done]). exact IH.
      * rewrite decide_False; [exact IH|].
        intros Hall'. apply Forall_cons_1 in Hall' as [_ ?]. done.
    + rewrite bool_decide_false by done.
      destruct (decide (t ∈ gs)) as [Hg|Hg].
      * rewrite bool_decide_true by done.
        destruct (list_index_elem gs t Hg) as (k & -> & Hk & _).
        rewrite py_setitem_ok by (rewrite Hlg; by eapply lookup_lt_Some).
        specialize (IH fi0 (<[k := Some i]> gi0)).
        rewrite length_insert in IH. specialize (IH Hlf Hlg).
        destruct (decide (Forall _ items)) as [Hall|Hall].
        -- rewrite decide_True by (constructor; [by right|done]). exact IH.
        -- rewrite decide_False; [exact IH|].
           intros Hall'. apply Forall_cons_1 in Hall' as [_ ?]. done.
      * rewrite bool_decide_false by done.
        rewrite decide_False; [done|].
        intros Hall'. apply Forall_cons_1 in Hall' as [[?|?] _]; done.
Qed.

Lemma parse_variable_no_assertion (t : Tensor) :
  parse_variable t ≠ inl AssertionError.
Proof.
  unfold parse_variable. destruct (variable_ref t); [|done].
  destruct (LAYER_RE_match _) as [[g1 g2]|]; [|done].
  unfold py_int. cbn zeta. case_bool_decide; [done|].
  by destruct (forallb _ _).
Qed.

Lemma py_append_at_error {A : Type} (ls : list (list A)) (k : nat) (x : A) (e : PyExn) :
  py_append_at ls k x = inl e → k ≥ length ls ∧ e = IndexError "list index out of range".
Proof.
  unfold py_append_at, py_index. py_unfold.
  destruct (ls !! k) eqn:Hk; [done|]. intros Heq. simplify_eq.
  split; [|done]. by apply lookup_ge_None.
Qed.

(** The [assert] of line 772 never fails. *)
Lemma vars_loop_no_assertion (items : list (nat * Tensor)) :
  ∀ vg, vars_loop items vg ≠ inl AssertionError.
Proof.
  induction items as [|[i t] items IH]; intros vg; [done|].
  cbn [vars_loop]. py_unfold.
  destruct (parse_variable t) as [e|[[ref l] r]] eqn:Hp.
  { intros Heq. simplify_eq. by eapply parse_variable_no_assertion. }
  cbn beta iota. case_bool_decide as Hf.
  - destruct (py_append_at (f_vars vg) l ref) eqn:H1.
    { apply py_append_at_error in H1 as [_ ->]. done. }
    destruct (py_append_at (f_vars_idxs vg) l i) eqn:H2.
    { apply py_append_at_error in H2 as [_ ->]. done. }
    apply IH.
  - destruct (parse_variable_role t ref l r Hp) as [->| ->]; [done|].
    unfold py_assert. rewrite bool_decide_true by done. cbn beta iota.
    destruct (py_append_at (g_vars vg) l ref) eqn:H1.
    { apply py_append_at_error in H1 as [_ ->]. done. }
    destruct (py_append_at (g_vars_idxs vg) l i) eqn:H2.
    { apply py_append_at_error in H2 as [_ ->]. done. }
    apply IH.
Qed.

Lemma unpack2_no_assertion {A : Type} (l : list A) : unpack2 l ≠ inl AssertionError.
Proof. by destruct l as [|? [|? [|? ?]]]. Qed.

Lemma tensor_add_no_assertion (a b : option Tensor) :
  tensor_add a b ≠ inl AssertionError.
Proof. by destruct a, b. Qed.

Lemma rev_layer_backward_no_assertion (cur : VarScope) (ys grad_ys : list Tensor)
    (f g : SubFn) (fv fsi gv gsi : list Tensor) :
  _rev_layer_backward cur ys grad_ys f g fv fsi gv gsi ≠ inl AssertionError.
Proof.
  unfold _rev_layer_backward. py_unfold.
  destruct (unpack2 ys) as [e|[y1 y2]] eqn:H1.
  { intros Heq. simplify_eq. by eapply unpack2_no_assertion. }
  destruct (unpack2 grad_ys) as [e|[gy1 gy2]] eqn:H2.
  { intros Heq. simplify_eq. by eapply unpack2_no_assertion. }
  cbn beta iota zeta.
  destruct (tensor_add (Some gy1) _) as [e|gx1] eqn:H3.
  { intros Heq. simplify_eq. by eapply tensor_add_no_assertion. }
  destruct (tensor_add _ (Some gy2)) as [e|s] eqn:H4.
  { intros Heq. simplify_eq. by eapply tensor_add_no_assertion. }
  destruct (tensor_add (Some s) _) as [e|gx2] eqn:H5.
  { intros Heq. simplify_eq. by eapply tensor_add_no_assertion. }
  by destruct (take 4 _) as [|[?|] [|[?|] [|[?|] [|[?|] [|? ?]]]]].
Qed.

Lemma backward_loop_no_assertion (layers : list nat) (scopes : list VarScope)
    (f g : list SubFn) (fv gv : list (list Tensor)) (fs gs : list Tensor) :
  ∀ ys grad_ys c,
    backward_loop layers scopes f g fv gv fs gs ys grad_ys c ≠ inl AssertionError.
Proof.
  induction layers as [|i layers IH]; intros ys grad_ys c; [done|].
  cbn [backward_loop]. unfold py_index. py_unfold.
  destruct (scopes !! i); [|done]. destruct (f !! i); [|done].
  destruct (g !! i); [|done]. destruct (fv !! i); [|done].
  destruct (gv !! i); [|done]. cbn beta iota.
  destruct (_rev_layer_backward _ _ _ _ _ _ _ _ _)
    as [e|[[[ys' gys'] [a b]] [a' b']]] eqn:Hcall.
  { intros Heq. simplify_eq. by eapply rev_layer_backward_no_assertion. }
  apply IH.
Qed.

Lemma scatter_no_assertion {A : Type} (W : list (nat * A)) :
  ∀ arr, scatter arr W ≠ inl AssertionError.
Proof.
  induction W as [|[i v] W IH]; intros arr; [done|].
  cbn [scatter]. unfold py_setitem. py_unfold. case_bool_decide; [apply IH|done].
Qed.

Lemma scatter_opt_no_assertion {A : Type} (W : list (option nat * A)) :
  ∀ arr, scatter_opt arr W ≠ inl AssertionError.
Proof.
  induction W as [|[[i|] v] W IH]; intros arr; [done| |done].
  cbn [scatter_opt py_setitem_opt]. unfold py_setitem. py_unfold.
  case_bool_decide; [apply IH|done].
Qed.

Lemma place_gradients_no_assertion (n_side n_vars : nat) (vg : VarGroups)
    (fi gi : list (option nat)) (c : Collected) (grad_ys : list Tensor) :
  place_gradients n_side n_vars vg fi gi c grad_ys ≠ inl AssertionError.
Proof.
  unfold place_gradients. py_unfold.
  destruct (scatter _ _) as [e|vgs] eqn:Hv.
  { intros Heq. simplify_eq. by eapply scatter_no_assertion. }
  destruct (scatter_opt _ (zip fi _)) as [e|s1] eqn:Hs1.
  { intros Heq. simplify_eq. by eapply scatter_opt_no_assertion. }
  destruct (scatter_opt _ (zip gi _)) as [e|s2] eqn:Hs2.
  { intros Heq. simplify_eq. by eapply scatter_opt_no_assertion. }
  destruct (unpack2 grad_ys) as [e|[a b]] eqn:Hu; [|done].
  intros Heq. simplify_eq. by eapply unpack2_no_assertion.
Qed.

Lemma Forall_enumerate_snd {A : Type} (P : A → Prop) (l : list A) :
  Forall (λ it : nat * A, P it.2) (enumerate l) ↔ Forall P l.
Proof.
  rewrite !list.Forall_forall. split.
  - intros H x Hx. apply list_elem_of_lookup in Hx as [i Hi].
    by apply (H (i, x)), elem_of_enumerate.
  - intros H [i x] Hx. apply elem_of_enumerate in Hx.
    apply H. by eapply list_elem_of_lookup_2.
Qed.

Lemma prepare_assertion (n : nat) (fs gs inputs variables : list Tensor) :
  prepare n fs gs inputs variables = inl AssertionError
  ↔ ¬ side_inputs_match fs gs inputs.
Proof.
  unfold prepare, side_inputs_match, py_assert. py_unfold. cbn zeta.
  case_bool_decide as Hlen.
  - cbn iota beta.
    pose proof (side_idxs_loop_cases fs gs (enumerate (drop 2 inputs))
                  (replicate (length fs) None) (replicate (length gs) None)) as Hloop.
    rewrite !length_replicate in Hloop. specialize (Hloop eq_refl eq_refl).
    destruct (decide (Forall _ (enumerate (drop 2 inputs)))) as [Hall|Hall].
    + destruct Hloop as (fi & gi & -> & _). cbn iota beta.
      apply (proj1 (Forall_enumerate_snd (λ t, t ∈ fs ∨ t ∈ gs) _)) in Hall.
      split; [|intros Hn; destruct Hn; done].
      destruct (vars_loop _ _) eqn:Hv; [|done].
      intros Heq. simplify_eq. exfalso. by eapply vars_loop_no_assertion.
    + rewrite Hloop. split; [|done]. intros _ [_ Hall'].
      apply Hall. by apply (proj2 (Forall_enumerate_snd (λ t, t ∈ fs ∨ t ∈ gs) _)).
  - split; [|done]. intros _ [? _]. done.
Qed.

(** The gradient function raises an AssertionError exactly when the side
    inputs it is passed are not as many as those of the block, or one of
    them is none of those of the block; nothing has then been
    reversed. *)
Theorem custom_grad_fn_assertion (num_layers : nat)
    (f_side_input g_side_input : list Tensor) (f g : nat)
    (inputs variables ys grad_ys : list Tensor) (st : PyState) :
  (¬ side_inputs_match f_side_input g_side_input inputs →
   rev_block_custom_grad_fn num_layers f_side_input g_side_input f g
     inputs variables ys grad_ys st = (st, inl AssertionError))
  ∧ (∀ st', rev_block_custom_grad_fn num_layers f_side_input g_side_input f g
              inputs variables ys grad_ys st = (st', inl AssertionError) →
            ¬ side_inputs_match f_side_input g_side_input inputs).
Proof.
  split.
  - intros Hbad. apply prepare_assertion with (n := num_layers) (variables := variables)
      in Hbad.
    pose proof (custom_grad_fn_state num_layers f_side_input g_side_input f g inputs
                  variables ys grad_ys st) as Hst.
    by rewrite Hbad in Hst.
  - intros st' Hrun. apply (prepare_assertion num_layers _ _ _ variables).
    unfold rev_block_custom_grad_fn, reverse_at in Hrun. py_unfold.
    destruct (prepare _ _ _ _ _) as [e|[[fi gi] vg]]; [by simplify_eq|].
    exfalso.
    destruct (backward_loop _ _ _ _ _ _ _ _ _ _ _) as [e|[[ys' gys'] c]] eqn:Hloop.
    { simplify_eq. by eapply backward_loop_no_assertion. }
    destruct (place_gradients _ _ _ _ _ _ _) as [e|r] eqn:Hplace; [|done].
    simplify_eq. by eapply place_gradients_no_assertion.
Qed.

End GradientErrors.

Section GradientEdges.
Context `{E : Engine}.

Lemma side_match_prepare (n : nat) (fs gs inputs : list Tensor) :
  side_inputs_match fs gs inputs →
  ∃ fi gi,
    side_idxs_loop fs gs (enumerate (drop 2 inputs))
      (replicate (length fs) None) (replicate (length gs) None) = inr (fi, gi)
    ∧ length fi = length fs ∧ length gi = length gs
    ∧ prepare n fs gs inputs [] = inr (fi, gi, MkGroups (replicate n []) (replicate n [])
                                                 (replicate n []) (replicate n [])).
Proof.
  intros [Hlen Hall].
  pose proof (side_idxs_loop_cases fs gs (enumerate (drop 2 inputs))
                (replicate (length fs) None) (replicate (length gs) None)) as Hloop.
  rewrite !length_replicate in Hloop. specialize (Hloop eq_refl eq_refl).
  rewrite decide_True in Hloop
    by (by apply (proj2 (Forall_enumerate_snd (λ t, t ∈ fs ∨ t ∈ gs) _))).
  destruct Hloop as (fi & gi & Hrun & Hfi & Hgi). exists fi, gi.
  split; [done|]. split; [done|]. split; [done|].
  unfold prepare, py_assert. py_unfold. cbn zeta.
  rewrite bool_decide_true by done. cbn iota beta. by rewrite Hrun.
Qed.

(** The loop over the variables, on variables that all have a layer and a
    function: it raises the IndexError of [f_vars[layer_no]] when one of
    the layers is not below [num_layers]. *)
Lemma vars_loop_out_of_range (n : nat) (items : list (nat * Tensor)) :
  ∀ vg,
    length (f_vars vg) = n → length (g_vars vg) = n →
    length (f_vars_idxs vg) = n → length (g_vars_idxs vg) = n →
    Forall (λ it, ∃ ref l r, parse_variable it.2 = inr (ref, l, r)) items →
    Exists (λ it, ∃ ref l r, parse_variable it.2 = inr (ref, l, r) ∧ (n ≤ l)%nat) items →
    vars_loop items vg = inl (IndexError "list index out of range").
Proof.
  induction items as [|[i t] items IH]; intros vg H1 H2 H3 H4 Hall Hex.
  { inversion Hex. }
  apply Forall_cons_1 in Hall as [(ref & l & r & Hp) Hall].
  cbn [vars_loop]. simpl in Hp. rewrite Hp. py_unfold. cbn beta iota.
  destruct (decide (l < n)) as [Hl|Hl].
  - assert (Hex' : Exists (λ it, ∃ ref l r, parse_variable it.2 = inr (ref, l, r)
                                           ∧ (n ≤ l)%nat)
                     items).
    { apply Exists_cons in Hex as [(ref' & l' & r' & Hp' & Hl')|Hex]; [|done].
      simpl in Hp'. rewrite Hp in Hp'. simplify_eq. lia. }
    case_bool_decide.
    + rewrite !py_append_at_ok by lia. cbn beta iota.
      apply IH; simpl; rewrite ?length_alter; done.
    + destruct (parse_variable_role t ref l r Hp) as [->| ->]; [done|].
      unfold py_assert. rewrite bool_decide_true by done. cbn beta iota.
      rewrite !py_append_at_ok by lia. cbn beta iota.
      apply IH; simpl; rewrite ?length_alter; done.
  - assert (Hnone : ∀ (A : Type) (ls : list (list A)) (x : A),
              length ls = n →
              py_append_at ls l x = inl (IndexError "list index out of range")).
    { intros A ls x Hls. unfold py_append_at, py_index.
      by rewrite (proj2 (lookup_ge_None ls l)) by lia. }
    case_bool_decide.
    + by rewrite Hnone.
    + destruct (parse_variable_role t ref l r Hp) as [->| ->]; [done|].
      unfold py_assert. rewrite bool_decide_true by done. cbn beta iota.
      by rewrite Hnone.
Qed.

(** A variable whose name gives a layer that is not below [num_layers]
    makes the gradient function raise the IndexError of
    [f_vars[layer_no]], when the side inputs are those of the block and
    every variable has a layer and a function; nothing has then been
    reversed. *)
Theorem custom_grad_fn_layer_out_of_range (num_layers : nat)
    (f_side_input g_side_input : list Tensor) (f g : nat)
    (inputs variables ys grad_ys : list Tensor) (st : PyState) :
  side_inputs_match f_side_input g_side_input inputs →
  Forall (λ t, ∃ ref l r, parse_variable t = inr (ref, l, r)) variables →
  Exists (λ t, ∃ ref l r, parse_variable t = inr (ref, l, r) ∧ (num_layers ≤ l)%nat)
         variables →
  rev_block_custom_grad_fn num_layers f_side_input g_side_input f g
    inputs variables ys grad_ys st
  = (st, inl (IndexError "list index out of range")).
Proof.
  intros Hside Hall Hex.
  destruct (side_match_prepare num_layers _ _ _ Hside)
    as (fi & gi & Hloop & _ & _ & _).
  assert (Hprep : prepare num_layers f_side_input g_side_input inputs variables
                  = inl (IndexError "list index out of range")).
  { unfold prepare, py_assert. py_unfold. cbn zeta.
    rewrite bool_decide_true by apply Hside. cbn iota beta. rewrite Hloop.
    cbn iota beta.
    rewrite (vars_loop_out_of_range num_layers); [done|simpl; by rewrite length_replicate..| |].
    - by apply (proj2 (Forall_enumerate_snd
                         (λ t, ∃ ref l r, parse_variable t = inr (ref, l, r)) _)).
    - apply list.Exists_exists in Hex as (t & Hin & Ht).
      apply list_elem_of_lookup in Hin as [i Hi].
      apply list.Exists_exists. exists (i, t). split; [by apply elem_of_enumerate|done]. }
  pose proof (custom_grad_fn_state num_layers f_side_input g_side_input f g inputs
                variables ys grad_ys st) as Hst.
  by rewrite Hprep in Hst.
Qed.

(** A block of no layer: the gradient function hands back the incoming
    gradients for [x1] and [x2] and None for every side input. *)
Theorem custom_grad_fn_no_layer (f_side_input g_side_input : list Tensor) (f g : nat)
    (x1 x2 : Tensor) (side_inputs ys : list Tensor) (gy1 gy2 : Tensor) (st : PyState) :
  side_inputs_match f_side_input g_side_input (x1 :: x2 :: side_inputs) →
  rev_block_custom_grad_fn 0 f_side_input g_side_input f g
    (x1 :: x2 :: side_inputs) [] ys [gy1; gy2] st
  = (reversed f g st,
     inr ([Some gy1; Some gy2] ++ replicate (length side_inputs) None, [])).
Proof.
  intros Hside.
  destruct (side_match_prepare 0 _ _ _ Hside)
    as (fi & gi & _ & _ & _ & Hprep).
  unfold rev_block_custom_grad_fn, reverse_at. py_unfold. rewrite Hprep.
  cbn beta iota. fold (reversed f g st).
  cbn [seq backward_loop]. py_unfold. cbn beta iota.
  unfold place_gradients. py_unfold. cbn zeta.
  cbn [f_side_grads g_side_grads f_var_grads g_var_grads f_vars_idxs g_vars_idxs
       replicate reverse].
  change (_acc_grads []) with (@nil (option Tensor)).
  rewrite !zip_with_nil_r. reflexivity.
Qed.

Lemma reversed_twice (lf lg : nat) (st : PyState) :
  layer_scopes (reversed lf lg (reversed lf lg st)) = layer_scopes st
  ∧ next_loc (reversed lf lg (reversed lf lg st)) = next_loc st
  ∧ ∀ l, heap (reversed lf lg (reversed lf lg st)) l = heap st l.
Proof.
  unfold reversed, set_heap, set_layer_scopes. simpl.
  split; [by rewrite reverse_involutive|]. split; [done|]. intros l.
  destruct (decide (lf = lg)) as [->|Hne]; destruct (decide (l = lg)) as [->|Hlg];
    try destruct (decide (l = lf)) as [->|Hlf];
    repeat (rewrite fn_lookup_insert || rewrite fn_lookup_insert_ne by congruence);
    by rewrite ?reverse_involutive.
Qed.

(** The reversal is not undone by the call that makes it, but by the next
    one: after two calls of the gradient function of one block on
    arguments that pass its checks (lines 746 to 774), whether they return
    or raise later, [layer_scopes] and the lists [f] and [g] are as before
    the first, so that the second call walks them in the order of the
    forward pass. *)
Theorem custom_grad_fn_twice (num_layers : nat)
    (f_side_input g_side_input : list Tensor) (f g : nat)
    (inputs variables ys grad_ys inputs' variables' ys' grad_ys' : list Tensor)
    (st : PyState) :
  (∃ r, prepare num_layers f_side_input g_side_input inputs variables = inr r) →
  (∃ r, prepare num_layers f_side_input g_side_input inputs' variables' = inr r) →
  let st1 := (rev_block_custom_grad_fn num_layers f_side_input g_side_input f g
                inputs variables ys grad_ys st).1 in
  let st2 := (rev_block_custom_grad_fn num_layers f_side_input g_side_input f g
                inputs' variables' ys' grad_ys' st1).1 in
  st1 = reversed f g st
  ∧ layer_scopes st1 = reverse (layer_scopes st)
  ∧ layer_scopes st2 = layer_scopes st
  ∧ ∀ l, heap st2 l = heap st l.
Proof.
  intros [r1 Hr1] [r2 Hr2] st1 st2.
  pose proof (custom_grad_fn_state num_layers f_side_input g_side_input f g inputs
                variables ys grad_ys st) as H1.
  rewrite Hr1 in H1. fold st1 in H1.
  pose proof (custom_grad_fn_state num_layers f_side_input g_side_input f g inputs'
                variables' ys' grad_ys' st1) as H2.
  rewrite Hr2 in H2. fold st2 in H2.
  rewrite H2, H1. split; [done|]. split; [done|].
  destruct (reversed_twice f g st) as (Hs & _ & Hh). done.
Qed.

End GradientEdges.

Section GradientNeeds.
Context `{E : Engine}.

(** An index is written by the loop over the side inputs only at the
    first place of a side input in its list, and for [g] only when the
    side input is not one of [f]. *)
Lemma side_idxs_loop_first (fs gs : list Tensor) (I items : list (nat * Tensor)) :
  (∀ it, it ∈ items → it ∈ I) →
  ∀ fi0 gi0 fi gi,
    side_idxs_loop fs gs items fi0 gi0 = inr (fi, gi) →
    (∀ k i, fi0 !! k = Some (Some i) →
       ∃ t, (i, t) ∈ I ∧ fs !! k = Some t ∧ ∀ j, j < k → fs !! j ≠ Some t) →
    (∀ k i, gi0 !! k = Some (Some i) →
       ∃ t, (i, t) ∈ I ∧ (t ∉ fs) ∧ gs !! k = Some t
            ∧ ∀ j, j < k → gs !! j ≠ Some t) →
    (∀ k i, fi !! k = Some (Some i) →
       ∃ t, (i, t) ∈ I ∧ fs !! k = Some t ∧ ∀ j, j < k → fs !! j ≠ Some t)
    ∧ (∀ k i, gi !! k = Some (Some i) →
         ∃ t, (i, t) ∈ I ∧ (t ∉ fs) ∧ gs !! k = Some t
              ∧ ∀ j, j < k → gs !! j ≠ Some t).
Proof.
  induction items as [|[i t] items IH]; intros Hsub fi0 gi0 fi gi Hrun HF HG.
  { simpl in Hrun. unfold ok in Hrun. by simplify_eq. }
  assert (Hit : (i, t) ∈ I) by (apply Hsub; left).
  assert (Hsub' : ∀ it, it ∈ items → it ∈ I) by (intros it Hin; apply Hsub; by right).
  cbn [side_idxs_loop] in Hrun. py_unfold.
  destruct (decide (t ∈ fs)) as [Hf|Hf].
  - rewrite bool_decide_true in Hrun by done.
    destruct (list_index_elem fs t Hf) as (k & Hk & Hlook & Hfirst).
    rewrite Hk in Hrun. unfold py_setitem in Hrun. py_unfold.
    case_bool_decide as Hlt; [|done]. cbn beta iota in Hrun.
    apply (IH Hsub' _ _ _ _ Hrun); [|done].
    intros k' i' Hk'. destruct (decide (k' = k)) as [->|Hne].
    + rewrite list_lookup_insert_eq in Hk' by done. simplify_eq. by exists t.
    + rewrite list_lookup_insert_ne in Hk' by done. by apply HF.
  - rewrite bool_decide_false in Hrun by done.
    destruct (decide (t ∈ gs)) as [Hg|Hg].
    + rewrite bool_decide_true in Hrun by done.
      destruct (list_index_elem gs t Hg) as (k & Hk & Hlook & Hfirst).
      rewrite Hk in Hrun. unfold py_setitem in Hrun. py_unfold.
      case_bool_decide as Hlt; [|done]. cbn beta iota in Hrun.
      apply (IH Hsub' _ _ _ _ Hrun); [done|].
      intros k' i' Hk'. destruct (decide (k' = k)) as [->|Hne].
      * rewrite list_lookup_insert_eq in Hk' by done. simplify_eq. by exists t.
      * rewrite list_lookup_insert_ne in Hk' by done. by apply HG.
    + by rewrite bool_decide_false in Hrun by done.
Qed.

Lemma scatter_opt_returns {A : Type} (W : list (option nat * A)) :
  ∀ arr arr', scatter_opt arr W = inr arr' → Forall (λ p, is_Some p.1) W.
Proof.
  induction W as [|[[i|] v] W IH]; intros arr arr' Hrun; [constructor| |done].
  cbn [scatter_opt py_setitem_opt] in Hrun. py_unfold.
  destruct (py_setitem arr i v); [done|]. constructor; [by eexists|]. by eapply IH.
Qed.

Lemma first_places_NoDup (l : list Tensor) :
  (∀ k t, l !! k = Some t → ∀ j, j < k → l !! j ≠ Some t) → NoDup l.
Proof.
  intros Hfirst. apply NoDup_alt. intros i j t Hi Hj.
  destruct (decide (i < j)) as [Hlt|Hge].
  { by destruct (Hfirst j t Hj i Hlt). }
  destruct (decide (j < i)) as [Hlt|Hge'].
  { by destruct (Hfirst i t Hi j Hlt). }
  lia.
Qed.

(** What one call of [_rev_layer_backward] returns, when it returns: as
    many gradients as variables and as side inputs. *)
Lemma rev_layer_backward_lengths (sc : VarScope) (ys grad_ys : list Tensor)
    (f g : SubFn) (fv fs gv gs : list Tensor) xs gxs a b a' b' :
  _rev_layer_backward (variable_scope_reuse sc) ys grad_ys f g fv fs gv gs
  = inr (xs, gxs, (a, b), (a', b')) →
  length a = length fv ∧ length b = length fs
  ∧ length a' = length gv ∧ length b' = length gs.
Proof.
  intros Hrun.
  assert (∃ y1 y2 gy1 gy2, ys = [y1; y2] ∧ grad_ys = [gy1; gy2])
    as (y1 & y2 & gy1 & gy2 & -> & ->).
  { unfold _rev_layer_backward in Hrun. py_unfold.
    destruct ys as [|y1 [|y2 [|? ?]]]; try done.
    destruct grad_ys as [|gy1 [|gy2 [|? ?]]]; try done. by eexists _, _, _, _. }
  pose proof (layer_call_spec fs gs (MkCtx sc f g fv gv y1 y2 gy1 gy2)) as Hspec.
  unfold layer_call in Hspec. cbn [lc_scope lc_f lc_g lc_f_vars lc_g_vars lc_y1 lc_y2
    lc_grad_y1 lc_grad_y2] in Hspec.
  rewrite Hrun in Hspec.
  destruct (lc_out fs gs _) as [[[[z1 z2] gz1] gz2]|]; [|done].
  simplify_eq. by rewrite !length_fmap.
Qed.

Lemma backward_loop_side_lengths (layers : list nat) (scopes : list VarScope)
    (f g : list SubFn) (fv gv : list (list Tensor)) (fs gs : list Tensor) :
  ∀ ys grad_ys c0 ys' grad_ys' c,
    backward_loop layers scopes f g fv gv fs gs ys grad_ys c0 = inr (ys', grad_ys', c) →
    Forall (λ l, length l = length fs) (f_side_grads c0) →
    Forall (λ l, length l = length gs) (g_side_grads c0) →
    Forall (λ l, length l = length fs) (f_side_grads c)
    ∧ Forall (λ l, length l = length gs) (g_side_grads c)
    ∧ length (f_side_grads c) = length (f_side_grads c0) + length layers
    ∧ length (g_side_grads c) = length (g_side_grads c0) + length layers.
Proof.
  induction layers as [|i layers IH]; intros ys grad_ys c0 ys' grad_ys' c Hrun HF HG.
  { simpl in Hrun. unfold ok in Hrun. simplify_eq. repeat split; try done; lia. }
  cbn [backward_loop] in Hrun. unfold py_index in Hrun. py_unfold.
  destruct (scopes !! i) as [sc|]; [|done]. destruct (f !! i) as [fi|]; [|done].
  destruct (g !! i) as [gi|]; [|done]. destruct (fv !! i) as [fvi|]; [|done].
  destruct (gv !! i) as [gvi|]; [|done]. cbn beta iota in Hrun.
  destruct (_rev_layer_backward _ _ _ _ _ _ _ _ _)
    as [e|[[[xs gxs] [a b]] [a' b']]] eqn:Hcall; [done|].
  apply rev_layer_backward_lengths in Hcall as (_ & Hb & _ & Hb').
  cbn beta iota in Hrun.
  apply IH in Hrun as (H1 & H2 & H3 & H4); cbn [f_side_grads g_side_grads] in *.
  - repeat split; try done; rewrite ?length_app in *; simpl in *; lia.
  - apply Forall_app. split; [done|]. by constructor.
  - apply Forall_app. split; [done|]. by constructor.
Qed.

Lemma min_length_same {A : Type} (Ls : list (list A)) (m : nat) :
  Ls ≠ [] → Forall (λ l, length l = m) Ls → min_length Ls = m.
Proof.
  intros Hne Hall.
  rewrite <- (list_fmap_id Ls). apply min_length_const; [done|].
  intros L HL. rewrite list.Forall_forall in Hall. by apply Hall.
Qed.

Lemma acc_grads_length (Ls : list (list (option Tensor))) :
  length (_acc_grads Ls) = min_length Ls.
Proof. unfold _acc_grads, zip_star. by rewrite !length_fmap, length_seq. Qed.

Lemma all_written (idxs : list (option nat)) (acc : list (option Tensor)) :
  length acc = length idxs →
  Forall (λ p : option nat * option Tensor, is_Some p.1) (zip idxs acc) →
  ∀ k, k < length idxs → ∃ i, idxs !! k = Some (Some i).
Proof.
  intros Hlen Hall k Hk.
  destruct (lookup_lt_is_Some_2 idxs k Hk) as [o Ho].
  destruct (lookup_lt_is_Some_2 acc k ltac:(lia)) as [v Hv].
  assert (Hin : (o, v) ∈ zip idxs acc).
  { apply list_elem_of_lookup. exists k. rewrite lookup_zip_with, Ho. simpl. by rewrite Hv. }
  rewrite list.Forall_forall in Hall. destruct (Hall _ Hin) as [i Hi].
  simpl in Hi. subst o. by exists i.
Qed.

(** The gradient function of a block of one layer or more returns only
    when the side inputs of the block are distinct tensors and the side
    inputs it is passed are those, in some order. *)
Theorem custom_grad_fn_needs_distinct_side_inputs (num_layers : nat)
    (f_side_input g_side_input : list Tensor) (f g : nat)
    (inputs variables ys grad_ys : list Tensor) (st st' : PyState)
    (res : list (option Tensor) * list (option Tensor)) :
  0 < num_layers →
  rev_block_custom_grad_fn num_layers f_side_input g_side_input f g
    inputs variables ys grad_ys st = (st', inr res) →
  NoDup (f_side_input ++ g_side_input)
  ∧ drop 2 inputs ≡ₚ f_side_input ++ g_side_input.
Proof.
  intros Hn Hrun. set (fs := f_side_input) in *. set (gs := g_side_input) in *.
  unfold rev_block_custom_grad_fn, reverse_at in Hrun. py_unfold.
  destruct (prepare _ _ _ _ _) as [e|[[fi gi] vg]] eqn:Hprep; [done|].
  destruct (backward_loop _ _ _ _ _ _ _ _ _ _ _) as [e|[[ys' gys'] c]] eqn:Hloop; [done|].
  destruct (place_gradients _ _ _ _ _ _ _) as [e|r] eqn:Hplace; [done|].
  (* the preparation *)
  pose proof (prepare_asserts _ _ _ _ _ _ Hprep) as Hlen.
  unfold prepare, py_assert in Hprep. py_unfold. cbn zeta in Hprep.
  rewrite bool_decide_true in Hprep by done. cbn beta iota in Hprep.
  destruct (side_idxs_loop _ _ _ _ _) as [e|[fi' gi']] eqn:Hside; [done|].
  cbn beta iota in Hprep. destruct (vars_loop _ _) as [e|vg']; [done|].
  simplify_eq.
  pose proof (side_idxs_loop_cases fs gs (enumerate (drop 2 inputs))
                (replicate (length fs) None) (replicate (length gs) None)) as Hcases.
  rewrite !length_replicate in Hcases. specialize (Hcases eq_refl eq_refl).
  destruct (decide (Forall _ (enumerate (drop 2 inputs)))) as [Hall|_];
    [|by rewrite Hside in Hcases].
  destruct Hcases as (fi2 & gi2 & Heq & Hfi & Hgi). rewrite Hside in Heq.
  assert (fi2 = fi ∧ gi2 = gi) as [-> ->] by (by simplify_eq). clear Heq.
  destruct (side_idxs_loop_first fs gs (enumerate (drop 2 inputs))
              (enumerate (drop 2 inputs)) (λ _ H, H) _ _ _ _ Hside) as [HF HG].
  { intros k i Hk. apply lookup_replicate in Hk as [? _]. done. }
  { intros k i Hk. apply lookup_replicate in Hk as [? _]. done. }
  (* the loop over the layers *)
  destruct (backward_loop_side_lengths _ _ _ _ _ _ _ _ _ _ _ _ _ _ Hloop)
    as (HlF & HlG & HnF & HnG); [constructor..|].
  rewrite length_seq in HnF, HnG. simpl in HnF, HnG.
  assert (HaF : length (_acc_grads (f_side_grads c)) = length fi).
  { rewrite acc_grads_length, Hfi. apply min_length_same; [|done].
    intros Heq. rewrite Heq in HnF. simpl in HnF. lia. }
  assert (HaG : length (_acc_grads (g_side_grads c)) = length gi).
  { rewrite acc_grads_length, Hgi. apply min_length_same; [|done].
    intros Heq. rewrite Heq in HnG. simpl in HnG. lia. }
  (* the gradients put in their places *)
  unfold place_gradients in Hplace. py_unfold. cbn zeta in Hplace.
  destruct (scatter _ _) as [e|vgs]; [done|].
  destruct (scatter_opt _ (zip fi _)) as [e|s1] eqn:Hs1; [done|].
  destruct (scatter_opt _ (zip gi _)) as [e|s2] eqn:Hs2; [done|].
  apply scatter_opt_returns in Hs1, Hs2.
  pose proof (all_written fi _ HaF Hs1) as HwF.
  pose proof (all_written gi _ HaG Hs2) as HwG.
  rewrite Hfi in HwF. rewrite Hgi in HwG.
  assert (Hndf : NoDup fs).
  { apply first_places_NoDup. intros k t Hk.
    destruct (HwF k (lookup_lt_Some _ _ _ Hk)) as [i Hi].
    destruct (HF k i Hi) as (t' & _ & Hk' & Hfirst). by simplify_eq. }
  assert (Hndg : NoDup gs).
  { apply first_places_NoDup. intros k t Hk.
    destruct (HwG k (lookup_lt_Some _ _ _ Hk)) as [i Hi].
    destruct (HG k i Hi) as (t' & _ & _ & Hk' & Hfirst). by simplify_eq. }
  assert (Hdisj : ∀ t, t ∈ fs → t ∉ gs).
  { intros t Hf Hg. apply list_elem_of_lookup in Hg as [k Hk].
    destruct (HwG k (lookup_lt_Some _ _ _ Hk)) as [i Hi].
    destruct (HG k i Hi) as (t' & _ & Hnot & Hk' & _). by simplify_eq. }
  assert (Hnd : NoDup (fs ++ gs)) by (by apply list.NoDup_app).
  split; [done|]. symmetry.
  apply submseteq_length_Permutation; [|rewrite length_app; lia].
  apply NoDup_submseteq; [done|].
  intros t Ht. apply elem_of_app in Ht as [Ht|Ht];
    apply list_elem_of_lookup in Ht as [k Hk].
  - destruct (HwF k (lookup_lt_Some _ _ _ Hk)) as [i Hi].
    destruct (HF k i Hi) as (t' & Hin & Hk' & _). simplify_eq.
    apply elem_of_enumerate in Hin. by eapply list_elem_of_lookup_2.
  - destruct (HwG k (lookup_lt_Some _ _ _ Hk)) as [i Hi].
    destruct (HG k i Hi) as (t' & Hin & _ & Hk' & _). simplify_eq.
    apply elem_of_enumerate in Hin. by eapply list_elem_of_lookup_2.
Qed.

End GradientNeeds.

(** ** One layer backward: when it raises *)

Section LayerBackward.
Context `{E : Engine}.

(** Called as the block calls it, on two outputs and two gradients,
    [_rev_layer_backward] raises exactly when the engine gives None for
    one of the three gradients with respect to the inputs of [g] and [f]
    (the error is that of adding None); None for the gradient of a
    variable or of a side input never makes it raise.  When it returns,
    it returns one gradient per variable and per side input. *)
Theorem rev_layer_backward_raises_iff (sc : VarScope) (y1 y2 gy1 gy2 : Tensor)
    (f g : SubFn) (f_vars f_side_input g_vars g_side_input : list Tensor) :
  let r := reconstruct (variable_scope_reuse sc) y1 y2 f g f_side_input g_side_input in
  let d := dydx [rc_gy1 r] [gy2] (rc_y1_stop r) in
  let a := dydx [rc_fx2 r] [gy1] (rc_x2_stop r) in
  let b := dydx [rc_fx2 r] (option_list d) (rc_x2_stop r) in
  let run := _rev_layer_backward (variable_scope_reuse sc) [y1; y2] [gy1; gy2] f g
               f_vars f_side_input g_vars g_side_input in
  (run = inl (ValueError "None values not supported.")
   ↔ d = None ∨ a = None ∨ b = None)
  ∧ (is_Some d → is_Some a → is_Some b →
     ∃ x1 x2 gx1 gx2 gfv gfs ggv ggs,
       run = inr ([x1; x2], [gx1; gx2], (gfv, gfs), (ggv, ggs))
       ∧ length gfv = length f_vars ∧ length gfs = length f_side_input
       ∧ length ggv = length g_vars ∧ length ggs = length g_side_input).
Proof.
  intros r d a b run.
  pose proof (layer_call_spec f_side_input g_side_input
                (MkCtx sc f g f_vars g_vars y1 y2 gy1 gy2)) as Hspec.
  unfold layer_call in Hspec.
  cbn [lc_scope lc_f lc_g lc_f_vars lc_g_vars lc_y1 lc_y2 lc_grad_y1 lc_grad_y2] in Hspec.
  fold run in Hspec. unfold lc_out, lc_grad_xs, lc_d, lc_rec in Hspec.
  cbn [lc_scope lc_f lc_g lc_f_vars lc_g_vars lc_y1 lc_y2 lc_grad_y1 lc_grad_y2] in Hspec.
  fold r in Hspec. fold d in Hspec. fold a in Hspec.
  assert (Hb : ∀ d', d = Some d' → dydx [rc_fx2 r] [d'] (rc_x2_stop r) = b).
  { intros d' Hd. unfold b. by rewrite Hd. }
  destruct d as [d'|] eqn:Hd; cbn [mbind option_bind] in Hspec.
  - rewrite (Hb d' eq_refl) in Hspec.
    destruct a as [a'|]; cbn [mbind option_bind] in Hspec.
    + destruct b as [b'|]; cbn [mbind option_bind] in Hspec.
      * split.
        -- rewrite Hspec. split; [done|]. intros [?|[?|?]]; done.
        -- intros _ _ _. eexists _, _, _, _, _, _, _, _. split; [exact Hspec|].
           by rewrite !length_fmap.
      * split; [|intros _ _ [? ?]; done]. split; [auto|done].
    + split; [|intros _ [? ?]; done]. split; [auto|done].
  - split; [|intros [? ?]; done]. split; [auto|done].
Qed.

End LayerBackward.

(** ** The Defun of the wrapper *)

Section DefunShape.
Context `{E : Engine}.

(** The Defun the wrapper registers, for a forward function that returns
    tensors: one type per argument of the call, one shape per output, and
    a body that returns, of the arguments of the call, the outputs of the
    forward function and nothing else, in order, each through
    [tf.identity]. *)
Theorem fn_with_custom_grad_defun (cur : VarScope) (rand : nat) (fn : Fn)
    (inputs : list Tensor) (grad_fn : GradFn) (use_global_vars : bool)
    (st st' : PyState) (r : FnOut) (outs : list Tensor) :
  fn (default_scope cur "fn_with_custom_grad") inputs st = (st', inr r) →
  outputs_list (fo_outputs r) = Some <$> outs →
  let train_vars := if use_global_vars then fo_global r else fo_trainable r in
  let args := inputs ++ train_vars ++ outs in
  ∃ d,
    _fn_with_custom_grad cur rand fn inputs (Some grad_fn) use_global_vars st
    = (st', inr (defun_call (df_func_name d) args (length outs), Some d))
    ∧ length (df_signature d) = length args
    ∧ length (df_shape_func d) = length outs
    ∧ df_body d args = tf_identity <$> outs
    ∧ length (df_body d args) = length (df_shape_func d).
Proof.
  intros Hfn Houts train_vars args.
  pose proof (wrapper_returns cur rand fn inputs grad_fn use_global_vars st st' r outs
                Hfn Houts) as Hrun.
  cbn zeta in Hrun. fold train_vars in Hrun. fold args in Hrun.
  eexists (MkDefun _ _ _ _ _). cbn [df_signature df_shape_func df_body df_func_name].
  split; [exact Hrun|].
  assert (Hbody : identity (length inputs) (length train_vars) args = tf_identity <$> outs).
  { unfold identity, args. rewrite app_assoc.
    rewrite drop_app_length' by (by rewrite length_app). done. }
  rewrite Hbody. unfold args. rewrite !length_app, !length_fmap. done.
Qed.

End DefunShape.

(** ** The gradient function [rev_block] installs, as the engine calls it *)

Section BlockDefun.
Context `{E : Engine}.

(** In training mode [rev_block] registers a Defun whose gradient
    function returns, whenever it returns, one entry per input of the op:
    the op has two inputs more than inputs and variables, two gradients
    come in, and the entries for the last two inputs, the outputs of the
    forward pass, are None. *)
Theorem rev_block_gradient_arity (cur : VarScope) (rand : nat) (x1 x2 : Tensor)
    (f g : FnArg) (num_layers : nat) (f_side_input g_side_input : option (list Tensor))
    (st0 : PyState) :
  arg_valid st0 f → arg_valid st0 g →
  arg_ok st0 num_layers f → arg_ok st0 num_layers g →
  ∃ out d st1,
    rev_block cur rand x1 x2 f g num_layers f_side_input g_side_input true st0
    = (st1, inr (out, Some d))
    ∧ ∀ (cur' : VarScope) (op_inputs dys : list Tensor) (st st' : PyState)
        (res : list (option Tensor)),
        df_python_grad_func d cur' op_inputs dys st = (st', inr res) →
        length res = length op_inputs
        ∧ length dys = 2
        ∧ drop (length op_inputs - 2) res = [None; None].
Proof.
  intros Hvf Hvg Hf Hg.
  destruct (rev_block_installs cur rand x1 x2 f g num_layers f_side_input
              g_side_input st0 Hvf Hvg Hf Hg)
    as (out & d & st1 & Hrun & _ & Hlf & Hlg & Hgrad).
  exists out, d, st1. split; [exact Hrun|].
  intros cur' op_inputs dys st st' res Hres. rewrite Hgrad in Hres.
  remember (length (x1 :: x2 :: default [] f_side_input ++ default [] g_side_input))
    as n_in eqn:Hn_in.
  remember (length (block_variables _ _ _ _)) as n_vars eqn:Hn_vars.
  apply defun_custom_grad_fn_inner in Hres
    as (g_in & g_var & Hinner & -> & Hdrop & Hdys).
  apply custom_grad_fn_lengths in Hinner as [Hin Hvar].
  rewrite length_drop, length_take in Hvar. rewrite length_drop in Hdrop.
  cbn [length] in Hn_in. rewrite length_app in Hn_in.
  assert (Hlen : length op_inputs = n_in + n_vars + 2) by lia.
  rewrite length_drop, !length_app, length_replicate.
  split; [lia|]. split; [done|].
  replace (length op_inputs - (n_in + n_vars)) with 2 by lia.
  rewrite app_assoc. rewrite drop_app_length'; [done|]. rewrite length_app. lia.
Qed.

End BlockDefun.

(** ** [recompute_grad] on the backward pass *)

Section RecomputeBackward.
Context `{E : Engine}.

(** The function [recompute_grad] makes, called on a function that
    returns a list or tuple of tensors, registers a gradient function
    that runs [fn] a second time, in the state and under the scope of the
    backward pass: an exception of that call, or of [list(...)] of what
    it returns, is the exception of the backward pass; otherwise the
    gradients are those of the new outputs with respect to the inputs and
    to the variables of the first call, in that order, followed by one
    None per output. *)
Theorem recompute_grad_backward (cur : VarScope) (rand : nat) (fn : Fn)
    (args : list Tensor) (st st' : PyState) (r : FnOut) (outs : list Tensor) :
  fn (default_scope cur "fn_with_custom_grad") args st = (st', inr r) →
  outputs_list (fo_outputs r) = Some <$> outs →
  ∃ d out,
    recompute_grad fn cur rand args st = (st', inr (out, Some d))
    ∧ ∀ (cur_b : VarScope) (dys : list Tensor) (stb : PyState),
        length dys = length outs →
        df_python_grad_func d cur_b (args ++ fo_trainable r ++ outs) dys stb
        = match fn cur_b args stb with
          | (stb', inl e) => (stb', inl e)
          | (stb', inr r') =>
              match py_list (fo_outputs r') with
              | inl e => (stb', inl e)
              | inr outs' =>
                  (stb', inr (tf_gradients outs' (args ++ fo_trainable r) dys
                              ++ replicate (length outs) None))
              end
          end.
Proof.
  intros Hfn Houts.
  destruct (recompute_grad_installs cur rand fn args st st' r outs Hfn Houts)
    as (d & Hrun & Hgrad).
  exists d. eexists. split; [exact Hrun|].
  intros cur_b dys stb Hdys. rewrite Hgrad.
  destruct (fn cur_b args stb) as [stb' [e|r']] eqn:Hfn'.
  - unfold defun_custom_grad_fn, recompute_grad_fn, py_assert. py_unfold.
    rewrite !take_app_length.
    assert (Hout : drop (length args + length (fo_trainable r))
                     (args ++ fo_trainable r ++ outs) = outs).
    { rewrite app_assoc. apply drop_app_length'. by rewrite length_app. }
    rewrite Hout. rewrite !bool_decide_true by done. by rewrite Hfn'.
  - destruct (py_list (fo_outputs r')) as [e|outs'] eqn:Hlist.
    + unfold defun_custom_grad_fn, recompute_grad_fn, py_assert. py_unfold.
      rewrite !take_app_length.
      assert (Hout : drop (length args + length (fo_trainable r))
                       (args ++ fo_trainable r ++ outs) = outs).
      { rewrite app_assoc. apply drop_app_length'. by rewrite length_app. }
      rewrite Hout. rewrite !bool_decide_true by done. by rewrite Hfn', Hlist.
    + by apply (recompute_grad_fn_spec fn cur_b args (fo_trainable r) outs dys stb
                  stb' r').
Qed.

(** A function that returns one tensor, not in a tuple: the forward call
    of [recompute_grad] returns the one output of the op, and the
    backward pass, which takes [list(...)] of what the second call
    returns, raises a TypeError once [fn] has run again. *)
Theorem recompute_grad_single_tensor (cur cur_b : VarScope) (rand : nat) (fn : Fn)
    (args : list Tensor) (st st' stb stb' : PyState) (r r' : FnOut)
    (t t' dy : Tensor) :
  fn (default_scope cur "fn_with_custom_grad") args st = (st', inr r) →
  fo_outputs r = OTensor t →
  fn cur_b args stb = (stb', inr r') →
  fo_outputs r' = OTensor t' →
  ∃ d,
    recompute_grad fn cur rand args st
    = (st', inr (OTensor (call_defun (df_func_name d) (args ++ fo_trainable r ++ [t]) 0),
                 Some d))
    ∧ ∃ msg,
        df_python_grad_func d cur_b (args ++ fo_trainable r ++ [t]) [dy] stb
        = (stb', inl (TypeError msg)).
Proof.
  intros Hfn Hout Hfn' Hout'.
  assert (Houts : outputs_list (fo_outputs r) = Some <$> [t]) by (by rewrite Hout).
  pose proof (wrapper_returns cur rand fn args (recompute_grad_fn fn) false st st' r [t]
                Hfn Houts) as Hrun.
  cbn zeta in Hrun.
  eexists (MkDefun _ _ _ _ _). cbn [df_func_name df_python_grad_func].
  split; [exact Hrun|].
  eexists.
  unfold defun_custom_grad_fn, recompute_grad_fn, py_assert. py_unfold.
  rewrite !take_app_length.
  assert (Hdrop : drop (length args + length (fo_trainable r))
                    (args ++ fo_trainable r ++ [t]) = [t]).
  { rewrite app_assoc. apply drop_app_length'. by rewrite length_app. }
  rewrite Hdrop. rewrite !bool_decide_true by done.
  rewrite Hfn', Hout'. reflexivity.
Qed.

End RecomputeBackward.

(** ** The properties above on the symbolic engine *)

(** [variable_ref] through two Identity ops. *)
Lemma variable_ref_result_witness :
  op_type (SVariable "w") ≠ "Identity"
  ∧ str_in "Variable" (op_type (SVariable "w")) = true
  ∧ variable_ref (SVariable "w") = Some (SVariable "w")
  ∧ (op_type (SIdentity (SIdentity (SVariable "w"))) ≠ "Identity" →
     SVariable "w" = SIdentity (SIdentity (SVariable "w"))).
Proof.
  apply (variable_ref_result (E := sym_engine) (SIdentity (SIdentity (SVariable "w")))
           (SVariable "w")).
  reflexivity.
Defined.

(** The name of the kernel of [g] in layer 12 of a block inside a model. *)
Lemma LAYER_RE_match_layer_name_witness :
  LAYER_RE_match "model/revblock/revlayer_12/g/dense/kernel" = Some ("12", "g").
Proof.
  apply (LAYER_RE_match_layer_name "model/revblock/" "dense/kernel" 12 "g").
  - reflexivity.
  - by right.
  - reflexivity.
Defined.

(** The kernel of [g] in layer 12 of a block inside a model. *)
Lemma parse_variable_layer_name_witness :
  parse_variable (SIdentity (SVariable "model/revblock/revlayer_12/g/dense/kernel"))
  = inr (SVariable "model/revblock/revlayer_12/g/dense/kernel", 12, "g").
Proof.
  apply (parse_variable_layer_name (E := sym_engine)
           (SIdentity (SVariable "model/revblock/revlayer_12/g/dense/kernel"))
           (SVariable "model/revblock/revlayer_12/g/dense/kernel")
           "model/revblock/" "dense/kernel" 12 "g").
  - reflexivity.
  - vm_compute. reflexivity.
  - reflexivity.
  - by right.
  - reflexivity.
Defined.

(** A variable of layer 5 passed to a block of two layers. *)
Lemma custom_grad_fn_layer_out_of_range_witness :
  rev_block_custom_grad_fn 2 [sym_a] [sym_b] 0 1 [sym_x1; sym_x2; sym_b; sym_a]
    [SIdentity (SVariable "revblock/revlayer_0/f/w");
     SIdentity (SVariable "revblock/revlayer_5/f/w")]
    [sym_y1; sym_y2] [sym_gy1; sym_gy2] sym_block_state
  = (sym_block_state, inl (IndexError "list index out of range")).
Proof.
  apply (custom_grad_fn_layer_out_of_range (E := sym_engine)).
  - split; [reflexivity|].
    apply Forall_cons_2; [right; by apply list_elem_of_singleton|].
    apply Forall_cons_2; [left; by apply list_elem_of_singleton|].
    apply Forall_nil_2.
  - repeat constructor; (eexists _, _, _; vm_compute; reflexivity).
  - apply Exists_cons_tl, Exists_cons_hd.
    eexists _, 5, _. split; [vm_compute; reflexivity|lia].
Defined.

(** A block of no layer with two side inputs. *)
Lemma custom_grad_fn_no_layer_witness :
  rev_block_custom_grad_fn 0 [sym_a] [sym_b] 0 1 [sym_x1; sym_x2; sym_b; sym_a] []
    [sym_y1; sym_y2] [sym_gy1; sym_gy2] (sym_state [] [] [])
  = (reversed 0 1 (sym_state [] [] []),
     inr ([Some sym_gy1; Some sym_gy2] ++ replicate 2 None, [])).
Proof.
  apply (custom_grad_fn_no_layer (E := sym_engine) [sym_a] [sym_b] 0 1 sym_x1 sym_x2
           [sym_b; sym_a] [sym_y1; sym_y2] sym_gy1 sym_gy2 (sym_state [] [] [])).
  split; [reflexivity|].
  apply Forall_cons_2; [right; by apply list_elem_of_singleton|].
  apply Forall_cons_2; [left; by apply list_elem_of_singleton|].
  apply Forall_nil_2.
Defined.

(** Two calls of the gradient function of a block of two layers. *)
Lemma custom_grad_fn_twice_witness :
  let run := rev_block_custom_grad_fn 2 [sym_a] [sym_b] 0 1
               [sym_x1; sym_x2; sym_b; sym_a] sym_block_vars [sym_y1; sym_y2]
               [sym_gy1; sym_gy2] in
  let st1 := (run sym_block_state).1 in
  let st2 := (run st1).1 in
  st1 = reversed 0 1 sym_block_state
  ∧ layer_scopes st1 = reverse (layer_scopes sym_block_state)
  ∧ layer_scopes st2 = layer_scopes sym_block_state
  ∧ ∀ l, heap st2 l = heap sym_block_state l.
Proof.
  apply (custom_grad_fn_twice (E := sym_engine) 2 [sym_a] [sym_b] 0 1
           [sym_x1; sym_x2; sym_b; sym_a] sym_block_vars [sym_y1; sym_y2]
           [sym_gy1; sym_gy2]
           [sym_x1; sym_x2; sym_b; sym_a] sym_block_vars [sym_y1; sym_y2]
           [sym_gy1; sym_gy2] sym_block_state).
  - eexists. vm_compute. reflexivity.
  - eexists. vm_compute. reflexivity.
Defined.

(** The block of two layers whose gradient function returns: its side
    inputs are distinct, and those passed are a permutation of them. *)
Lemma custom_grad_fn_needs_distinct_side_inputs_witness :
  NoDup ([sym_a] ++ [sym_b])
  ∧ drop 2 [sym_x1; sym_x2; sym_b; sym_a] ≡ₚ [sym_a] ++ [sym_b].
Proof.
  destruct (rev_block_custom_grad_fn (E := sym_engine) 2 [sym_a] [sym_b] 0 1
              [sym_x1; sym_x2; sym_b; sym_a] sym_block_vars [sym_y1; sym_y2]
              [sym_gy1; sym_gy2] sym_block_state) as [st' [e|res]] eqn:Hrun.
  - vm_compute in Hrun. discriminate Hrun.
  - apply (custom_grad_fn_needs_distinct_side_inputs (E := sym_engine) 2 [sym_a]
             [sym_b] 0 1 [sym_x1; sym_x2; sym_b; sym_a] sym_block_vars
             [sym_y1; sym_y2] [sym_gy1; sym_gy2] sym_block_state st' res);
      [lia|exact Hrun].
Defined.

(** The Defun of the wrapper around [x + w]. *)
Lemma fn_with_custom_grad_defun_witness :
  let vs := variable_scope root_scope "fn_with_custom_grad" in
  let y := sf_call sym_bias vs sym_x None in
  let args := [sym_x] ++ sf_variables sym_bias vs ++ [y] in
  ∃ d,
    _fn_with_custom_grad root_scope 1 sym_layer [sym_x]
      (Some (recompute_grad_fn sym_layer)) false empty_state
    = (empty_state, inr (defun_call (df_func_name d) args 1, Some d))
    ∧ length (df_signature d) = length args
    ∧ length (df_shape_func d) = 1
    ∧ df_body d args = [SIdentity y]
    ∧ length (df_body d args) = length (df_shape_func d).
Proof.
  intros vs y args.
  exact (fn_with_custom_grad_defun (E := sym_engine) root_scope 1 sym_layer [sym_x]
           (recompute_grad_fn sym_layer) false empty_state empty_state
           (MkFnOut (OTuple [y]) (sf_variables sym_bias vs) (sf_variables sym_bias vs))
           [y] eq_refl eq_refl).
Defined.

(** The gradient function of a block of two layers on two lists. *)
Lemma rev_block_gradient_arity_witness :
  ∃ out d st1,
    rev_block root_scope 1 sym_x1 sym_x2 (FnList 0) (FnList 1) 2 None None true
      (sym_state [sym_bias; sym_zero] [sym_zero; sym_bias] [])
    = (st1, inr (out, Some d))
    ∧ ∀ (cur' : VarScope) (op_inputs dys : list sym) (st st' : PyState)
        (res : list (option sym)),
        df_python_grad_func d cur' op_inputs dys st = (st', inr res) →
        length res = length op_inputs
        ∧ length dys = 2
        ∧ drop (length op_inputs - 2) res = [None; None].
Proof.
  apply (rev_block_gradient_arity (E := sym_engine) root_scope 1 sym_x1 sym_x2
           (FnList 0) (FnList 1) 2 None None
           (sym_state [sym_bias; sym_zero] [sym_zero; sym_bias] [])).
  - simpl. lia.
  - simpl. lia.
  - reflexivity.
  - reflexivity.
Defined.

(** [recompute_grad] on [x + w], returned in a tuple. *)
Lemma recompute_grad_backward_witness :
  let vs := variable_scope root_scope "fn_with_custom_grad" in
  let y := sf_call sym_bias vs sym_x None in
  let w := sf_variables sym_bias vs in
  ∃ d out,
    recompute_grad sym_layer root_scope 1 [sym_x] empty_state
    = (empty_state, inr (out, Some d))
    ∧ ∀ (cur_b : VarScope) (dys : list sym) (stb : PyState),
        length dys = 1 →
        df_python_grad_func d cur_b ([sym_x] ++ w ++ [y]) dys stb
        = match sym_layer cur_b [sym_x] stb with
          | (stb', inl e) => (stb', inl e)
          | (stb', inr r') =>
              match py_list (fo_outputs r') with
              | inl e => (stb', inl e)
              | inr outs' =>
                  (stb', inr (tf_gradients outs' ([sym_x] ++ w) dys
                              ++ replicate 1 None))
              end
          end.
Proof.
  intros vs y w.
  exact (recompute_grad_backward (E := sym_engine) root_scope 1 sym_layer [sym_x]
           empty_state empty_state (MkFnOut (OTuple [y]) w w) [y] eq_refl eq_refl).
Defined.

(** [recompute_grad] on [x + w], returned as one tensor. *)
Lemma recompute_grad_single_tensor_witness :
  let vs := variable_scope root_scope "fn_with_custom_grad" in
  let y := sf_call sym_bias vs sym_x None in
  let w := sf_variables sym_bias vs in
  ∃ d,
    recompute_grad sym_single root_scope 1 [sym_x] empty_state
    = (empty_state,
       inr (OTensor (call_defun (df_func_name d) ([sym_x] ++ w ++ [y]) 0), Some d))
    ∧ ∃ msg,
        df_python_grad_func d root_scope ([sym_x] ++ w ++ [y]) [sym_dy] empty_state
        = (empty_state, inl (TypeError msg)).
Proof.
  intros vs y w.
  exact (recompute_grad_single_tensor (E := sym_engine) root_scope root_scope 1
           sym_single [sym_x] empty_state empty_state empty_state empty_state
           (MkFnOut (OTensor y) w w)
           (MkFnOut (OTensor (sf_call sym_bias root_scope sym_x None))
                    (sf_variables sym_bias root_scope)
                    (sf_variables sym_bias root_scope))
           y (sf_call sym_bias root_scope sym_x None) sym_dy
           eq_refl eq_refl eq_refl eq_refl).
Defined.

(** ** Left padding *)

Section PaddingProperties.
Context `{L : Layers}.

Lemma odd_half (k : Z) : Z.eqb (k mod 2) 1 = true → (2 * (k / 2) = k - 1)%Z.
Proof. intros H%Z.eqb_eq. pose proof (Z.div_mod k 2). lia. Qed.

Lemma odd_eqb (k : Z) : Z.eqb (k mod 2) 1 = Z.odd k.
Proof.
  rewrite Zmod_odd. by destruct (Z.odd k).
Qed.

Lemma assert_odd_sizes_ok (fs : PyVal) :
  assert_odd_sizes fs = inr tt
  ↔ ∃ k0 k1, seq_sizes fs = Some (k0, k1) ∧ Z.odd k0 = true ∧ Z.odd k1 = true.
Proof.
  unfold assert_odd_sizes, py_item, item_odd, conv_assert, conv_raise.
  unfold mbind, ConvRes_bind, mret, ConvRes_ret.
  split.
  - destruct fs as [|z|zs|zs|s|ty]; try done.
    + destruct zs as [|k0 [|k1 zs]]; simpl; try done.
      * by destruct (Z.eqb (k0 mod 2) 1).
      * rewrite !odd_eqb. destruct (Z.odd k0) eqn:H0; [|done].
        destruct (Z.odd k1) eqn:H1; [|done]. intros _. by exists k0, k1.
    + destruct zs as [|k0 [|k1 zs]]; simpl; try done.
      * by destruct (Z.eqb (k0 mod 2) 1).
      * rewrite !odd_eqb. destruct (Z.odd k0) eqn:H0; [|done].
        destruct (Z.odd k1) eqn:H1; [|done]. intros _. by exists k0, k1.
    + destruct (String.get 0 s) as [c|]; [|done]. by destruct (Ascii.eqb c "%"%char).
  - intros (k0 & k1 & Hs & H0 & H1).
    destruct fs as [|z|zs|zs|s|ty]; try done;
      destruct zs as [|? [|? zs]]; simpl in Hs; try done; simplify_eq; simpl;
      by rewrite !odd_eqb, H0, H1.
Qed.

Lemma seq_sizes_halves (fs : PyVal) (k0 k1 : Z) :
  seq_sizes fs = Some (k0, k1) →
  py_item fs 0 ≫= item_half = inr (k0 / 2)%Z
  ∧ py_item fs 1 ≫= item_half = inr (k1 / 2)%Z.
Proof.
  destruct fs as [|z|zs|zs|s|ty]; try done;
    destruct zs as [|? [|? zs]]; simpl; try done; intros ?; by simplify_eq.
Qed.

(** What both functions pad with, once the sizes are known to be odd. *)
Lemma left_padding_plan (dims : list (option nat)) (fs : PyVal) (k0 k1 : Z) (d1 d2 : Z) :
  length dims = 4 →
  seq_sizes fs = Some (k0, k1) → Z.odd k0 = true → Z.odd k1 = true →
  (d1 = 1 → d2 = 1 →
  (h ← py_item fs 0 ≫= item_half;
   w ← py_item fs 1 ≫= item_half;
   width_padding ← width_padding (Some dims) (PCond (2 * w * d2)%Z);
   mret [(PConst 0, PConst 0); (PConst (2 * h * d1)%Z, PConst 0);
         (width_padding, PConst 0); (PConst 0, PConst 0)])
  = (inr (left_padding dims k0 k1) : ConvRes _))%Z.
Proof.
  intros Hlen Hs H0 H1 -> ->.
  destruct (seq_sizes_halves fs k0 k1 Hs) as [-> ->].
  unfold width_padding, shape_item, left_padding.
  destruct dims as [|a [|b [|c [|d [|]]]]]; simpl in Hlen; try done.
  cbn. rewrite !Z.mul_1_r.
  rewrite !odd_half by (by rewrite odd_eqb).
  repeat f_equal. case_bool_decide; case_bool_decide; simplify_eq; done.
Qed.

Lemma left_padding_returns (inputs : Image)
    (kwargs : gmap string PyVal) (res : Image * gmap string PyVal) :
  format_input_left_padding inputs kwargs = inr res
  ↔ ∃ dims k0 k1 padded,
      static_shape inputs = Some dims ∧ length dims = 4
      ∧ kwargs !! "filter_size" ≫= filter_sizes = Some (k0, k1)
      ∧ Z.odd k0 = true ∧ Z.odd k1 = true
      ∧ tf_pad inputs (left_padding dims k0 k1) = inr padded
      ∧ set_shape padded [mjoin (dims !! 0); None; None; mjoin (dims !! 3)]
        = inr res.1
      ∧ res.2 = <["padding" := VStr "VALID"]> kwargs.
Proof.
  unfold format_input_left_padding, not_rank4, kwargs_get.
  destruct (static_shape inputs) as [dims|] eqn:Hshape; [|split; [done|]].
  2:{ by intros (? & ? & ? & ? & ? & _). }
  case_bool_decide as Hlen; cbn [negb].
  2:{ split; [done|]. intros (? & ? & ? & ? & ? & ? & _). by simplify_eq. }
  destruct (kwargs !! "filter_size") as [fs|] eqn:Hfs.
  2:{ split; [done|]. by intros (? & ? & ? & ? & ? & ? & ? & _). }
  cbn [mbind ConvRes_bind option_bind].
  set (fs' := match fs with VInt k => VList [k; k] | _ => fs end).
  assert (Hsizes : fs ≠ VNone → seq_sizes fs' = filter_sizes fs).
  { by destruct fs. }
  case_bool_decide as Hnone; cbn [negb conv_assert conv_raise].
  { subst fs. split; [done|]. by intros (? & ? & ? & ? & ? & ? & ? & _). }
  rewrite <- (Hsizes Hnone).
  unfold mret at 1. unfold ConvRes_ret at 1. cbn beta iota.
  destruct (assert_odd_sizes fs') as [e|[]] eqn:Hodd.
  { split; [done|]. intros (dims' & k0 & k1 & padded & ? & ? & Hk & H0 & H1 & _).
    assert (assert_odd_sizes fs' = inr tt) as Hok
      by (apply assert_odd_sizes_ok; by exists k0, k1).
    by rewrite Hodd in Hok. }
  apply assert_odd_sizes_ok in Hodd as (k0 & k1 & Hk & H0 & H1).
  cbn beta iota.
  pose proof (left_padding_plan dims fs' k0 k1 1 1 Hlen Hk H0 H1 eq_refl eq_refl)
    as Hplan.
  destruct (seq_sizes_halves fs' k0 k1 Hk) as [Hh Hw].
  rewrite Hh, Hw in Hplan |- *. cbn [mbind ConvRes_bind] in Hplan |- *.
  destruct (width_padding (Some dims) _) as [e|wp] eqn:Hwp; [done|].
  cbn [fst snd mbind ConvRes_bind mret ConvRes_ret] in Hplan |- *.
  apply (inj inr) in Hplan. rewrite Hplan.
  unfold pad_and_set_shape, shape_item.
  destruct dims as [|a [|b [|c [|d [|]]]]]; simpl in Hlen; try done.
  cbn [lookup list_lookup mjoin option_join mbind ConvRes_bind mret ConvRes_ret].
  split.
  - destruct (tf_pad inputs _) as [e|padded] eqn:Hpad; [done|].
    cbn [mbind ConvRes_bind].
    destruct (set_shape padded _) as [e|shaped] eqn:Hset; [done|].
    cbn [mbind ConvRes_bind].
    intros Heq. simplify_eq. exists [a; b; c; d], k0, k1, padded.
    split_and!; done.
  - intros (dims' & k0' & k1' & padded & ? & _ & Hk' & _ & _ & Hpad & Hset & Hres).
    simplify_eq. rewrite Hpad. cbn [mbind ConvRes_bind]. simpl in Hset. rewrite Hset.
    destruct res. simpl in *. by subst.
Qed.

(** [format_input_left_padding] returns exactly when the static rank of
    the input is 4, [kwargs] has a filter size that is an int or a list or
    tuple that starts with two ints, both sizes are odd and the engine
    accepts the padding and the shape.  It pads before the first row and
    the first column only, by one less than the filter, sets the static
    height and width to unknown and hands back [kwargs] with the padding
    set to VALID. *)
Theorem format_input_left_padding_returns (inputs : Image)
    (kwargs : gmap string PyVal) (res : Image * gmap string PyVal) :
  format_input_left_padding inputs kwargs = inr res
  ↔ ∃ dims k0 k1 padded,
      static_shape inputs = Some dims ∧ length dims = 4
      ∧ kwargs !! "filter_size" ≫= filter_sizes = Some (k0, k1)
      ∧ Z.odd k0 = true ∧ Z.odd k1 = true
      ∧ tf_pad inputs (left_padding dims k0 k1) = inr padded
      ∧ set_shape padded [mjoin (dims !! 0); None; None; mjoin (dims !! 3)]
        = inr res.1
      ∧ res.2 = <["padding" := VStr "VALID"]> kwargs.
Proof. apply left_padding_returns. Qed.

Lemma format_input_left_padding_kwargs (inputs : Image)
    (kwargs kwargs' : gmap string PyVal) :
  kwargs !! "filter_size" = kwargs' !! "filter_size" →
  format_input_left_padding inputs kwargs'
  = match format_input_left_padding inputs kwargs with
    | inl e => inl e
    | inr (padded, _) => inr (padded, <["padding" := VStr "VALID"]> kwargs')
    end.
Proof.
  intros Heq. unfold format_input_left_padding, kwargs_get. rewrite <- Heq.
  destruct (not_rank4 (static_shape inputs)); [done|].
  destruct (kwargs !! "filter_size") as [fs|]; [|done].
  cbn [mbind ConvRes_bind].
  destruct (conv_assert _) as [e|[]]; [done|]. cbn [mbind ConvRes_bind].
  destruct (assert_odd_sizes _) as [e|[]]; [done|]. cbn [mbind ConvRes_bind].
  destruct (py_item _ 0 ≫= item_half) as [e|h]; [done|]. cbn [mbind ConvRes_bind].
  destruct (py_item _ 1 ≫= item_half) as [e|w]; [done|]. cbn [mbind ConvRes_bind].
  destruct (width_padding _ _) as [e|wp]; [done|]. cbn [mbind ConvRes_bind].
  destruct (pad_and_set_shape _ _ _) as [e|padded]; done.
Qed.

(** The padding does not depend on the dilation: whatever [kwargs] holds
    for it, and whether it holds one, the tensor handed back is the same
    (the padding is that of a dilation of 1), and the dilation is handed
    on as it came. *)
Theorem format_input_left_padding_ignores_dilation (inputs : Image)
    (kwargs : gmap string PyVal) (v : PyVal) :
  format_input_left_padding inputs (<["dilation" := v]> kwargs)
  = match format_input_left_padding inputs (delete "dilation" kwargs) with
    | inl e => inl e
    | inr (padded, kw) => inr (padded, <["dilation" := v]> kw)
    end.
Proof.
  rewrite (format_input_left_padding_kwargs inputs (delete "dilation" kwargs)
             (<["dilation" := v]> kwargs)).
  2:{ by rewrite lookup_insert_ne, lookup_delete_ne. }
  pose proof (format_input_left_padding_kwargs inputs (delete "dilation" kwargs)
                (delete "dilation" kwargs) eq_refl) as Hself.
  destruct (format_input_left_padding inputs (delete "dilation" kwargs))
    as [e|[padded kw]]; [done|].
  simplify_eq. rewrite (insert_insert_ne _ "dilation" "padding") by done.
  by rewrite insert_delete_eq.
Qed.

(** [conv2d_v2] with the padding LEFT on an input and a filter the left
    padding accepts: the convolution is that of [dilated_conv2d] on the
    padded input with the padding VALID, every other argument as given. *)
Theorem conv2d_v2_left (inputs : Image) (n_output_channels is_training reuse : PyVal)
    (kwargs : gmap string PyVal) (dims : list (option nat)) (k0 k1 : Z)
    (padded shaped : Image) :
  kwargs !! "padding" = Some (VStr "LEFT") →
  static_shape inputs = Some dims → length dims = 4 →
  kwargs !! "filter_size" ≫= filter_sizes = Some (k0, k1) →
  Z.odd k0 = true → Z.odd k1 = true →
  tf_pad inputs (left_padding dims k0 k1) = inr padded →
  set_shape padded [mjoin (dims !! 0); None; None; mjoin (dims !! 3)] = inr shaped →
  conv2d_v2 inputs n_output_channels is_training reuse kwargs
  = dilated_conv2d shaped n_output_channels is_training reuse
      (<["padding" := VStr "VALID"]> kwargs).
Proof.
  intros Hpad Hshape Hlen Hfs H0 H1 Hp Hs.
  assert (Hfmt : format_input_left_padding inputs kwargs
                 = inr (shaped, <["padding" := VStr "VALID"]> kwargs)).
  { apply left_padding_returns. exists dims, k0, k1, padded. done. }
  unfold conv2d_v2. rewrite bool_decide_true by done. by rewrite Hfmt.
Qed.

(** [conv2d_v2] with the padding LEFT and no filter size in [kwargs]
    raises KeyError on an input of rank 4: the default of the convolution
    is not used, and the convolution is not called. *)
Theorem conv2d_v2_left_needs_filter_size (inputs : Image)
    (n_output_channels is_training reuse : PyVal) (kwargs : gmap string PyVal)
    (dims : list (option nat)) :
  kwargs !! "padding" = Some (VStr "LEFT") →
  static_shape inputs = Some dims → length dims = 4 →
  kwargs !! "filter_size" = None →
  conv2d_v2 inputs n_output_channels is_training reuse kwargs
  = inl (KeyError "filter_size").
Proof.
  intros Hpad Hshape Hlen Hfs. unfold conv2d_v2.
  rewrite bool_decide_true by done.
  unfold format_input_left_padding, not_rank4, kwargs_get. rewrite Hshape, Hfs.
  by rewrite bool_decide_true.
Qed.

(** [pool2d] with the padding LEFT does not take the int that its
    documentation allows for the filter size, and that
    [format_input_left_padding] takes: it raises TypeError. *)
Theorem pool2d_left_int_filter (inputs : Image) (k : Z)
    (pooling_type strides outputs_collections name : PyVal)
    (kwargs : gmap string PyVal) (dims : list (option nat)) :
  static_shape inputs = Some dims → length dims = 4 →
  ∃ msg, pool2d inputs (VInt k) pooling_type (VStr "LEFT") strides outputs_collections
           name kwargs
         = inl (Raised (TypeError msg)).
Proof.
  intros Hshape Hlen. unfold pool2d, not_rank4. rewrite Hshape.
  rewrite (bool_decide_true (length dims = 4)) by done. cbn [negb].
  rewrite bool_decide_true by done. eexists. reflexivity.
Qed.

(** [pool2d] with the padding LEFT and a filter size given as a list or a
    tuple pads as [format_input_left_padding] does for that filter, and
    raises what it raises; it then pools the padded input with the
    padding VALID. *)
Theorem pool2d_left_as_conv (inputs : Image) (filter_size : PyVal) (zs : list Z)
    (pooling_type strides outputs_collections name : PyVal)
    (kwargs kwargs' : gmap string PyVal) (dims : list (option nat)) :
  static_shape inputs = Some dims → length dims = 4 →
  filter_size = VList zs ∨ filter_size = VTuple zs →
  pool2d inputs filter_size pooling_type (VStr "LEFT") strides outputs_collections
    name kwargs
  = match format_input_left_padding inputs (<["filter_size" := filter_size]> kwargs')
    with
    | inl e => inl e
    | inr (padded, _) =>
        tf_nn_pool padded filter_size pooling_type (VStr "VALID") strides
        ≫= _collect_named_outputs outputs_collections name
    end.
Proof.
  intros Hshape Hlen Hfs.
  unfold pool2d, format_input_left_padding, not_rank4, kwargs_get.
  rewrite Hshape, lookup_insert_eq. rewrite (bool_decide_true (length dims = 4)) by done.
  cbn [negb]. rewrite (bool_decide_true (VStr "LEFT" = VStr "LEFT")) by done.
  rewrite (bool_decide_false (length <$> Some dims = Some 3))
    by (simpl; intros [= H3]; lia).
  assert (Hnone : filter_size ≠ VNone) by (destruct Hfs as [->| ->]; done).
  assert (Hsame : match filter_size with VInt k => VList [k; k] | _ => filter_size end
                  = filter_size) by (destruct Hfs as [->| ->]; done).
  cbn [mbind ConvRes_bind]. rewrite Hsame.
  rewrite (bool_decide_false (filter_size = VNone)) by done.
  cbn [negb conv_assert mbind ConvRes_bind mret ConvRes_ret].
  destruct (assert_odd_sizes filter_size) as [e|[]]; [done|].
  cbn [mbind ConvRes_bind].
  destruct (py_item filter_size 0 ≫= item_half) as [e|h]; [done|].
  cbn [mbind ConvRes_bind].
  destruct (py_item filter_size 1 ≫= item_half) as [e|w]; [done|].
  cbn [mbind ConvRes_bind fst snd]. rewrite !Z.mul_1_r.
  destruct (width_padding (Some dims) _) as [e|wp]; [done|].
  cbn [mbind ConvRes_bind mret ConvRes_ret].
  destruct (pad_and_set_shape inputs (Some dims) _) as [e|padded]; [done|].
  reflexivity.
Qed.

End PaddingProperties.

(** ** Left padding on the symbolic instance *)

(** A filter of 3 by 3 with a dilation of 2: two rows above, and two
    columns to the left unless the width is 1. *)
Lemma conv2d_v2_left_witness :
  let kwargs : gmap string PyVal :=
    <["padding" := VStr "LEFT"]> (<["filter_size" := VInt 3]>
      (<["dilation" := VInt 2]> ∅)) in
  let paddings := [(PConst 0, PConst 0); (PConst 2, PConst 0);
                   (PCond 2, PConst 0); (PConst 0, PConst 0)] in
  conv2d_v2 img_x (VInt 16) (VObj "bool") VNone kwargs
  = inr (IConv (ISetShape (IPad img_x paddings) [None; None; None; Some 3]) (VInt 16)
           (<["padding" := VStr "VALID"]> kwargs)).
Proof.
  intros kwargs paddings.
  apply (conv2d_v2_left (L := img_layers) img_x (VInt 16) (VObj "bool") VNone kwargs
           [None; Some 28; Some 28; Some 3] 3 3 (IPad img_x paddings)
           (ISetShape (IPad img_x paddings) [None; None; None; Some 3])).
  - reflexivity.
  - reflexivity.
  - reflexivity.
  - reflexivity.
  - reflexivity.
  - reflexivity.
  - reflexivity.
  - reflexivity.
Defined.

(** The padding LEFT without a filter size. *)
Lemma conv2d_v2_left_needs_filter_size_witness :
  conv2d_v2 img_x (VInt 16) (VObj "bool") VNone (<["padding" := VStr "LEFT"]> ∅)
  = inl (KeyError "filter_size").
Proof.
  apply (conv2d_v2_left_needs_filter_size (L := img_layers) img_x (VInt 16)
           (VObj "bool") VNone (<["padding" := VStr "LEFT"]> ∅)
           [None; Some 28; Some 28; Some 3]).
  - reflexivity.
  - reflexivity.
  - reflexivity.
  - reflexivity.
Defined.

(** [pool2d] with the padding LEFT and the filter size 3. *)
Lemma pool2d_left_int_filter_witness :
  ∃ msg, pool2d img_x (VInt 3) (VStr "AVG") (VStr "LEFT") (VTuple [1; 1]%Z) VNone
           (VStr "general_pool") ∅
         = inl (Raised (TypeError msg)).
Proof.
  apply (pool2d_left_int_filter (L := img_layers) img_x 3 (VStr "AVG")
           (VTuple [1; 1]%Z) VNone (VStr "general_pool") ∅
           [None; Some 28; Some 28; Some 3]).
  - reflexivity.
  - reflexivity.
Defined.

(** [pool2d] with the padding LEFT and the filter size (3, 5). *)
Lemma pool2d_left_as_conv_witness :
  pool2d img_x (VTuple [3; 5]%Z) (VStr "MAX") (VStr "LEFT") (VTuple [1; 1]%Z) VNone
    (VStr "general_pool") ∅
  = match format_input_left_padding img_x (<["filter_size" := VTuple [3; 5]%Z]> ∅) with
    | inl e => inl e
    | inr (padded, _) =>
        tf_nn_pool padded (VTuple [3; 5]%Z) (VStr "MAX") (VStr "VALID") (VTuple [1; 1]%Z)
        ≫= _collect_named_outputs VNone (VStr "general_pool")
    end.
Proof.
  apply (pool2d_left_as_conv (L := img_layers) img_x (VTuple [3; 5]%Z) [3; 5]%Z
           (VStr "MAX") (VTuple [1; 1]%Z) VNone (VStr "general_pool") ∅ ∅
           [None; Some 28; Some 28; Some 3]).
  - reflexivity.
  - reflexivity.
  - by right.
Defined.
